(** * DevTools.file_manipulation

    A shallow embedding of [src/DevTools/file_manipulation.py] and of the
    parts of the Python standard library it calls ([configparser.ConfigParser]
    with its default settings, [hashlib.sha256], the [try]/[except]/[finally]
    control flow around [shutil.copy] and [os.makedirs]), followed by the
    properties of [create_cfg], [read_cfg], [backup] and [check_hash].

    Text is a list of 8-bit characters, read as the code points U+0000 to
    U+00FF.  A text file is modelled by the text Python sees after decoding
    (writer and reader use the same locale encoding); a binary file by its
    bytes. *)

From Stdlib Require Import ZArith Lia List Ascii String.
From Stdlib.Strings Require Import Byte.
From Stdlib Require Import DecimalString.
From stdpp Require Import base option list gmap strings.

(** ** Python strings *)

Module Py.

Abbreviation pystr := (list ascii).

(** A string literal of the source. Rocq literals have no escapes: line
    feed and carriage return are the constants [LF] and [CR]. *)
Definition str (s : string) : pystr := list_ascii_of_string s.
Arguments str s%_string.

Definition LF : ascii := "010"%char.
Definition CR : ascii := "013"%char.

(** [str.isspace] on one character (also the class [\s] of [re]). *)
Definition isspace (c : ascii) : bool :=
  let n := N_of_ascii c in
  ((9 <=? n) && (n <=? 13) || (28 <=? n) && (n <=? 32)
   || (n =? 133) || (n =? 160))%N.

(** [str.lower]: A-Z and the Latin-1 capitals U+00C0..U+00DE (but not the
    multiplication sign U+00D7) move up by 32. *)
Definition lower_char (c : ascii) : ascii :=
  let n := N_of_ascii c in
  if ((65 <=? n) && (n <=? 90)
      || (192 <=? n) && (n <=? 222) && negb (n =? 215))%N
  then ascii_of_N (n + 32) else c.

Definition lower (s : pystr) : pystr := map lower_char s.

Fixpoint lstrip (s : pystr) : pystr :=
  match s with
  | c :: s' => if isspace c then lstrip s' else s
  | [] => []
  end.

Definition rstrip (s : pystr) : pystr := rev (lstrip (rev s)).

Definition strip (s : pystr) : pystr := rstrip (lstrip s).

Fixpoint startswith (s prefix : pystr) {struct prefix} : bool :=
  match prefix, s with
  | [], _ => true
  | p :: prefix', c :: s' => bool_decide (c = p) && startswith s' prefix'
  | _ :: _, [] => false
  end.

(** Index of the first character satisfying [p]. *)
Fixpoint index_where (p : ascii -> bool) (s : pystr) : option nat :=
  match s with
  | [] => None
  | c :: s' => if p c then Some 0 else S <$> index_where p s'
  end.

(** [s.find(c)] for a one-character [c]; [None] stands for -1. *)
Definition find (s : pystr) (c : ascii) : option nat :=
  index_where (fun x => bool_decide (x = c)) s.

(** [s.rindex(c)] for a one-character [c]; [None] stands for ValueError
    (and for the -1 of [rfind]). *)
Fixpoint rindex (s : pystr) (c : ascii) : option nat :=
  match s with
  | [] => None
  | x :: s' =>
      match rindex s' c with
      | Some i => Some (S i)
      | None => if bool_decide (x = c) then Some 0 else None
      end
  end.

(** [c in s] *)
Definition contains (s : pystr) (c : ascii) : bool :=
  bool_decide (c ∈ s).

(** [sep.join(parts)] *)
Fixpoint join (sep : pystr) (parts : list pystr) : pystr :=
  match parts with
  | [] => []
  | [p] => p
  | p :: rest => p ++ sep ++ join sep rest
  end.

(** Text-mode reading with universal newlines: CR LF and a lone CR become
    LF. *)
Fixpoint universal_newlines (s : pystr) : pystr :=
  match s with
  | [] => []
  | c :: s' =>
      if bool_decide (c = CR) then
        match s' with
        | c' :: s'' =>
            if bool_decide (c' = LF) then LF :: universal_newlines s''
            else LF :: universal_newlines s'
        | [] => [LF]
        end
      else c :: universal_newlines s'
  end.

(** Iterating over a text file: every line keeps its final LF; the last
    line may have none. *)
Fixpoint readlines (s : pystr) : list pystr :=
  match s with
  | [] => []
  | c :: s' =>
      if bool_decide (c = LF) then [c] :: readlines s'
      else match readlines s' with
           | [] => [[c]]
           | line :: rest => (c :: line) :: rest
           end
  end.

(** Truth value of a string. *)
Definition truthy (s : pystr) : bool :=
  match s with [] => false | _ => true end.

End Py.

(** ** Exceptions and results *)

Inductive exn : Set :=
  | FileNotFoundError
  | PermissionError
  | OSError                       (* any other OSError *)
  | IndexError
  | KeyError
  | DuplicateSectionError
  | DuplicateOptionError
  | MissingSectionHeaderError
  | ParsingError
  | NoSectionError
  | NoOptionError
  | InterpolationSyntaxError
  | InterpolationMissingOptionError
  | InterpolationDepthError.

#[global] Instance exn_eq_dec : EqDecision exn.
Proof. solve_decision. Defined.

Inductive result (A : Type) : Type :=
  | Ok (a : A)
  | Raise (e : exn).
Arguments Ok {A} a.
Arguments Raise {A} e.

#[global] Instance result_ret : MRet result := fun A a => Ok a.
#[global] Instance result_bind : MBind result := fun A B f m =>
  match m with
  | Ok a => f a
  | Raise e => Raise e
  end.
#[global] Instance result_fmap : FMap result := fun A B f m =>
  match m with
  | Ok a => Ok (f a)
  | Raise e => Raise e
  end.

#[global] Instance byte_eq_dec : EqDecision byte := Byte.byte_eq_dec.

(** A [for] loop whose body may raise: the first exception leaves the loop. *)
Fixpoint for_each {A S : Type} (body : S -> A -> result S) (s : S) (xs : list A)
  : result S :=
  match xs with
  | [] => Ok s
  | x :: xs' => s' ← body s x; for_each body s' xs'
  end.

(** ** Insertion-ordered dictionaries *)

Module Dict.
Section ops.
Context {K V : Type} `{EqDecision K}.

Abbreviation dict := (list (K * V)).

(** [d.get(k)] / [d[k]] ([None] stands for KeyError) *)
Fixpoint get (d : dict) (k : K) : option V :=
  match d with
  | [] => None
  | (k', v) :: d' => if decide (k = k') then Some v else get d' k
  end.

(** [d[k] = v]: a key already present keeps its position. *)
Fixpoint set (d : dict) (k : K) (v : V) : dict :=
  match d with
  | [] => [(k, v)]
  | (k', v') :: d' =>
      if decide (k = k') then (k', v) :: d' else (k', v') :: set d' k v
  end.

(** [list(d.keys())] *)
Definition keys (d : dict) : list K := d.*1.

(** [d.update(other)] *)
Definition update (d other : dict) : dict :=
  fold_left (fun acc kv => set acc kv.1 kv.2) other d.

(** [k in d] *)
Definition mem (d : dict) (k : K) : bool := bool_decide (k ∈ keys d).
End ops.
End Dict.

Abbreviation odict K V := (list (K * V)).

(** ** configparser.ConfigParser, default settings

    [ConfigParser()] is built with delimiters [=] and [:], comment prefixes
    [#] and [;], no inline comment prefixes, [strict=True],
    [allow_no_value=False], [empty_lines_in_values=True], the default section
    [DEFAULT] and [BasicInterpolation]. *)

Module ConfigParser.
Import Py.

Definition DEFAULTSECT : pystr := str "DEFAULT".
Definition MAX_INTERPOLATION_DEPTH : nat := 10.
Definition comment_prefixes : list pystr := [str "#"; str ";"].
Definition strict : bool := true.

(** [optionxform] *)
Definition optionxform (optionstr : pystr) : pystr := lower optionstr.

(** [SECTCRE.match(value)], the pattern [\[(?P<header>.+)\]]: the header
    runs from the opening bracket to the last closing bracket and is not
    empty. ([value] is a stripped line and holds no line feed, so [.]
    matches each of its characters.) *)
Definition SECTCRE_match (value : pystr) : option pystr :=
  match value with
  | c :: rest =>
      if bool_decide (c = "["%char) then
        match rindex rest "]"%char with
        | Some j => if bool_decide (0 < j) then Some (take j rest) else None
        | None => None
        end
      else None
  | [] => None
  end.

Definition is_delimiter (c : ascii) : bool :=
  bool_decide (c = "="%char) || bool_decide (c = ":"%char).

(** [OPTCRE.match(value)]: a lazy [option] group, optional white space, a
    delimiter [=] or [:], optional white space, and the [value] group up
    to the end. The option is what precedes the first delimiter, without
    the white space before it; the value is what follows it, without the
    white space after it. Returns the groups [option] and [value]. *)
Definition OPTCRE_match (value : pystr) : option (pystr * pystr) :=
  match index_where is_delimiter value with
  | Some i => Some (rstrip (take i value), lstrip (drop (S i) value))
  | None => None
  end.

(** [NONSPACECRE.search(line)]: start of the first non-space character. *)
Definition NONSPACECRE_search (line : pystr) : option nat :=
  index_where (fun c => negb (isspace c)) line.

(** [cursect] is a reference to one of the parser's dictionaries. *)
Inductive sect_ref : Type :=
  | TheDefaults
  | TheSection (name : pystr).

(** The parser's dictionaries while [_read] runs (an option's value is the
    list of its lines) and the local variables of [_read]. *)
Record reader : Type := {
  sections_raw : odict pystr (odict pystr (list pystr));
  defaults_raw : odict pystr (list pystr);
  elements_added : gset (pystr + option pystr * pystr);
  cursect : option sect_ref;
  sectname : option pystr;
  optname : option pystr;
  indent_level : nat;
  e : list nat                  (* lines collected in the ParsingError *)
}.

Definition fresh : reader :=
  {| sections_raw := []; defaults_raw := []; elements_added := ∅;
     cursect := None; sectname := None; optname := None;
     indent_level := 0; e := [] |}.

(** The dictionary [ref] points to. *)
Definition deref (st : reader) (ref : sect_ref)
  : option (odict pystr (list pystr)) :=
  match ref with
  | TheDefaults => Some (defaults_raw st)
  | TheSection name => Dict.get (sections_raw st) name
  end.

(** [cursect[optname] = val], through the reference. *)
Definition store (st : reader) (ref : sect_ref) (optname : pystr)
    (val : list pystr) : result reader :=
  match deref st ref with
  | None => Raise KeyError
  | Some d =>
      let d' := Dict.set d optname val in
      Ok match ref with
         | TheDefaults =>
             {| sections_raw := sections_raw st; defaults_raw := d';
                elements_added := elements_added st; cursect := cursect st;
                sectname := sectname st; optname := ConfigParser.optname st;
                indent_level := indent_level st; e := e st |}
         | TheSection name =>
             {| sections_raw := Dict.set (sections_raw st) name d';
                defaults_raw := defaults_raw st;
                elements_added := elements_added st; cursect := cursect st;
                sectname := sectname st; optname := ConfigParser.optname st;
                indent_level := indent_level st; e := e st |}
         end
  end.

(** [cursect[optname].append(line)] *)
Definition append_line (st : reader) (ref : sect_ref) (optname : pystr)
    (line : pystr) : result reader :=
  match deref st ref ≫= fun d => Dict.get d optname with
  | None => Raise KeyError
  | Some val => store st ref optname (val ++ [line])
  end.

(** The full-line comment test of [_read]. *)
Definition is_comment (line : pystr) : bool :=
  existsb (startswith (strip line)) comment_prefixes.

(** A section header was matched. *)
Definition enter_section (st : reader) (cur_indent_level : nat)
    (name : pystr) : result reader :=
  if Dict.mem (sections_raw st) name then
    if strict && bool_decide (inl name ∈ elements_added st) then
      Raise DuplicateSectionError
    else
      Ok {| sections_raw := sections_raw st; defaults_raw := defaults_raw st;
            elements_added := {[ inl name ]} ∪ elements_added st;
            cursect := Some (TheSection name); sectname := Some name;
            optname := None; indent_level := cur_indent_level; e := e st |}
  else if bool_decide (name = DEFAULTSECT) then
    Ok {| sections_raw := sections_raw st; defaults_raw := defaults_raw st;
          elements_added := elements_added st;
          cursect := Some TheDefaults; sectname := Some name;
          optname := None; indent_level := cur_indent_level; e := e st |}
  else
    Ok {| sections_raw := Dict.set (sections_raw st) name [];
          defaults_raw := defaults_raw st;
          elements_added := {[ inl name ]} ∪ elements_added st;
          cursect := Some (TheSection name); sectname := Some name;
          optname := None; indent_level := cur_indent_level; e := e st |}.

(** An option line [value] in the section [ref]. *)
Definition enter_option (st : reader) (ref : sect_ref)
    (cur_indent_level lineno : nat) (value : pystr) : result reader :=
  match OPTCRE_match value with
  | Some (optname0, optval) =>
      let e' := if truthy optname0 then e st else e st ++ [lineno] in
      let optname' := optionxform (rstrip optname0) in
      if strict
         && bool_decide (inr (sectname st, optname') ∈ elements_added st)
      then Raise DuplicateOptionError
      else
        store
          {| sections_raw := sections_raw st; defaults_raw := defaults_raw st;
             elements_added :=
               {[ inr (sectname st, optname') ]} ∪ elements_added st;
             cursect := cursect st; sectname := sectname st;
             optname := Some optname'; indent_level := cur_indent_level;
             e := e' |}
          ref optname' [strip optval]
  | None =>
      Ok {| sections_raw := sections_raw st; defaults_raw := defaults_raw st;
            elements_added := elements_added st; cursect := cursect st;
            sectname := sectname st; optname := optname st;
            indent_level := cur_indent_level; e := e st ++ [lineno] |}
  end.

(** One turn of the loop of [_read] over the lines of the file. *)
Definition read_line (st : reader) (lineno : nat) (line : pystr)
  : result reader :=
  let comment_start : option nat :=
    if is_comment line then Some 0 else None in
  let value :=
    strip (match comment_start with
           | Some n => take n line
           | None => line
           end) in
  if negb (truthy value) then
    (* empty_lines_in_values: a blank line is added to the value being
       read, unless the line was a comment *)
    match comment_start, cursect st, optname st with
    | None, Some ref, Some opt =>
        if truthy opt then append_line st ref opt [] else Ok st
    | _, _, _ => Ok st
    end
  else
    let cur_indent_level := default 0 (NONSPACECRE_search line) in
    let header_or_option :=
      match SECTCRE_match value with
      | Some name => enter_section st cur_indent_level name
      | None =>
          match cursect st with
          | None => Raise MissingSectionHeaderError
          | Some ref => enter_option st ref cur_indent_level lineno value
          end
      end in
    match cursect st, optname st with
    | Some ref, Some opt =>
        if truthy opt && bool_decide (indent_level st < cur_indent_level)
        then append_line st ref opt value      (* continuation line *)
        else header_or_option
    | _, _ => header_or_option
    end.

(** [for lineno, line in enumerate(fp, start=1)] *)
Fixpoint read_lines (st : reader) (lineno : nat) (fp : list pystr)
  : result reader :=
  match fp with
  | [] => Ok st
  | line :: fp' => st' ← read_line st lineno line; read_lines st' (S lineno) fp'
  end.

(** The parser once a file is read: every value is a string. *)
Record parser : Type := {
  _sections : odict pystr (odict pystr pystr);
  _defaults : odict pystr pystr
}.

(** The value of one option in [_join_multiline_values]
    ([before_read] of [BasicInterpolation] returns its argument). *)
Definition join_value (val : list pystr) : pystr := rstrip (join [LF] val).

Definition join_options (options : odict pystr (list pystr))
  : odict pystr pystr :=
  (fun nv => (nv.1, join_value nv.2)) <$> options.

Definition _join_multiline_values (st : reader) : parser :=
  {| _sections := (fun so => (so.1, join_options so.2)) <$> sections_raw st;
     _defaults := join_options (defaults_raw st) |}.

(** [_read(fp, fpname)] on a new parser. *)
Definition _read (fp : list pystr) : result parser :=
  st ← read_lines fresh 1 fp;
  let config := _join_multiline_values st in
  if bool_decide (e st = []) then Ok config else Raise ParsingError.

(** [config = ConfigParser(); config.read(file)]: a file that cannot be
    opened (an [OSError]) is skipped; an error of [_read] is not caught. *)
Definition read (fs : gmap pystr pystr) (filename : pystr) : result parser :=
  match fs !! filename with
  | None => Ok {| _sections := []; _defaults := [] |}
  | Some content => _read (readlines (universal_newlines content))
  end.

(** [sections()] *)
Definition sections (config : parser) : list pystr :=
  Dict.keys (_sections config).

(** [options(section)] *)
Definition options (config : parser) (section : pystr) : result (list pystr) :=
  match Dict.get (_sections config) section with
  | None => Raise NoSectionError
  | Some opts => Ok (Dict.keys (Dict.update opts (_defaults config)))
  end.

(** [_unify_values(section, None)]: the section's options, then the
    defaults. *)
Definition _unify_values (config : parser) (section : pystr)
  : result (odict pystr pystr * odict pystr pystr) :=
  match Dict.get (_sections config) section with
  | Some sectiondict => Ok (sectiondict, _defaults config)
  | None =>
      if bool_decide (section = DEFAULTSECT) then Ok ([], _defaults config)
      else Raise NoSectionError
  end.

(** Lookup in the [ChainMap]. *)
Definition chain_get (d : odict pystr pystr * odict pystr pystr) (k : pystr)
  : option pystr :=
  match Dict.get d.1 k with
  | Some v => Some v
  | None => Dict.get d.2 k
  end.

(** [_KEYCRE.match(rest)], the pattern [%\(([^)]+)\)s]: returns the name
    and the end of the match. *)
Definition KEYCRE_match (rest : pystr) : option (pystr * nat) :=
  if startswith rest (str "%(") then
    match find (drop 2 rest) ")"%char with
    | Some n =>
        if bool_decide (0 < n)
           && bool_decide (drop 2 rest !! S n = Some "s"%char)
        then Some (take n (drop 2 rest), n + 4)
        else None
    | None => None
    end
  else None.

(** The [while rest] loop of [BasicInterpolation._interpolate_some];
    [recurse] is the call of [_interpolate_some] one level deeper. The
    counter [n] starts at the length of [rest], which each turn shortens. *)
Fixpoint scan (recurse : list pystr -> pystr -> result (list pystr))
    (map : odict pystr pystr * odict pystr pystr)
    (n : nat) (accum : list pystr) (rest : pystr) {struct n}
  : result (list pystr) :=
  match n with
  | 0 => Ok accum
  | S n' =>
      if negb (truthy rest) then Ok accum else
      match find rest "%"%char with
      | None => Ok (accum ++ [rest])
      | Some p =>
          let accum := if bool_decide (0 < p)
                       then accum ++ [take p rest] else accum in
          let rest := drop p rest in
          let c := take 1 (drop 1 rest) in
          if bool_decide (c = str "%") then
            scan recurse map n' (accum ++ [str "%"]) (drop 2 rest)
          else if bool_decide (c = str "(") then
            match KEYCRE_match rest with
            | None => Raise InterpolationSyntaxError
            | Some (name, stop) =>
                let var := optionxform name in
                let rest := drop stop rest in
                match chain_get map var with
                | None => Raise InterpolationMissingOptionError
                | Some v =>
                    if contains v "%"%char then
                      accum ← recurse accum v;
                      scan recurse map n' accum rest
                    else scan recurse map n' (accum ++ [v]) rest
                end
            end
          else Raise InterpolationSyntaxError
      end
  end.

(** [BasicInterpolation._interpolate_some]. [budget] is
    [MAX_INTERPOLATION_DEPTH + 1 - depth]. *)
Fixpoint _interpolate_some (budget : nat)
    (map : odict pystr pystr * odict pystr pystr)
    (accum : list pystr) (rest : pystr) {struct budget}
  : result (list pystr) :=
  match budget with
  | 0 => Raise InterpolationDepthError
  | S budget' =>
      scan (_interpolate_some budget' map) map (length rest) accum rest
  end.

(** [BasicInterpolation.before_get] *)
Definition before_get (value : pystr)
    (defaults : odict pystr pystr * odict pystr pystr) : result pystr :=
  L ← _interpolate_some MAX_INTERPOLATION_DEPTH defaults [] value;
  mret (concat L).

(** [get(section, option)] *)
Definition get (config : parser) (section option : pystr) : result pystr :=
  d ← _unify_values config section;
  let option := optionxform option in
  match chain_get d option with
  | None => Raise NoOptionError
  | Some value => before_get value d
  end.

End ConfigParser.

(** ** hashlib.sha256

    SHA-256 (FIPS 180-4) on 32-bit words kept in [Z], with the interface of
    a [hashlib] object: [new], [update], [digest], [hexdigest]. *)

Module SHA256.
Import Py.
Local Open Scope Z_scope.

Definition wrap (x : Z) : Z := x mod 2 ^ 32.
Definition add (x y : Z) : Z := wrap (x + y).
Definition shr (n x : Z) : Z := Z.shiftr x n.
Definition rotr (n x : Z) : Z :=
  Z.lor (Z.shiftr x n) (wrap (Z.shiftl x (32 - n))).
Definition not32 (x : Z) : Z := Z.lxor x 0xffffffff.

Definition Ch (x y z : Z) : Z := Z.lxor (Z.land x y) (Z.land (not32 x) z).
Definition Maj (x y z : Z) : Z :=
  Z.lxor (Z.lxor (Z.land x y) (Z.land x z)) (Z.land y z).
Definition Sigma0 (x : Z) : Z :=
  Z.lxor (Z.lxor (rotr 2 x) (rotr 13 x)) (rotr 22 x).
Definition Sigma1 (x : Z) : Z :=
  Z.lxor (Z.lxor (rotr 6 x) (rotr 11 x)) (rotr 25 x).
Definition sigma0 (x : Z) : Z :=
  Z.lxor (Z.lxor (rotr 7 x) (rotr 18 x)) (shr 3 x).
Definition sigma1 (x : Z) : Z :=
  Z.lxor (Z.lxor (rotr 17 x) (rotr 19 x)) (shr 10 x).

(** The constants of FIPS 180-4 are defined from the first primes: the
    round constants are the first 32 bits of the fractional parts of their
    cube roots, the initial hash value those of their square roots. *)
Definition is_prime (n : nat) : bool :=
  forallb (fun d => negb (n mod d =? 0)%nat) (seq 2 (n - 2)).

Definition primes : list Z :=
  Z.of_nat <$> filter (fun n => is_prime n = true) (seq 2 310).

(** The largest [r] below [2 ^ bits] with [r ^ k <= n], bit by bit. *)
Fixpoint iroot (k n : Z) (bits : nat) (r : Z) : Z :=
  match bits with
  | O => r
  | S bits' =>
      let r' := r + 2 ^ Z.of_nat bits' in
      iroot k n bits' (if r' ^ k <=? n then r' else r)
  end.

Definition fraction_bits (k p : Z) : Z :=
  wrap (iroot k (p * 2 ^ (32 * k)) 40 0).

Definition K : list Z := Eval vm_compute in fraction_bits 3 <$> primes.

(** The eight working variables, also the chaining value. *)
Record registers : Type := Regs {
  ra : Z; rb : Z; rc : Z; rd : Z; re : Z; rf : Z; rg : Z; rh : Z
}.

Definition H0 : registers :=
  Eval vm_compute in
    let h (i : nat) := fraction_bits 2 (nth i primes 0) in
    Regs (h 0%nat) (h 1%nat) (h 2%nat) (h 3%nat)
         (h 4%nat) (h 5%nat) (h 6%nat) (h 7%nat).

(** Big-endian words of a block of bytes. *)
Fixpoint words (block : list Z) : list Z :=
  match block with
  | b0 :: b1 :: b2 :: b3 :: rest =>
      (Z.shiftl b0 24 + Z.shiftl b1 16 + Z.shiftl b2 8 + b3) :: words rest
  | _ => []
  end.

(** The next word of the message schedule, from the words so far. *)
Definition next_word (w : list Z) : Z :=
  let t := length w in
  let at_ (k : nat) := nth (t - k) w 0 in
  add (add (sigma1 (at_ 2%nat)) (at_ 7%nat))
      (add (sigma0 (at_ 15%nat)) (at_ 16%nat)).

Fixpoint schedule (n : nat) (w : list Z) : list Z :=
  match n with
  | O => w
  | S n' => schedule n' (w ++ [next_word w])
  end.

Definition round (r : registers) (kw : Z * Z) : registers :=
  let t1 := add (add (add (rh r) (Sigma1 (re r)))
                     (add (Ch (re r) (rf r) (rg r)) kw.1)) kw.2 in
  let t2 := add (Sigma0 (ra r)) (Maj (ra r) (rb r) (rc r)) in
  Regs (add t1 t2) (ra r) (rb r) (rc r) (add (rd r) t1) (re r) (rf r) (rg r).

Definition compress (hv : registers) (block : list Z) : registers :=
  let w := schedule 48 (words block) in
  let r := fold_left round (combine K w) hv in
  Regs (add (ra hv) (ra r)) (add (rb hv) (rb r)) (add (rc hv) (rc r))
       (add (rd hv) (rd r)) (add (re hv) (re r)) (add (rf hv) (rf r))
       (add (rg hv) (rg r)) (add (rh hv) (rh r)).

(** A hash object: chaining value, bytes of the unfinished block, number
    of bytes fed so far. *)
Record hasher : Type := {
  chain : registers;
  pending : list Z;
  fed : Z
}.

Definition new : hasher := {| chain := H0; pending := []; fed := 0 |}.

Definition feed (s : hasher) (b : Z) : hasher :=
  let buf := pending s ++ [b] in
  if bool_decide (length buf = 64%nat)
  then {| chain := compress (chain s) buf; pending := []; fed := fed s + 1 |}
  else {| chain := chain s; pending := buf; fed := fed s + 1 |}.

Definition byte_to_Z (b : byte) : Z := Z.of_N (Byte.to_N b).
Definition byte_of_Z (z : Z) : byte :=
  default x00 (Byte.of_N (Z.to_N (z mod 256))).

(** [hasher.update(data)] *)
Definition update (s : hasher) (data : list byte) : hasher :=
  fold_left feed (byte_to_Z <$> data) s.

(** Big-endian bytes of the low [8 * n] bits of [x]. *)
Fixpoint be_bytes (n : nat) (x : Z) : list byte :=
  match n with
  | O => []
  | S n' => byte_of_Z (Z.shiftr x (8 * Z.of_nat n')) :: be_bytes n' x
  end.

(** The padding: a one bit, zeros up to 56 modulo 64 bytes, the length in
    bits on 64 bits. *)
Definition padding (n : Z) : list Z :=
  0x80 :: repeat 0 (Z.to_nat ((55 - n) mod 64))
  ++ (byte_to_Z <$> be_bytes 8 (8 * n)).

Definition final (s : hasher) : registers :=
  chain (fold_left feed (padding (fed s)) s).

(** [hasher.digest()] *)
Definition digest (s : hasher) : list byte :=
  let r := final s in
  be_bytes 4 (ra r) ++ be_bytes 4 (rb r) ++ be_bytes 4 (rc r)
  ++ be_bytes 4 (rd r) ++ be_bytes 4 (re r) ++ be_bytes 4 (rf r)
  ++ be_bytes 4 (rg r) ++ be_bytes 4 (rh r).

Definition hex_digit (n : N) : ascii :=
  nth (N.to_nat n) (str "0123456789abcdef") "0"%char.

Definition hex_byte (b : byte) : pystr :=
  let n := Byte.to_N b in [hex_digit (n / 16)%N; hex_digit (n mod 16)%N].

(** [hasher.hexdigest()] *)
Definition hexdigest (s : hasher) : pystr :=
  mbind hex_byte (digest s).

(** [bytes.fromhex]: the bytes a hexadecimal string stands for. *)
Definition unhex_digit (c : ascii) : option N :=
  let n := N_of_ascii c in
  if ((48 <=? n) && (n <=? 57))%N then Some (n - 48)%N
  else if ((97 <=? n) && (n <=? 102))%N then Some (n - 87)%N
  else None.

Fixpoint fromhex (s : pystr) : option (list byte) :=
  match s with
  | [] => Some []
  | hi :: lo :: s' =>
      h ← unhex_digit hi; l ← unhex_digit lo;
      b ← Byte.of_N (16 * h + l)%N;
      rest ← fromhex s'; Some (b :: rest)
  | _ => None
  end.

End SHA256.

(** ** The operating system as seen by [backup]

    [backup] talks to the system through [shutil.copy], [os.makedirs] and
    [print]. A run is the list of the calls made, in order; the system
    answers each call, given the calls before it, by success or by an
    exception. *)

Inductive call : Type :=
  | Copy (src dst : Py.pystr)
  | Makedirs (name : Py.pystr)
  | Print (text : Py.pystr).

Definition system : Type := list call -> call -> option exn.

Definition io (A : Type) : Type := list call -> list call * result A.

Definition perform (os : system) (c : call) : io unit := fun trace =>
  (trace ++ [c], match os trace c with Some err => Raise err | None => Ok tt end).

(** [print] does not fail. *)
Definition print (text : Py.pystr) : io unit := fun trace =>
  (trace ++ [Print text], Ok tt).

(** [try: body / except cls: handler] *)
Definition try_except {A : Type} (body : io A) (cls : exn) (handler : io A)
  : io A := fun trace =>
  match body trace with
  | (trace', Raise err) =>
      if bool_decide (err = cls) then handler trace' else (trace', Raise err)
  | done => done
  end.

(** [try: body / finally: final]: [final] always runs; its exception, if
    any, replaces the outcome of [body]. *)
Definition try_finally {A : Type} (body : io A) (final : io unit) : io A :=
  fun trace =>
  let (trace', outcome) := body trace in
  match final trace' with
  | (trace'', Ok _) => (trace'', outcome)
  | (trace'', Raise err) => (trace'', Raise err)
  end.

(** [datetime.now()], to the minute. *)
Record datetime : Type := {
  year : nat; month : nat; day : nat; hour : nat; minute : nat
}.

(** ** DevTools/file_manipulation.py *)

Module FileManipulation.
Import Py.

(** A ConfigDocument: section -> option -> value, in insertion order. *)
Abbreviation document := (odict pystr (odict pystr pystr)).

(** *** create_cfg *)

(** The text written through the file object: [write] appends. *)
Definition write_options (buffer : pystr) (options : odict pystr pystr)
  : pystr :=
  fold_left
    (fun buffer ov => buffer ++ ov.1 ++ str "=" ++ ov.2 ++ [LF])
    options buffer.

Definition write_sections (buffer : pystr) (cfg_dict : document) : pystr :=
  fold_left
    (fun buffer so =>
       write_options (buffer ++ [LF] ++ str "[" ++ so.1 ++ str "]" ++ [LF])
                     so.2)
    cfg_dict buffer.

(** [open(file, 'w')] truncates; the file then holds what was written.
    The path is taken to be writable, and the text is kept as Python reads
    it back before universal-newline decoding (where [write] turns a line
    feed into CR LF, reading turns it back). *)
Definition create_cfg (fs : gmap pystr pystr) (file : pystr)
    (cfg_dict : document) : gmap pystr pystr :=
  <[file := write_sections [] cfg_dict]> fs.

(** *** read_cfg *)

Definition read_cfg (fs : gmap pystr pystr) (file : pystr) : result document :=
  config ← ConfigParser.read fs file;
  let sections := ConfigParser.sections config in
  for_each
    (fun (sections_dict : document) section =>
       options ← ConfigParser.options config section;
       options_dict ←
         for_each
           (fun (options_dict : odict pystr pystr) option =>
              value ← ConfigParser.get config section option;
              mret (Dict.set options_dict option value))
           [] options;
       mret (Dict.set sections_dict section options_dict))
    [] sections.

(** *** backup *)

(** [str(n).zfill(width)] *)
Definition zfill (width n : nat) : pystr :=
  let digits := str (DecimalString.NilZero.string_of_uint (Nat.to_uint n)) in
  repeat "0"%char (width - length digits) ++ digits.

(** [now.strftime("%Y-%m-%d %Hh%M")] (a four-digit year, as the clock
    gives). *)
Definition strftime (now : datetime) : pystr :=
  zfill 4 (year now) ++ str "-" ++ zfill 2 (month now) ++ str "-"
  ++ zfill 2 (day now) ++ str " " ++ zfill 2 (hour now) ++ str "h"
  ++ zfill 2 (minute now).

(** [file[file.rindex('.'):]], or the empty string on ValueError *)
Definition extension (file : pystr) : pystr :=
  match rindex file "."%char with
  | Some i => drop i file
  | None => []
  end.

(** The name of the copy. *)
Definition resolve_name (now : datetime) (file backup_name : pystr) : pystr :=
  if bool_decide (backup_name = []) then strftime now ++ extension file
  else backup_name.

(** The test of the separator normalisation,
    [len(output_path) > 0 and (output_path[-1] != '\'
                               or output_path[-1] != '/')]. *)
Definition separator_condition (output_path : pystr) : bool :=
  bool_decide (0 < length output_path)
  && match last output_path with
     | Some c =>
         negb (bool_decide (c = "\"%char)) || negb (bool_decide (c = "/"%char))
     | None => false            (* not reached: the length is 0 *)
     end.

Definition normalize (output_path : pystr) : pystr :=
  if separator_condition output_path then output_path ++ str "/"
  else output_path.

(** The message printed when the directory may not be created. *)
Definition message : pystr :=
  let a_tilde := ascii_of_nat 227 in
  let c_cedilla := ascii_of_nat 231 in
  let o_acute := ascii_of_nat 243 in
  str "Caminho informado n" ++ [a_tilde] ++ str "o existe. Cria"
  ++ [c_cedilla; a_tilde] ++ str "o de diret" ++ [o_acute]
  ++ str "rio n" ++ [a_tilde] ++ str "o foi autorizado." ++ [LF]
  ++ str "Ajuste a permiss" ++ [a_tilde]
  ++ str "o do algoritmo ou crie manualmente a pasta de destino.".

Definition backup (os : system) (now : datetime)
    (file output_path backup_name : pystr) : list call * result unit :=
  let backup_name := resolve_name now file backup_name in
  let output_path := normalize output_path in
  try_finally
    (try_except
       (perform os (Copy file (output_path ++ backup_name)))
       FileNotFoundError
       (try_except
          (perform os (Makedirs output_path))
          PermissionError
          (print message)))
    (perform os (Copy file (output_path ++ backup_name)))
    [].

(** *** check_hash *)

(** What [check_hash] returns: a string or a boolean. *)
Inductive value : Type :=
  | Str (s : pystr)
  | Bool (b : bool).

(** The loop over [files] when there are several. [hash] is [None] while
    the local variable is unbound (reading it raises UnboundLocalError,
    which the loop catches); [opened] lists the files opened so far. *)
Fixpoint compare (fs : gmap pystr (list byte)) (hash : option (list byte))
    (opened files : list pystr) : list pystr * result bool :=
  match files with
  | [] => (opened, Ok true)
  | file :: files' =>
      match fs !! file with
      | None => (opened, Raise FileNotFoundError)
      | Some content =>
          let opened := opened ++ [file] in
          let hasher := SHA256.update SHA256.new content in
          match hash with
          | Some seen =>
              if bool_decide (seen = SHA256.digest hasher)
              then compare fs hash opened files'
              else (opened, Ok false)
          | None => compare fs (Some (SHA256.digest hasher)) opened files'
          end
      end
  end.

(** Returns the files opened and the outcome. *)
Definition check_hash (fs : gmap pystr (list byte)) (files : list pystr)
  : list pystr * result value :=
  if bool_decide (1 < length files) then
    let (opened, outcome) := compare fs None [] files in
    (opened, Bool <$> outcome)
  else
    match files !! 0%nat with
    | None => ([], Raise IndexError)
    | Some file =>
        match fs !! file with
        | None => ([], Raise FileNotFoundError)
        | Some content =>
            let hasher := SHA256.update SHA256.new content in
            ([file], Ok (Str (SHA256.hexdigest hasher)))
        end
    end.

End FileManipulation.

Import Py FileManipulation.

(** ** Vocabulary of the statements *)

(** [SHA256(content)], as [check_hash] computes it for a file. *)
Definition sha256 (content : list byte) : list byte :=
  SHA256.digest (SHA256.update SHA256.new content).

Definition ascii_bytes (s : string) : list byte := list_byte_of_string s.

(** The digest of the file at a path, if there is one. *)
Definition digest_at (fs : gmap pystr (list byte)) (file : pystr)
  : option (list byte) :=
  sha256 <$> fs !! file.

(** A digit of lower-case hexadecimal. *)
Definition is_lower_hex (c : ascii) : bool :=
  bool_decide (c ∈ str "0123456789abcdef").

(** A text file given by its lines, each ended by a line feed. *)
Definition text (lines : list string) : pystr :=
  mbind (fun l => str l ++ [LF]) lines.

(** A system on which every call succeeds. *)
Definition os_fine : system := fun _ _ => None.

(** A system on which the destination directory is missing and may not be
    created: every copy raises FileNotFoundError, [os.makedirs] raises
    PermissionError. *)
Definition os_locked : system := fun _ c =>
  match c with
  | Copy _ _ => Some FileNotFoundError
  | Makedirs _ => Some PermissionError
  | Print _ => None
  end.

Definition a_clock : datetime :=
  {| year := 2024; month := 3; day := 7; hour := 9; minute := 5 |}.

(** *** Documents *)

(** The value of an option of a section of a document. *)
Definition value_of (doc : document) (section name : pystr) : option pystr :=
  Dict.get doc section ≫= fun options => Dict.get options name.

(** Equality of two documents as Python dictionaries: the same sections,
    the same options in each, the same value for each. *)
Definition same_document (doc1 doc2 : document) : Prop :=
  (forall section, section ∈ Dict.keys doc1 <-> section ∈ Dict.keys doc2)
  /\ (forall section options1 options2,
        Dict.get doc1 section = Some options1 ->
        Dict.get doc2 section = Some options2 ->
        forall name, name ∈ Dict.keys options1 <-> name ∈ Dict.keys options2)
  /\ (forall section name, value_of doc1 section name = value_of doc2 section name).

(** A document is a mapping of mappings: no section and no option of a
    section occurs twice. *)
Definition is_mapping (doc : document) : Prop :=
  NoDup (Dict.keys doc)
  /\ Forall (fun so => NoDup (Dict.keys so.2)) doc.

Definition is_newline (c : ascii) : bool :=
  bool_decide (c = LF) || bool_decide (c = CR).

(** No line feed and no carriage return. *)
Definition one_line (s : pystr) : bool :=
  forallb (fun c => negb (is_newline c)) s.

(** No white space at either end. *)
Definition trimmed (s : pystr) : bool :=
  bool_decide (lstrip s = s) && bool_decide (rstrip s = s).

(** The values of the round-trip property: no [=] and no newline. *)
Definition plain_value (v : pystr) : bool :=
  negb (contains v "="%char) && one_line v.

Definition plain_values (doc : document) : bool :=
  forallb (fun so => forallb (fun ov => plain_value ov.2) so.2) doc.

(** Section names, option names and values that the parser gives back as
    they were written. *)
Definition section_ok (s : pystr) : bool :=
  truthy s && one_line s && negb (bool_decide (s = ConfigParser.DEFAULTSECT)).

Definition option_ok (o : pystr) : bool :=
  truthy o && one_line o && trimmed o
  && forallb (fun c => negb (ConfigParser.is_delimiter c)) o
  && negb (startswith o (str "#")) && negb (startswith o (str ";"))
  && negb (startswith o (str "[")).

Definition value_ok (v : pystr) : bool :=
  one_line v && trimmed v && negb (contains v "%"%char).

Definition options_ok (options : odict pystr pystr) : bool :=
  bool_decide (NoDup (lower <$> Dict.keys options))
  && forallb (fun ov => option_ok ov.1 && value_ok ov.2) options.

Definition readable (doc : document) : bool :=
  bool_decide (NoDup (Dict.keys doc))
  && forallb (fun so => section_ok so.1 && options_ok so.2) doc.

(** Every option name is in lower case. *)
Definition lower_case_options (doc : document) : bool :=
  forallb (fun so => forallb (fun ov => bool_decide (lower ov.1 = ov.1)) so.2) doc.

(** The document with its option names in lower case. *)
Definition lowered_options (options : odict pystr pystr) : odict pystr pystr :=
  (fun ov => (lower ov.1, ov.2)) <$> options.

Definition lowered (doc : document) : document :=
  (fun so => (so.1, lowered_options so.2)) <$> doc.

(** The lines [create_cfg] writes, without their line feeds. *)
Definition option_line (ov : pystr * pystr) : pystr :=
  ov.1 ++ str "=" ++ ov.2.

Definition header_line (section : pystr) : pystr :=
  str "[" ++ section ++ str "]".

Definition section_lines (so : pystr * odict pystr pystr) : list pystr :=
  [] :: header_line so.1 :: (option_line <$> so.2).

Definition ended (line : pystr) : pystr := line ++ [LF].

(** *** The state of the parser while it reads what create_cfg wrote *)

(** The lines of a value: the value, then the blank lines met since. *)
Definition raw_value (v : pystr) (raw : list pystr) : Prop :=
  exists n, raw = v :: replicate n [].

Definition raw_options (options : odict pystr pystr)
    (raw : odict pystr (list pystr)) : Prop :=
  Forall2 (fun ov r => r.1 = lower ov.1 /\ raw_value ov.2 r.2) options raw.

Definition raw_sections (doc : document)
    (raw : odict pystr (odict pystr (list pystr))) : Prop :=
  Forall2 (fun so r => r.1 = so.1 /\ raw_options so.2 r.2) doc raw.

(** [reading doc st]: the parser is in state [st] after the lines of [doc],
    whose last section is the one being read. *)
Record reading (doc : document) (st : ConfigParser.reader) : Prop := {
  reading_nodup : NoDup (Dict.keys doc);
  reading_sections : raw_sections doc (ConfigParser.sections_raw st);
  reading_defaults : ConfigParser.defaults_raw st = [];
  reading_errors : ConfigParser.e st = [];
  reading_added :
    forall x o, inr (x, o) ∈ ConfigParser.elements_added st ->
    exists s opts, x = Some s /\ (s, opts) ∈ doc /\ o ∈ lower <$> Dict.keys opts;
  reading_cursor :
    match last doc with
    | None => ConfigParser.cursect st = None
    | Some so =>
        ConfigParser.cursect st = Some (ConfigParser.TheSection so.1)
        /\ ConfigParser.sectname st = Some so.1
        /\ forall opt, ConfigParser.optname st = Some opt ->
                       opt ∈ lower <$> Dict.keys so.2
    end
}.

(** *** Lower-case option names *)

Definition lower_case (s : pystr) : Prop := lower s = s.

Definition keys_lower_case {V : Type} (d : odict pystr V) : Prop :=
  Forall lower_case (Dict.keys d).

Definition reader_lower_case (st : ConfigParser.reader) : Prop :=
  keys_lower_case (ConfigParser.defaults_raw st)
  /\ Forall (fun so => keys_lower_case so.2) (ConfigParser.sections_raw st).

Definition parser_lower_case (config : ConfigParser.parser) : Prop :=
  keys_lower_case (ConfigParser._defaults config)
  /\ Forall (fun so => keys_lower_case so.2) (ConfigParser._sections config).

(** *** Sample documents *)

Definition site_document : document :=
  [(str "server", [(str "host", str "localhost"); (str "port", str "8080")]);
   (str "paths", [(str "root", str "/var/www")])].

(** A value with a space in front. *)
Definition padded_document : document :=
  [(str "server", [(str "host", str " localhost")])].

(** An option name with a capital. *)
Definition capital_document : document :=
  [(str "server", [(str "Host", str "localhost")])].

(** *** Sample files *)

(** Three files: the first two hold the same bytes, the third differs in
    its last byte. *)
Definition disk : gmap pystr (list byte) :=
  {[ str "a.bin" := ascii_bytes "abc";
     str "b.bin" := ascii_bytes "abc";
     str "c.bin" := ascii_bytes "abd" ]}.

(** *** Systems and clocks for [backup] *)

(** A system on which the destination directory is missing at first and
    can be created: the first copy raises FileNotFoundError, every later
    call succeeds. *)
Definition os_new_directory : system := fun trace c =>
  match c, trace with
  | Copy _ _, [] => Some FileNotFoundError
  | _, _ => None
  end.

(** A system on which the source may not be read: every copy raises
    PermissionError. *)
Definition os_unreadable : system := fun _ c =>
  match c with
  | Copy _ _ => Some PermissionError
  | _ => None
  end.

(** A system on which the directory is missing and [os.makedirs] fails for
    another reason than permission. *)
Definition os_broken : system := fun _ c =>
  match c with
  | Copy _ _ => Some FileNotFoundError
  | Makedirs _ => Some OSError
  | Print _ => None
  end.

(** A date and time a clock can give, with a year of four digits. *)
Definition valid_clock (now : datetime) : Prop :=
  1000 <= year now < 100 * 100 /\ 1 <= month now <= 12 /\ 1 <= day now <= 31
  /\ hour now <= 23 /\ minute now <= 59.

Definition is_digit (c : ascii) : bool :=
  let n := N_of_ascii c in ((48 <=? n) && (n <=? 57))%N.

(** The shape [YYYY-MM-DD HHhMM]. *)
Definition timestamp_shape (s : pystr) : bool :=
  match s with
  | [y1; y2; y3; y4; s1; m1; m2; s2; d1; d2; s3; h1; h2; s4; n1; n2] =>
      forallb is_digit [y1; y2; y3; y4; m1; m2; d1; d2; h1; h2; n1; n2]
      && bool_decide ([s1; s2; s3; s4] = str "-- h")
  | _ => false
  end.

(** *** Lines the parser passes over, and the names it gives to sections *)

(** A blank line or a full-line comment. *)
Definition skipped (line : pystr) : bool :=
  negb (truthy (strip line)) || ConfigParser.is_comment line.

(** A name a section of a returned document can have. *)
Definition section_name_read (name : pystr) : Prop :=
  name ≠ [] /\ name ≠ ConfigParser.DEFAULTSECT.

(** *** What is read back in general *)

(** A value in which each [%] is written twice, and the reading of such a
    value. *)
Definition escape (s : pystr) : pystr :=
  mbind (fun c => if bool_decide (c = "%"%char) then str "%%" else [c]) s.

Fixpoint unescape (s : pystr) : pystr :=
  match s with
  | [] => []
  | c :: s' =>
      if bool_decide (c = "%"%char) then
        match s' with
        | c' :: s'' =>
            if bool_decide (c' = "%"%char) then "%"%char :: unescape s''
            else c :: unescape s'
        | [] => [c]
        end
      else c :: unescape s'
  end.

(** Every [%] of the string belongs to a pair [%%]. *)
Fixpoint escaped (s : pystr) : bool :=
  match s with
  | [] => true
  | c :: s' =>
      if bool_decide (c = "%"%char) then
        match s' with
        | c' :: s'' => bool_decide (c' = "%"%char) && escaped s''
        | [] => false
        end
      else escaped s'
  end.

(** An option name that makes its line a comment. *)
Definition comment_name (o : pystr) : bool :=
  startswith o (str "#") || startswith o (str ";").

(** The options the parser stores for the options written, and the options
    [read_cfg] returns for them. *)
Definition stored_options (options : odict pystr pystr) : odict pystr pystr :=
  (fun ov => (ov.1, strip ov.2))
    <$> filter (fun ov => comment_name ov.1 = false) options.

Definition stored (doc : document) : document :=
  (fun so => (so.1, stored_options so.2)) <$> doc.

Definition options_read (options : odict pystr pystr) : odict pystr pystr :=
  (fun ov => (lower ov.1, unescape ov.2)) <$> stored_options options.

Definition document_read (doc : document) : document :=
  (fun so => (so.1, options_read so.2)) <$> doc.

(** The documents for which the round trip is worked out: as [readable],
    but an option name may start with [#] or [;], and a value may have
    white space at its ends and pairs [%%]. *)
Definition option_writable (ov : pystr * pystr) : bool :=
  one_line ov.1 && one_line ov.2
  && (comment_name ov.1 || option_ok ov.1 && escaped (strip ov.2)).

Definition options_writable (options : odict pystr pystr) : bool :=
  bool_decide (NoDup (lower <$> Dict.keys (stored_options options)))
  && forallb option_writable options.

Definition writable (doc : document) : bool :=
  bool_decide (NoDup (Dict.keys doc))
  && forallb (fun so => section_ok so.1 && options_writable so.2) doc.

(** The document with each [%] of its values written twice. *)
Definition escape_options (options : odict pystr pystr) : odict pystr pystr :=
  (fun ov => (ov.1, escape ov.2)) <$> options.

Definition escape_values (doc : document) : document :=
  (fun so => (so.1, escape_options so.2)) <$> doc.

(** Sample documents: a value with white space around it and a doubled
    [%], an option whose name starts with [#]. *)
Definition loose_document : document :=
  [(str "job", [(str "Progress", str "  50%% done "); (str "#note", str "x")])].

Definition percent_document : document :=
  [(str "job", [(str "progress", str "50% done"); (str "rate", str "100%")])].

(** Every name and every value of the document is on one line. *)
Definition one_line_document (doc : document) : bool :=
  forallb (fun so => one_line so.1
                     && forallb (fun ov => one_line ov.1 && one_line ov.2) so.2)
          doc.

(** The documents whose file the parser reads without error: as
    [writable], whatever the [%] of the values. *)
Definition option_parsable (ov : pystr * pystr) : bool :=
  one_line ov.1 && one_line ov.2 && (comment_name ov.1 || option_ok ov.1).

Definition options_parsable (options : odict pystr pystr) : bool :=
  bool_decide (NoDup (lower <$> Dict.keys (stored_options options)))
  && forallb option_parsable options.

Definition parsable (doc : document) : bool :=
  bool_decide (NoDup (Dict.keys doc))
  && forallb (fun so => section_ok so.1 && options_parsable so.2) doc.

(** The first [%] of the string that is not the first half of a pair [%%]
    is followed neither by [%] nor by an opening parenthesis. *)
Fixpoint stray_percent (s : pystr) : bool :=
  match s with
  | [] => false
  | c :: s' =>
      if bool_decide (c = "%"%char) then
        match s' with
        | c' :: s'' =>
            if bool_decide (c' = "%"%char) then stray_percent s''
            else negb (bool_decide (c' = "("%char))
        | [] => true
        end
      else stray_percent s'
  end.

(** A function applied to the values of a dictionary in order, up to the
    first error. *)
Fixpoint traverse {K A B : Type} (f : A -> result B) (d : odict K A)
  : result (odict K B) :=
  match d with
  | [] => Ok []
  | (k, a) :: d' => b ← f a; d'' ← traverse f d'; mret ((k, b) :: d'')
  end.

(** The reference to the option [name] of the same section, as
    BasicInterpolation reads it. *)
Definition reference (name : pystr) : pystr := str "%(" ++ name ++ str ")s".

(** A value that refers to another option of its section. *)
Definition reference_document : document :=
  [(str "paths", [(str "Root", str "/var/www");
                  (str "logs", str "%(ROOT)s/logs 100%%")])].

(** Two option names of one section that differ by a capital only. *)
Definition clash_document : document :=
  [(str "server", [(str "Host", str "localhost"); (str "host", str "127.0.0.1");
                   (str "port", str "8080")]);
   (str "paths", [(str "root", str "/var/www")])].

(** * Properties *)

(** ** backup *)

Lemma separator_condition_nonempty (output_path : pystr) :
  output_path ≠ [] -> separator_condition output_path = true.
Proof.
  intros Hne. unfold separator_condition.
  destruct (last output_path) as [c|] eqn:Hlast.
  - rewrite bool_decide_eq_true_2 by (destruct output_path; simpl; [done | lia]).
    simpl. destruct (decide (c = "\"%char)) as [->|Hc].
    + reflexivity.
    + rewrite (bool_decide_eq_false_2 _ Hc). reflexivity.
  - apply last_None in Hlast. contradiction.
Qed.

Lemma try_finally_perform_trace {A : Type} (body : io A) os c trace :
  (try_finally body (perform os c) trace).1 = (body trace).1 ++ [c].
Proof.
  unfold try_finally, perform. destruct (body trace) as [trace' outcome].
  simpl. destruct (os trace' c); reflexivity.
Qed.

Section backup_facts.
Context (os : system) (now : datetime) (file output_path backup_name : pystr).

Let dst : pystr := normalize output_path ++ resolve_name now file backup_name.

(** The run of [backup], by the answers of the system. *)
Lemma backup_first_copy_ok :
  os [] (Copy file dst) = None ->
  backup os now file output_path backup_name
  = ([Copy file dst; Copy file dst],
     match os [Copy file dst] (Copy file dst) with
     | Some err => Raise err
     | None => Ok tt
     end).
Proof.
  intros H1. unfold backup, try_finally, try_except, perform. fold dst.
  simpl. rewrite H1. simpl.
  destruct (os [Copy file dst] (Copy file dst)); reflexivity.
Qed.

Lemma backup_makedirs_refused :
  os [] (Copy file dst) = Some FileNotFoundError ->
  os [Copy file dst] (Makedirs (normalize output_path)) = Some PermissionError ->
  let calls := [Copy file dst; Makedirs (normalize output_path); Print message] in
  backup os now file output_path backup_name
  = (calls ++ [Copy file dst],
     match os calls (Copy file dst) with
     | Some err => Raise err
     | None => Ok tt
     end).
Proof.
  intros H1 H2. unfold backup, try_finally, try_except, perform, print.
  fold dst. simpl. rewrite H1. simpl. rewrite H2. simpl.
  destruct (os [_; _; _] (Copy file dst)); reflexivity.
Qed.

(** The part of [backup] inside [try] ... [except]. *)
Let attempt : io unit :=
  try_except
    (perform os (Copy file dst))
    FileNotFoundError
    (try_except
       (perform os (Makedirs (normalize output_path)))
       PermissionError
       (print message)).

Lemma backup_ends_with_copy :
  (backup os now file output_path backup_name).1
  = (attempt []).1 ++ [Copy file dst].
Proof.
  unfold backup. fold dst. fold attempt.
  apply try_finally_perform_trace.
Qed.

Lemma attempt_starts_with_copy :
  exists later, (attempt []).1 = Copy file dst :: later.
Proof.
  unfold attempt, try_except, perform, print. simpl.
  destruct (os [] (Copy file dst)) as [err|]; [|by eexists].
  destruct (bool_decide (err = FileNotFoundError)); [|by eexists].
  destruct (os [Copy file dst] (Makedirs (normalize output_path)))
    as [err'|]; [|by eexists].
  destruct (bool_decide (err' = PermissionError)); by eexists.
Qed.

Lemma backup_starts_with_copy :
  exists later, (backup os now file output_path backup_name).1
                = Copy file dst :: later.
Proof.
  rewrite backup_ends_with_copy.
  destruct attempt_starts_with_copy as [later ->]. by eexists.
Qed.
End backup_facts.

(** C2: for a non-empty [output_path] the separator test of [backup] is true
    whatever the last character is, so [/] is appended before the copy, also
    after a trailing [/] or [\], which doubles the separator. *)
Theorem backup_separator_always_appended
    (os : system) (now : datetime) (file output_path backup_name : pystr) :
  output_path ≠ [] ->
  separator_condition output_path = true
  /\ normalize output_path = output_path ++ str "/"
  /\ (exists later,
        (backup os now file output_path backup_name).1
        = Copy file (output_path ++ str "/" ++ resolve_name now file backup_name)
          :: later)
  /\ (forall p, output_path = p ++ str "/" ->
        normalize output_path = p ++ str "//")
  /\ (forall p, output_path = p ++ str "\" ->
        normalize output_path = p ++ str "\/").
Proof.
  intros Hne.
  pose proof (separator_condition_nonempty output_path Hne) as Hcond.
  assert (Hnorm : normalize output_path = output_path ++ str "/")
    by (unfold normalize; rewrite Hcond; reflexivity).
  split; [exact Hcond|]. split; [exact Hnorm|]. split.
  - destruct (backup_starts_with_copy os now file output_path backup_name)
      as [later Hl].
    exists later. rewrite Hl, Hnorm, <- app_assoc. reflexivity.
  - split; intros p ->; rewrite Hnorm, <- app_assoc; reflexivity.
Qed.

Lemma backup_separator_always_appended_witness :
  separator_condition (str "backups/") = true
  /\ normalize (str "backups/") = str "backups//".
Proof.
  destruct (backup_separator_always_appended os_fine a_clock
              (str "report.csv") (str "backups/") (str "copy.csv"))
    as (Hc & Hn & _); [discriminate|].
  split; [exact Hc | exact Hn].
Defined.

(** C3, as the code behaves: when the first copy raises FileNotFoundError
    and [os.makedirs] raises PermissionError, [backup] prints the message
    and then, in its [finally] clause, calls [shutil.copy] once more; the
    outcome of the call is the outcome of that last copy. *)
Theorem backup_copies_again_after_refusal
    (os : system) (now : datetime) (file output_path backup_name : pystr) :
  os [] (Copy file (normalize output_path ++ resolve_name now file backup_name))
  = Some FileNotFoundError ->
  os [Copy file (normalize output_path ++ resolve_name now file backup_name)]
     (Makedirs (normalize output_path))
  = Some PermissionError ->
  backup os now file output_path backup_name
  = ([Copy file (normalize output_path ++ resolve_name now file backup_name);
      Makedirs (normalize output_path);
      Print message;
      Copy file (normalize output_path ++ resolve_name now file backup_name)],
     match
       os [Copy file (normalize output_path ++ resolve_name now file backup_name);
           Makedirs (normalize output_path);
           Print message]
          (Copy file (normalize output_path ++ resolve_name now file backup_name))
     with
     | Some err => Raise err
     | None => Ok tt
     end).
Proof.
  intros H1 H2.
  exact (backup_makedirs_refused os now file output_path backup_name H1 H2).
Qed.

Lemma backup_copies_again_after_refusal_witness :
  backup os_locked a_clock (str "report.csv") (str "backups") (str "copy.csv")
  = ([Copy (str "report.csv") (str "backups/copy.csv");
      Makedirs (str "backups/");
      Print message;
      Copy (str "report.csv") (str "backups/copy.csv")],
     Raise FileNotFoundError).
Proof.
  exact (backup_copies_again_after_refusal os_locked a_clock
           (str "report.csv") (str "backups") (str "copy.csv")
           eq_refl eq_refl).
Defined.

(** C4: whatever happened before, the last call of [backup] is the copy of
    its [finally] clause; when the first copy succeeds, the calls are that
    copy twice. *)
Theorem backup_final_copy_always
    (os : system) (now : datetime) (file output_path backup_name : pystr) :
  (exists before,
     (backup os now file output_path backup_name).1
     = before
       ++ [Copy file (normalize output_path ++ resolve_name now file backup_name)])
  /\ (os [] (Copy file (normalize output_path
                        ++ resolve_name now file backup_name)) = None ->
      (backup os now file output_path backup_name).1
      = [Copy file (normalize output_path ++ resolve_name now file backup_name);
         Copy file (normalize output_path ++ resolve_name now file backup_name)]).
Proof.
  split.
  - eexists. apply backup_ends_with_copy.
  - intros H1. rewrite (backup_first_copy_ok _ _ _ _ _ H1). reflexivity.
Qed.

Lemma backup_final_copy_always_witness :
  (backup os_fine a_clock (str "report.csv") (str "backups") []).1
  = [Copy (str "report.csv") (str "backups/2024-03-07 09h05.csv");
     Copy (str "report.csv") (str "backups/2024-03-07 09h05.csv")].
Proof.
  exact (proj2 (backup_final_copy_always os_fine a_clock
                  (str "report.csv") (str "backups") []) eq_refl).
Defined.

(** ** check_hash *)

(** The model of SHA-256 on the test vectors of FIPS 180-4 and on messages
    whose padding fills one block or needs a second one. *)
Example round_constants :
  length SHA256.K = 64
  /\ head SHA256.K = Some 0x428a2f98%Z
  /\ last SHA256.K = Some 0xc67178f2%Z
  /\ SHA256.ra SHA256.H0 = 0x6a09e667%Z
  /\ SHA256.rh SHA256.H0 = 0x5be0cd19%Z.
Proof. repeat split. Qed.

Example sha256_empty :
  SHA256.hexdigest SHA256.new
  = str "e3b0c44298fc1c149afbf4c8996fb92427ae41e4649b934ca495991b7852b855".
Proof. vm_compute. reflexivity. Qed.

Example sha256_abc :
  SHA256.hexdigest (SHA256.update SHA256.new (ascii_bytes "abc"))
  = str "ba7816bf8f01cfea414140de5dae2223b00361a396177a9cb410ff61f20015ad".
Proof. vm_compute. reflexivity. Qed.

Example sha256_two_blocks :
  SHA256.hexdigest
    (SHA256.update SHA256.new
       (ascii_bytes "abcdbcdecdefdefgefghfghighijhijkijkljklmklmnlmnomnopnopq"))
  = str "248d6a61d20638b8e5c026930c3e6039a33ce45964ff2167f6ecedd419db06c1".
Proof. vm_compute. reflexivity. Qed.

Example sha256_55_bytes :
  SHA256.hexdigest (SHA256.update SHA256.new (repeat "a"%byte 55))
  = str "9f4390f8d30c2dd92ec9f095b65e2b9ae9b0a925a5258e241c9f1e910f734318".
Proof. vm_compute. reflexivity. Qed.

Example sha256_64_bytes :
  SHA256.hexdigest (SHA256.update SHA256.new (repeat "a"%byte 64))
  = str "ffe054fe7ae0cb6dc65c3af9b61d5209f439851db43d0ba5997337df154668eb".
Proof. vm_compute. reflexivity. Qed.

(** Feeding a hash object in two calls of [update] is feeding it once. *)
Lemma update_app (s : SHA256.hasher) (data1 data2 : list byte) :
  SHA256.update (SHA256.update s data1) data2 = SHA256.update s (data1 ++ data2).
Proof. unfold SHA256.update. by rewrite fmap_app, fold_left_app. Qed.

Example check_hash_same :
  check_hash disk [str "a.bin"; str "b.bin"]
  = ([str "a.bin"; str "b.bin"], Ok (Bool true)).
Proof. vm_compute. reflexivity. Qed.

Example check_hash_differ :
  check_hash disk [str "a.bin"; str "c.bin"; str "b.bin"]
  = ([str "a.bin"; str "c.bin"], Ok (Bool false)).
Proof. vm_compute. reflexivity. Qed.

Example check_hash_missing :
  check_hash disk [str "a.bin"; str "z.bin"]
  = ([str "a.bin"], Raise FileNotFoundError).
Proof. vm_compute. reflexivity. Qed.

Lemma be_bytes_length (n : nat) (x : Z) : length (SHA256.be_bytes n x) = n.
Proof. induction n as [|n IH]; simpl; [reflexivity | by rewrite IH]. Qed.

Lemma digest_length (s : SHA256.hasher) : length (SHA256.digest s) = 32.
Proof.
  unfold SHA256.digest. rewrite !length_app, !be_bytes_length. reflexivity.
Qed.

Lemma hex_byte_lower (b : byte) : Forall (fun c => is_lower_hex c = true) (SHA256.hex_byte b).
Proof. destruct b; repeat constructor. Qed.

Lemma fromhex_hex_byte (b : byte) (s : pystr) :
  SHA256.fromhex (SHA256.hex_byte b ++ s) = (b ::.) <$> SHA256.fromhex s.
Proof. destruct b; simpl; destruct (SHA256.fromhex s); reflexivity. Qed.

Lemma fromhex_hex (bs : list byte) :
  SHA256.fromhex (mbind SHA256.hex_byte bs) = Some bs.
Proof.
  induction bs as [|b bs IH]; [reflexivity|].
  change (mbind SHA256.hex_byte (b :: bs))
    with (SHA256.hex_byte b ++ mbind SHA256.hex_byte bs).
  rewrite fromhex_hex_byte, IH. reflexivity.
Qed.

Lemma hex_length (bs : list byte) :
  length (mbind SHA256.hex_byte bs) = 2 * length bs.
Proof.
  induction bs as [|b bs IH]; [reflexivity|].
  change (mbind SHA256.hex_byte (b :: bs))
    with (SHA256.hex_byte b ++ mbind SHA256.hex_byte bs).
  rewrite length_app, IH. simpl. lia.
Qed.

Lemma hex_lower (bs : list byte) :
  Forall (fun c => is_lower_hex c = true) (mbind SHA256.hex_byte bs).
Proof.
  induction bs as [|b bs IH]; [constructor|].
  change (mbind SHA256.hex_byte (b :: bs))
    with (SHA256.hex_byte b ++ mbind SHA256.hex_byte bs).
  apply Forall_app. split; [apply hex_byte_lower | exact IH].
Qed.

(** The loop of [check_hash] once [hash] is bound: it runs to the end when
    every digest equals [seen], and stops at the first file whose digest
    differs. *)
Lemma compare_seen (fs : gmap pystr (list byte)) (seen : list byte) :
  forall (files opened : list pystr),
  (forall file, file ∈ files -> is_Some (fs !! file)) ->
  (Forall (fun file => digest_at fs file = Some seen) files
   /\ compare fs (Some seen) opened files = (opened ++ files, Ok true))
  \/ (exists pre file post,
        files = pre ++ file :: post
        /\ Forall (fun file => digest_at fs file = Some seen) pre
        /\ digest_at fs file ≠ Some seen
        /\ compare fs (Some seen) opened files = (opened ++ pre ++ [file], Ok false)).
Proof.
  induction files as [|file files IH]; intros opened Hread.
  - left. split; [constructor|]. simpl. by rewrite app_nil_r.
  - destruct (Hread file) as [content Hc]; [by left|].
    simpl. rewrite Hc. fold (sha256 content).
    destruct (decide (seen = sha256 content)) as [Heq|Hne].
    + rewrite (bool_decide_eq_true_2 _ Heq).
      destruct (IH (opened ++ [file])) as [[Hall Hrun]|(pre & f & post & -> & Hpre & Hf & Hrun)].
      { intros f Hf. apply Hread. by right. }
      * left. split.
        -- constructor; [|exact Hall]. unfold digest_at. rewrite Hc. simpl. by rewrite Heq.
        -- rewrite Hrun, <- app_assoc. reflexivity.
      * right. exists (file :: pre), f, post. split; [reflexivity|]. split.
        -- constructor; [|exact Hpre]. unfold digest_at. rewrite Hc. simpl. by rewrite Heq.
        -- split; [exact Hf|]. rewrite Hrun, <- app_assoc. reflexivity.
    + rewrite (bool_decide_eq_false_2 _ Hne).
      right. exists [], file, files. split; [reflexivity|]. split; [constructor|].
      split; [|reflexivity].
      unfold digest_at. rewrite Hc. simpl. congruence.
Qed.

(** C5: with two or more readable files, [check_hash] returns a boolean;
    it is true exactly when the SHA-256 digest of every file equals that
    of the first file (all files were then read), and false otherwise, the
    loop having stopped at the first file whose digest differs. *)
Theorem check_hash_several
    (fs : gmap pystr (list byte)) (files : list pystr) (first : pystr) :
  1 < length files ->
  files !! 0 = Some first ->
  (forall file, file ∈ files -> is_Some (fs !! file)) ->
  exists opened b,
    check_hash fs files = (opened, Ok (Bool b))
    /\ (b = true <->
        forall file, file ∈ files -> digest_at fs file = digest_at fs first)
    /\ (b = true -> opened = files)
    /\ (b = false ->
        exists pre file post,
          files = pre ++ file :: post /\ opened = pre ++ [file]
          /\ digest_at fs file ≠ digest_at fs first
          /\ forall f, f ∈ pre -> digest_at fs f = digest_at fs first).
Proof.
  intros Hlen Hfirst Hread.
  destruct files as [|f0 rest]; [discriminate|].
  injection Hfirst as ->.
  destruct (Hread first) as [content0 Hc0]; [by left|].
  unfold check_hash. rewrite (bool_decide_eq_true_2 _ Hlen).
  simpl. rewrite Hc0. fold (sha256 content0).
  assert (Hd0 : digest_at fs first = Some (sha256 content0))
    by (unfold digest_at; rewrite Hc0; reflexivity).
  destruct (compare_seen fs (sha256 content0) rest [first])
    as [[Hall Hrun]|(pre & f & post & -> & Hpre & Hf & Hrun)].
  { intros f Hf. apply Hread. by right. }
  - rewrite Hrun. exists (first :: rest), true. simpl.
    split; [reflexivity|]. split; [|split; [done | discriminate]].
    split; [|done]. intros _ f Hf. rewrite Hd0.
    apply elem_of_cons in Hf as [->|Hf]; [done|].
    rewrite Forall_forall in Hall. by apply Hall.
  - rewrite Hrun. exists (first :: pre ++ [f]), false. simpl.
    split; [reflexivity|]. split; [|split; [discriminate|]].
    + split; [discriminate|]. intros Hall. exfalso. apply Hf.
      rewrite <- Hd0. apply Hall. right. apply elem_of_app. right. by left.
    + intros _. exists (first :: pre), f, post.
      split; [reflexivity|]. split; [reflexivity|]. split; [by rewrite Hd0|].
      intros g Hg. rewrite Hd0.
      apply elem_of_cons in Hg as [->|Hg]; [done|].
      rewrite Forall_forall in Hpre. by apply Hpre.
Qed.

Lemma check_hash_several_witness :
  exists opened b,
    check_hash disk [str "a.bin"; str "b.bin"; str "c.bin"] = (opened, Ok (Bool b))
    /\ b = false
    /\ opened = [str "a.bin"; str "b.bin"; str "c.bin"].
Proof.
  destruct (check_hash_several disk [str "a.bin"; str "b.bin"; str "c.bin"]
              (str "a.bin"))
    as (opened & b & Hrun & _).
  - simpl. lia.
  - reflexivity.
  - intros file Hin.
    repeat (apply elem_of_cons in Hin as [->|Hin]);
      [vm_compute; eauto .. | by apply elem_of_nil in Hin].
  - exists opened, b. split; [exact Hrun|].
    vm_compute in Hrun. injection Hrun as <- <-. by split.
Defined.

(** C6: with one readable file, [check_hash] returns a string of 64
    lower-case hexadecimal digits, the hexadecimal writing of the SHA-256
    digest of the content of the file. *)
Theorem check_hash_single
    (fs : gmap pystr (list byte)) (file : pystr) (content : list byte) :
  fs !! file = Some content ->
  exists hex,
    check_hash fs [file] = ([file], Ok (Str hex))
    /\ length hex = 64
    /\ Forall (fun c => is_lower_hex c = true) hex
    /\ SHA256.fromhex hex = Some (sha256 content).
Proof.
  intros Hc. unfold check_hash. simpl. rewrite Hc.
  eexists. split; [reflexivity|]. unfold SHA256.hexdigest.
  split; [|split].
  - rewrite hex_length, digest_length. reflexivity.
  - apply hex_lower.
  - apply fromhex_hex.
Qed.

Lemma check_hash_single_witness :
  exists hex,
    check_hash disk [str "a.bin"] = ([str "a.bin"], Ok (Str hex))
    /\ length hex = 64
    /\ Forall (fun c => is_lower_hex c = true) hex
    /\ SHA256.fromhex hex = Some (sha256 (ascii_bytes "abc")).
Proof.
  apply (check_hash_single disk (str "a.bin") (ascii_bytes "abc")).
  vm_compute. reflexivity.
Defined.

(** C9: without any path, [check_hash] raises IndexError at [files[0]] and
    has opened no file. *)
Theorem check_hash_no_file (fs : gmap pystr (list byte)) :
  check_hash fs [] = ([], Raise IndexError).
Proof. reflexivity. Qed.

(** ** read_cfg: missing files and interpolation *)

(** C7: when no file exists at the path, [read_cfg] returns the empty
    document. *)
Theorem read_cfg_missing_file (fs : gmap pystr pystr) (file : pystr) :
  fs !! file = None -> read_cfg fs file = Ok [].
Proof. intros H. unfold read_cfg, ConfigParser.read. rewrite H. reflexivity. Qed.

Lemma read_cfg_missing_file_witness :
  read_cfg {[ str "other.cfg" := text ["[s]"; "k=v"] ]} (str "app.cfg") = Ok [].
Proof. apply read_cfg_missing_file. reflexivity. Defined.

Lemma find_app_first (pre rest : pystr) (c : ascii) :
  c ∉ pre -> find (pre ++ c :: rest) c = Some (length pre).
Proof.
  unfold find. induction pre as [|x pre IH]; intros Hnot; simpl.
  - by rewrite bool_decide_eq_true_2.
  - rewrite bool_decide_eq_false_2 by (intros ->; apply Hnot; by left).
    rewrite IH; [reflexivity|]. intros Hin. apply Hnot. by right.
Qed.

(** A [%] followed by a character other than [%] and [(] makes
    [before_get] raise InterpolationSyntaxError. *)
Lemma before_get_stray_percent
    (pre rest : pystr) (c : ascii) (d : odict pystr pystr * odict pystr pystr) :
  "%"%char ∉ pre -> c ≠ "%"%char -> c ≠ "("%char ->
  ConfigParser.before_get (pre ++ "%"%char :: c :: rest) d
  = Raise InterpolationSyntaxError.
Proof.
  intros Hpre Hc1 Hc2. unfold ConfigParser.before_get.
  unfold ConfigParser.MAX_INTERPOLATION_DEPTH.
  cbn [ConfigParser._interpolate_some].
  rewrite length_app. simpl length. rewrite Nat.add_succ_r.
  cbn [ConfigParser.scan].
  assert (Ht : truthy (pre ++ "%"%char :: c :: rest) = true)
    by (destruct pre; reflexivity).
  rewrite Ht. simpl negb. cbv iota.
  rewrite (find_app_first pre (c :: rest) "%"%char Hpre).
  rewrite drop_app_length. cbn [drop take].
  rewrite bool_decide_eq_false_2 by (unfold str; simpl; congruence).
  rewrite bool_decide_eq_false_2 by (unfold str; simpl; congruence).
  reflexivity.
Qed.

Lemma KEYCRE_match_stop (rest name : pystr) (stop : nat) :
  ConfigParser.KEYCRE_match rest = Some (name, stop) -> 0 < stop.
Proof.
  unfold ConfigParser.KEYCRE_match.
  destruct (startswith _ _); [|done]. destruct (find _ _); [|done].
  destruct (_ && _); [|done]. intros [= _ <-]. lia.
Qed.

(** The counter of [scan] never runs out: any counter that is at least the
    length of [rest] gives the same outcome, so that [scan] is the
    [while rest] loop. *)
Lemma scan_counter recurse map (n : nat) :
  forall (m : nat) (accum : list pystr) (rest : pystr),
  length rest <= n -> length rest <= m ->
  ConfigParser.scan recurse map n accum rest
  = ConfigParser.scan recurse map m accum rest.
Proof.
  induction n as [|n IH]; intros m accum rest Hn Hm.
  - destruct rest; [|simpl in Hn; lia]. by destruct m.
  - destruct m as [|m]; [destruct rest; [done | simpl in Hm; lia]|].
    cbn [ConfigParser.scan]. destruct rest as [|c rest]; [done|].
    cbn [truthy negb]. destruct (find (c :: rest) "%"%char) as [p|]; [|done].
    set (rest' := drop p (c :: rest)).
    assert (Hlen : forall k, 0 < k ->
              length (drop k rest') <= n /\ length (drop k rest') <= m).
    { intros k Hk. unfold rest'. rewrite !length_drop. simpl length in *. lia. }
    destruct (bool_decide (take 1 (drop 1 rest') = str "%")).
    { apply IH; apply Hlen; lia. }
    destruct (bool_decide (take 1 (drop 1 rest') = str "(")); [|done].
    destruct (ConfigParser.KEYCRE_match rest') as [[name stop]|] eqn:Hkey;
      [|done].
    apply KEYCRE_match_stop in Hkey.
    destruct (ConfigParser.chain_get map _) as [v|]; [|done].
    destruct (contains v "%"%char).
    + destruct (recurse _ v) as [accum'|err]; [|done].
      simpl. apply IH; by apply Hlen.
    + apply IH; by apply Hlen.
Qed.

(** C10: there is a file that the parser reads without error, in which the
    value of an option holds a [%] that no interpolation syntax follows,
    and on which [read_cfg] raises InterpolationSyntaxError. *)
Theorem read_cfg_percent_raises :
  exists (fs : gmap pystr pystr) (file : pystr)
         (config : ConfigParser.parser) (v : pystr),
    ConfigParser.read fs file = Ok config
    /\ (Dict.get (ConfigParser._sections config) (str "job")
        ≫= fun d => Dict.get d (str "progress")) = Some v
    /\ v = str "50% done"
    /\ read_cfg fs file = Raise InterpolationSyntaxError.
Proof.
  exists {[ str "app.cfg" := text ["[job]"; "progress=50% done"] ]},
         (str "app.cfg").
  eexists. eexists.
  split; [vm_compute; reflexivity|].
  split; [vm_compute; reflexivity|].
  split; [reflexivity|]. vm_compute. reflexivity.
Qed.

(** ** Strings *)

Lemma lower_char_idemp (c : ascii) : lower_char (lower_char c) = lower_char c.
Proof. destruct c as [[] [] [] [] [] [] [] []]; reflexivity. Qed.

Lemma lower_idemp (s : pystr) : lower (lower s) = lower s.
Proof.
  unfold lower. induction s as [|c s IH]; simpl; [reflexivity|].
  by rewrite lower_char_idemp, IH.
Qed.

Lemma lstrip_cons_keep (c : ascii) (s : pystr) :
  isspace c = false -> lstrip (c :: s) = c :: s.
Proof. intros H. simpl. by rewrite H. Qed.

Lemma lstrip_length (s : pystr) : length (lstrip s) <= length s.
Proof.
  induction s as [|c s IH]; simpl; [lia|].
  destruct (isspace c); simpl; lia.
Qed.

Lemma rstrip_length (s : pystr) : length (rstrip s) <= length s.
Proof.
  unfold rstrip. rewrite length_rev.
  etransitivity; [apply lstrip_length|]. by rewrite length_rev.
Qed.

Lemma rstrip_snoc_space (s : pystr) (c : ascii) :
  isspace c = true -> rstrip (s ++ [c]) = rstrip s.
Proof. intros H. unfold rstrip. rewrite rev_app_distr. simpl. by rewrite H. Qed.

Lemma rstrip_snoc_keep (s : pystr) (c : ascii) :
  isspace c = false -> rstrip (s ++ [c]) = s ++ [c].
Proof.
  intros H. unfold rstrip. rewrite rev_app_distr. simpl. rewrite H.
  change (c :: rev s) with (rev [c] ++ rev s).
  by rewrite <- rev_app_distr, rev_involutive.
Qed.

(** A string that [rstrip] leaves alone is empty or ends with a character
    that is not white space. *)
Lemma rstrip_fixed_inv (s : pystr) :
  rstrip s = s -> s = [] \/ exists s' c, s = s' ++ [c] /\ isspace c = false.
Proof.
  intros H. destruct s as [|x s] using rev_ind; [by left|]. right.
  exists s, x. split; [reflexivity|].
  destruct (isspace x) eqn:Hx; [|reflexivity]. exfalso.
  rewrite rstrip_snoc_space in H by exact Hx.
  pose proof (rstrip_length s) as Hl. rewrite H, length_app in Hl.
  simpl in Hl. lia.
Qed.

Lemma rstrip_app_keep (a b : pystr) :
  b ≠ [] -> rstrip b = b -> rstrip (a ++ b) = a ++ b.
Proof.
  intros Hne Hb. destruct (rstrip_fixed_inv b Hb) as [->|(b' & c & -> & Hc)];
    [done|].
  rewrite app_assoc. by apply rstrip_snoc_keep.
Qed.

Lemma lstrip_fixed_inv (s : pystr) :
  lstrip s = s -> s = [] \/ exists c s', s = c :: s' /\ isspace c = false.
Proof.
  intros H. destruct s as [|c s]; [by left|]. right. exists c, s.
  split; [reflexivity|]. destruct (isspace c) eqn:Hc; [|reflexivity].
  exfalso. simpl in H. rewrite Hc in H.
  pose proof (lstrip_length s) as Hl. rewrite H in Hl. simpl in Hl. lia.
Qed.

Lemma rstrip_app_newlines (v : pystr) (n : nat) :
  rstrip (v ++ replicate n LF) = rstrip v.
Proof.
  induction n as [|n IH]; simpl; [by rewrite app_nil_r|].
  change (LF :: replicate n LF) with (replicate (S n) LF).
  rewrite replicate_S_end, app_assoc, rstrip_snoc_space by reflexivity.
  exact IH.
Qed.

Lemma one_line_spec (s : pystr) :
  one_line s = true <-> (LF ∉ s) /\ (CR ∉ s).
Proof.
  unfold one_line. induction s as [|c s IH]; simpl.
  - split; [intros _; split; apply not_elem_of_nil | done].
  - rewrite andb_true_iff, IH, !not_elem_of_cons. unfold is_newline.
    rewrite negb_true_iff, orb_false_iff, !bool_decide_eq_false.
    intuition congruence.
Qed.

Lemma universal_newlines_id (s : pystr) :
  CR ∉ s -> universal_newlines s = s.
Proof.
  induction s as [|c s IH]; intros H; simpl; [reflexivity|].
  apply not_elem_of_cons in H as [Hc Hs].
  rewrite bool_decide_eq_false_2 by congruence. by rewrite IH.
Qed.

Lemma readlines_line (line rest : pystr) :
  LF ∉ line -> readlines (line ++ LF :: rest) = (line ++ [LF]) :: readlines rest.
Proof.
  induction line as [|c line IH]; intros H; simpl.
  - reflexivity.
  - apply not_elem_of_cons in H as [Hc Hl].
    rewrite bool_decide_eq_false_2 by congruence. by rewrite IH.
Qed.

Lemma readlines_ended (lines : list pystr) :
  Forall (fun line => LF ∉ line) lines ->
  readlines (mbind ended lines) = ended <$> lines.
Proof.
  induction 1 as [|line lines Hl _ IH]; [reflexivity|].
  change (mbind ended (line :: lines)) with (ended line ++ mbind ended lines).
  unfold ended at 1. rewrite <- app_assoc. simpl.
  rewrite readlines_line by exact Hl. by rewrite IH.
Qed.

Lemma rindex_snoc (s : pystr) (c : ascii) :
  rindex (s ++ [c]) c = Some (length s).
Proof.
  induction s as [|x s IH]; simpl.
  - by rewrite bool_decide_eq_true_2.
  - by rewrite IH.
Qed.

Lemma index_where_app_first (p : ascii -> bool) (pre rest : pystr) (c : ascii) :
  forallb (fun x => negb (p x)) pre = true -> p c = true ->
  index_where p (pre ++ c :: rest) = Some (length pre).
Proof.
  intros Hpre Hc. induction pre as [|x pre IH]; simpl.
  - by rewrite Hc.
  - simpl in Hpre. apply andb_true_iff in Hpre as [Hx Hpre].
    apply negb_true_iff in Hx. rewrite Hx, IH by exact Hpre. reflexivity.
Qed.

(** ** Dictionaries *)

Section dict_facts.
Context {K V : Type} `{EqDecision K}.
Implicit Types (d : odict K V) (k : K) (v : V).

Lemma dict_get_fresh d k : k ∉ Dict.keys d -> Dict.get d k = None.
Proof.
  induction d as [|[k' v'] d IH]; intros H; simpl; [reflexivity|].
  unfold Dict.keys in H. simpl in H. apply not_elem_of_cons in H as [Hk Hd].
  destruct (decide (k = k')); [done|]. by apply IH.
Qed.

Lemma dict_get_is_Some d k : k ∈ Dict.keys d -> is_Some (Dict.get d k).
Proof.
  induction d as [|[k' v'] d IH]; intros H; simpl.
  - by apply elem_of_nil in H.
  - destruct (decide (k = k')); [by eexists|].
    unfold Dict.keys in H. simpl in H. apply elem_of_cons in H as [?|H]; [done|].
    by apply IH.
Qed.

Lemma dict_get_Some_elem d k v : Dict.get d k = Some v -> (k, v) ∈ d.
Proof.
  induction d as [|[k' v'] d IH]; simpl; [done|].
  destruct (decide (k = k')) as [->|].
  - intros [= ->]. by left.
  - intros H. right. by apply IH.
Qed.

Lemma dict_get_elem d k v : NoDup (Dict.keys d) -> (k, v) ∈ d -> Dict.get d k = Some v.
Proof.
  induction d as [|[k' v'] d IH]; intros Hnd Hin.
  - by apply elem_of_nil in Hin.
  - unfold Dict.keys in Hnd. simpl in Hnd. apply NoDup_cons in Hnd as [Hk' Hnd].
    simpl. apply elem_of_cons in Hin as [[= -> ->]|Hin].
    + by rewrite decide_True.
    + rewrite decide_False; [by apply IH|].
      intros ->. apply Hk'. apply list_elem_of_fmap. by exists (k', v).
Qed.

Lemma dict_get_app_last d k v : k ∉ Dict.keys d -> Dict.get (d ++ [(k, v)]) k = Some v.
Proof.
  induction d as [|[k' v'] d IH]; intros H; simpl.
  - by rewrite decide_True.
  - unfold Dict.keys in H. simpl in H. apply not_elem_of_cons in H as [Hk Hd].
    rewrite decide_False by done. by apply IH.
Qed.

Lemma dict_set_fresh d k v : k ∉ Dict.keys d -> Dict.set d k v = d ++ [(k, v)].
Proof.
  induction d as [|[k' v'] d IH]; intros H; simpl; [reflexivity|].
  unfold Dict.keys in H. simpl in H. apply not_elem_of_cons in H as [Hk Hd].
  rewrite decide_False by done. by rewrite IH.
Qed.

Lemma dict_set_app_last d k v v' :
  k ∉ Dict.keys d -> Dict.set (d ++ [(k, v)]) k v' = d ++ [(k, v')].
Proof.
  induction d as [|[k0 v0] d IH]; intros H; simpl.
  - by rewrite decide_True.
  - unfold Dict.keys in H. simpl in H. apply not_elem_of_cons in H as [Hk Hd].
    rewrite decide_False by done. by rewrite IH.
Qed.

Lemma dict_keys_set d k v :
  Dict.keys (Dict.set d k v)
  = if bool_decide (k ∈ Dict.keys d) then Dict.keys d else Dict.keys d ++ [k].
Proof.
  unfold Dict.keys. induction d as [|[k' v'] d IH]; csimpl; [reflexivity|].
  destruct (decide (k = k')) as [->|Hne]; csimpl.
  - rewrite bool_decide_eq_true_2 by (by left). reflexivity.
  - rewrite IH. destruct (decide (k ∈ d.*1)) as [Hin|Hnot].
    + rewrite !bool_decide_eq_true_2; [reflexivity | by right | done].
    + rewrite !bool_decide_eq_false_2; [reflexivity | | done].
      intros [?|?]%elem_of_cons; done.
Qed.

Lemma dict_keys_update d other :
  forall k, k ∈ Dict.keys (Dict.update d other) -> k ∈ Dict.keys d \/ k ∈ Dict.keys other.
Proof.
  unfold Dict.update. revert d.
  induction other as [|[k' v'] other IH]; intros d k; simpl; [by left|].
  intros H. apply IH in H as [H|H].
  - rewrite dict_keys_set in H. simpl in H.
    destruct (bool_decide (k' ∈ Dict.keys d)); [by left|].
    apply elem_of_app in H as [H|H]; [by left|].
    apply list_elem_of_singleton in H as ->. right. by left.
  - right. unfold Dict.keys. simpl. by right.
Qed.

Lemma dict_update_nil d : Dict.update d [] = d.
Proof. reflexivity. Qed.

End dict_facts.

(** ** The lines written by create_cfg, as the parser sees them *)

Lemma trimmed_spec (s : pystr) :
  trimmed s = true <-> lstrip s = s /\ rstrip s = s.
Proof.
  unfold trimmed. by rewrite andb_true_iff, !bool_decide_eq_true.
Qed.

Lemma strip_ended (body : pystr) :
  trimmed body = true -> strip (ended body) = body.
Proof.
  intros [Hl Hr]%trimmed_spec. unfold strip, ended.
  destruct (lstrip_fixed_inv body Hl) as [->|(c & b & -> & Hc)];
    [reflexivity|].
  rewrite <- app_comm_cons, lstrip_cons_keep by exact Hc.
  rewrite app_comm_cons, rstrip_snoc_space by reflexivity. exact Hr.
Qed.

Lemma startswith_app_single (s rest : pystr) (c : ascii) :
  s ≠ [] -> startswith (s ++ rest) [c] = startswith s [c].
Proof. destruct s as [|x s]; [done|]. reflexivity. Qed.

Lemma truthy_spec (s : pystr) : truthy s = true <-> s ≠ [].
Proof. by destruct s. Qed.

(** A line that starts at the left margin and is no comment is read as a
    section header or as an option, never as the continuation of a value. *)
Lemma read_line_flush_left (st : ConfigParser.reader) (lineno : nat) (body : pystr) :
  trimmed body = true -> truthy body = true ->
  startswith body (str "#") = false -> startswith body (str ";") = false ->
  ConfigParser.read_line st lineno (ended body)
  = match ConfigParser.SECTCRE_match body with
    | Some name => ConfigParser.enter_section st 0 name
    | None =>
        match ConfigParser.cursect st with
        | None => Raise MissingSectionHeaderError
        | Some ref => ConfigParser.enter_option st ref 0 lineno body
        end
    end.
Proof.
  intros Htrim Hne Hc1 Hc2. unfold ConfigParser.read_line.
  assert (Hcomment : ConfigParser.is_comment (ended body) = false).
  { unfold ConfigParser.is_comment, ConfigParser.comment_prefixes.
    cbn [existsb].
    rewrite (strip_ended body Htrim), Hc1, Hc2. reflexivity. }
  rewrite Hcomment, (strip_ended body Htrim), Hne. simpl negb. cbv iota.
  assert (Hindent : ConfigParser.NONSPACECRE_search (ended body) = Some 0).
  { apply trimmed_spec in Htrim as [Hl _].
    destruct (lstrip_fixed_inv body Hl) as [->|(c & b & -> & Hc)]; [done|].
    unfold ConfigParser.NONSPACECRE_search, ended. simpl. by rewrite Hc. }
  rewrite Hindent. simpl default.
  rewrite (bool_decide_eq_false_2 (_ < 0)) by lia.
  destruct (ConfigParser.cursect st) as [ref|]; [|reflexivity].
  destruct (ConfigParser.optname st) as [opt|]; [|reflexivity].
  by rewrite andb_false_r.
Qed.

Lemma read_line_blank (st : ConfigParser.reader) (lineno : nat) :
  ConfigParser.read_line st lineno (ended [])
  = match ConfigParser.cursect st, ConfigParser.optname st with
    | Some ref, Some opt =>
        if truthy opt then ConfigParser.append_line st ref opt [] else Ok st
    | _, _ => Ok st
    end.
Proof.
  unfold ConfigParser.read_line.
  by destruct (ConfigParser.cursect st), (ConfigParser.optname st).
Qed.

Lemma header_line_trimmed (s : pystr) : trimmed (header_line s) = true.
Proof.
  apply trimmed_spec. unfold header_line. split.
  - reflexivity.
  - change (str "[" ++ s ++ str "]") with (("["%char :: s) ++ ["]"%char]).
    by apply rstrip_snoc_keep.
Qed.

Lemma SECTCRE_match_header (s : pystr) :
  truthy s = true -> ConfigParser.SECTCRE_match (header_line s) = Some s.
Proof.
  intros Hs. unfold ConfigParser.SECTCRE_match, header_line. simpl.
  change (s ++ str "]") with (s ++ ["]"%char]).
  rewrite rindex_snoc.
  rewrite bool_decide_eq_true_2 by (destruct s; simpl in *; [done | lia]).
  by rewrite take_app_length.
Qed.

Lemma read_line_header (st : ConfigParser.reader) (lineno : nat) (s : pystr) :
  truthy s = true ->
  ConfigParser.read_line st lineno (ended (header_line s))
  = ConfigParser.enter_section st 0 s.
Proof.
  intros Hs.
  rewrite read_line_flush_left; try reflexivity; [|apply header_line_trimmed].
  by rewrite SECTCRE_match_header.
Qed.

(** What [option_ok] and [value_ok] say. *)
Lemma option_ok_spec (o : pystr) :
  option_ok o = true ->
  o ≠ [] /\ one_line o = true /\ lstrip o = o /\ rstrip o = o
  /\ forallb (fun c => negb (ConfigParser.is_delimiter c)) o = true
  /\ startswith o (str "#") = false /\ startswith o (str ";") = false
  /\ startswith o (str "[") = false.
Proof.
  unfold option_ok. rewrite !andb_true_iff, !negb_true_iff, truthy_spec, trimmed_spec.
  tauto.
Qed.

Lemma value_ok_spec (v : pystr) :
  value_ok v = true ->
  one_line v = true /\ lstrip v = v /\ rstrip v = v /\ "%"%char ∉ v.
Proof.
  unfold value_ok, contains.
  rewrite !andb_true_iff, !negb_true_iff, trimmed_spec, bool_decide_eq_false.
  tauto.
Qed.

Lemma option_line_trimmed (o v : pystr) :
  option_ok o = true -> value_ok v = true -> trimmed (option_line (o, v)) = true.
Proof.
  intros (Hne & _ & Hl & _)%option_ok_spec (_ & _ & Hr & _)%value_ok_spec.
  apply trimmed_spec. unfold option_line. cbn [fst snd]. split.
  - destruct (lstrip_fixed_inv o Hl) as [->|(c & o' & -> & Hc)]; [done|].
    rewrite <- app_comm_cons. by apply lstrip_cons_keep.
  - destruct v as [|x v].
    + change (o ++ str "=" ++ []) with (o ++ ["="%char]).
      by apply rstrip_snoc_keep.
    + rewrite app_assoc. by apply rstrip_app_keep.
Qed.

Lemma SECTCRE_match_option (o v : pystr) :
  startswith o (str "[") = false -> o ≠ [] ->
  ConfigParser.SECTCRE_match (option_line (o, v)) = None.
Proof.
  intros Hb Hne. destruct o as [|c o]; [done|].
  unfold ConfigParser.SECTCRE_match, option_line. simpl in *.
  destruct (bool_decide (c = "["%char)); [|reflexivity].
  by destruct o.
Qed.

Lemma OPTCRE_match_option (o v : pystr) :
  option_ok o = true -> value_ok v = true ->
  ConfigParser.OPTCRE_match (option_line (o, v)) = Some (o, v).
Proof.
  intros (_ & _ & _ & Hr & Hd & _)%option_ok_spec (_ & Hl & _)%value_ok_spec.
  unfold ConfigParser.OPTCRE_match, option_line. simpl.
  change (str "=" ++ v) with ("="%char :: v).
  rewrite (index_where_app_first _ o v "="%char Hd) by reflexivity.
  rewrite take_app_length.
  change (o ++ "="%char :: v) with (o ++ ["="%char] ++ v).
  rewrite app_assoc.
  replace (S (length o)) with (length (o ++ ["="%char]))
    by (rewrite length_app; simpl; lia).
  rewrite drop_app_length. by rewrite Hr, Hl.
Qed.

Lemma read_line_option (st : ConfigParser.reader) (ref : ConfigParser.sect_ref)
    (lineno : nat) (o v : pystr) :
  option_ok o = true -> value_ok v = true ->
  ConfigParser.cursect st = Some ref ->
  ConfigParser.read_line st lineno (ended (option_line (o, v)))
  = ConfigParser.enter_option st ref 0 lineno (option_line (o, v)).
Proof.
  intros Ho Hv Hcur.
  pose proof (option_ok_spec o Ho) as (Hne & _ & _ & _ & _ & Hc1 & Hc2 & Hb).
  rewrite read_line_flush_left.
  - rewrite SECTCRE_match_option by done. by rewrite Hcur.
  - by apply option_line_trimmed.
  - unfold option_line. simpl. by destruct o.
  - unfold option_line. cbn [fst snd]. change (str "#") with ["#"%char] in *.
    by rewrite startswith_app_single.
  - unfold option_line. cbn [fst snd]. change (str ";") with [";"%char] in *.
    by rewrite startswith_app_single.
Qed.

(** ** The parser on the lines of a document *)

Lemma raw_options_keys (options : odict pystr pystr) raw :
  raw_options options raw -> Dict.keys raw = lower <$> Dict.keys options.
Proof.
  unfold Dict.keys. induction 1 as [|ov r options raw [Hk _] _ IH]; csimpl;
    [reflexivity|].
  by rewrite Hk, IH.
Qed.

Lemma raw_sections_keys (doc : document) raw :
  raw_sections doc raw -> Dict.keys raw = Dict.keys doc.
Proof.
  unfold Dict.keys. induction 1 as [|so r doc raw [Hk _] _ IH]; csimpl;
    [reflexivity|].
  by rewrite Hk, IH.
Qed.

Lemma raw_sections_snoc_inv (doc : document) (s : pystr) options raw :
  raw_sections (doc ++ [(s, options)]) raw ->
  exists raw' ropts,
    raw = raw' ++ [(s, ropts)] /\ raw_sections doc raw' /\ raw_options options ropts.
Proof.
  intros (raw' & last & Hdoc & Hlast & ->)%Forall2_app_inv_l.
  inversion Hlast as [|so [s' ropts] ? tl [Hs Ho] Htl]; subst.
  inversion Htl; subst. simpl in *. subst s'. by exists raw', ropts.
Qed.

Lemma raw_sections_snoc (doc : document) (s : pystr) options raw ropts :
  raw_sections doc raw -> raw_options options ropts ->
  raw_sections (doc ++ [(s, options)]) (raw ++ [(s, ropts)]).
Proof.
  intros Hdoc Ho. apply Forall2_app; [exact Hdoc|].
  constructor; [by split | constructor].
Qed.

Lemma raw_value_blank (v : pystr) raw :
  raw_value v raw -> raw_value v (raw ++ [[]]).
Proof.
  intros [n ->]. exists (S n).
  by rewrite replicate_S_end, app_comm_cons.
Qed.

Lemma raw_options_blank (options : odict pystr pystr) ropts (k : pystr) raw :
  raw_options options ropts -> Dict.get ropts k = Some raw ->
  raw_options options (Dict.set ropts k (raw ++ [[]])).
Proof.
  induction 1 as [|ov [k' r] options ropts [Hk Hv] Hrest IH]; simpl; [done|].
  destruct (decide (k = k')) as [->|Hne].
  - intros [= ->]. constructor; [|exact Hrest].
    split; [exact Hk | by apply raw_value_blank].
  - intros Hget. constructor; [by split | by apply IH].
Qed.

Lemma store_section (st : ConfigParser.reader) (s optname : pystr) d val :
  Dict.get (ConfigParser.sections_raw st) s = Some d ->
  ConfigParser.store st (ConfigParser.TheSection s) optname val
  = Ok {| ConfigParser.sections_raw :=
            Dict.set (ConfigParser.sections_raw st) s (Dict.set d optname val);
          ConfigParser.defaults_raw := ConfigParser.defaults_raw st;
          ConfigParser.elements_added := ConfigParser.elements_added st;
          ConfigParser.cursect := ConfigParser.cursect st;
          ConfigParser.sectname := ConfigParser.sectname st;
          ConfigParser.optname := ConfigParser.optname st;
          ConfigParser.indent_level := ConfigParser.indent_level st;
          ConfigParser.e := ConfigParser.e st |}.
Proof. intros H. unfold ConfigParser.store. simpl. by rewrite H. Qed.

Lemma last_snoc_inv {A : Type} (l : list A) (x : A) :
  last l = Some x -> exists l', l = l' ++ [x].
Proof.
  destruct l as [|y l] using rev_ind; [done|].
  rewrite last_snoc. intros [= ->]. by exists l.
Qed.

Lemma nodup_keys_snoc {V : Type} (d : odict pystr V) (k : pystr) (v : V) :
  NoDup (Dict.keys (d ++ [(k, v)])) -> k ∉ Dict.keys d.
Proof.
  unfold Dict.keys. rewrite fmap_app. csimpl.
  intros (_ & Hk & _)%NoDup_app Hin. apply (Hk k Hin). by left.
Qed.

(** A blank line. *)
Lemma reading_blank (doc : document) (st : ConfigParser.reader) (lineno : nat) :
  reading doc st ->
  exists st', ConfigParser.read_line st lineno (ended []) = Ok st' /\ reading doc st'.
Proof.
  intros Hr. destruct Hr as [Hnd Hsec Hdef Herr Hadd Hcur] eqn:E. clear E.
  rewrite read_line_blank.
  destruct (last doc) as [[s options]|] eqn:Hlast.
  2:{ rewrite Hcur. by exists st. }
  destruct Hcur as (Hcs & Hsn & Hopt). simpl in *. rewrite Hcs.
  destruct (ConfigParser.optname st) as [opt|] eqn:Hon; [|by exists st].
  destruct (truthy opt); [|by exists st].
  apply last_snoc_inv in Hlast as [doc' ->].
  destruct (raw_sections_snoc_inv _ _ _ _ Hsec) as (raw' & ropts & Hraw & Hdoc' & Hro).
  assert (Hfresh : s ∉ Dict.keys raw').
  { rewrite (raw_sections_keys _ _ Hdoc'). by eapply nodup_keys_snoc. }
  assert (Hin : opt ∈ Dict.keys ropts)
    by (rewrite (raw_options_keys _ _ Hro); by apply Hopt).
  destruct (dict_get_is_Some _ _ Hin) as [raw Hget].
  unfold ConfigParser.append_line. simpl. rewrite Hraw.
  rewrite dict_get_app_last by exact Hfresh. simpl. rewrite Hget.
  erewrite store_section by (rewrite Hraw; by apply dict_get_app_last).
  eexists. split; [reflexivity|].
  constructor; simpl; try done.
  - rewrite Hraw, dict_set_app_last by exact Hfresh.
    apply raw_sections_snoc; [exact Hdoc'|]. by eapply raw_options_blank.
  - rewrite last_snoc. simpl. rewrite Hon. done.
Qed.

(** The header of a new section. *)
Lemma reading_header (doc : document) (st : ConfigParser.reader)
    (lineno : nat) (s : pystr) :
  reading doc st -> section_ok s = true -> s ∉ Dict.keys doc ->
  exists st',
    ConfigParser.read_line st lineno (ended (header_line s)) = Ok st'
    /\ reading (doc ++ [(s, [])]) st'.
Proof.
  intros [Hnd Hsec Hdef Herr Hadd Hcur] Hok Hfresh.
  unfold section_ok in Hok.
  apply andb_true_iff in Hok as [[Hs _]%andb_true_iff Hdefault].
  apply negb_true_iff, bool_decide_eq_false in Hdefault.
  rewrite read_line_header by exact Hs.
  unfold ConfigParser.enter_section, Dict.mem.
  rewrite (raw_sections_keys _ _ Hsec).
  rewrite (bool_decide_eq_false_2 _ Hfresh), (bool_decide_eq_false_2 _ Hdefault).
  eexists. split; [reflexivity|].
  constructor; simpl; try done.
  - unfold Dict.keys. rewrite fmap_app. csimpl.
    apply NoDup_app. split; [exact Hnd|]. split; [|apply NoDup_singleton].
    intros k Hk ->%list_elem_of_singleton. by apply Hfresh.
  - rewrite dict_set_fresh by (by rewrite (raw_sections_keys _ _ Hsec)).
    apply raw_sections_snoc; [exact Hsec | constructor].
  - intros x o [Hin|Hin]%elem_of_union.
    + by apply elem_of_singleton in Hin.
    + destruct (Hadd x o Hin) as (s' & opts & -> & Hdoc & Ho).
      exists s', opts. split; [done|]. split; [|done].
      apply elem_of_app. by left.
  - rewrite last_snoc. simpl. by split.
Qed.

Lemma nodup_elem_unique {V : Type} (d : odict pystr V) (k : pystr) (v v' : V) :
  NoDup (Dict.keys d) -> (k, v) ∈ d -> (k, v') ∈ d -> v = v'.
Proof.
  intros Hnd H1 H2.
  apply (dict_get_elem _ _ _ Hnd) in H1. apply (dict_get_elem _ _ _ Hnd) in H2.
  congruence.
Qed.

Lemma keys_snoc {V : Type} (d : odict pystr V) (k : pystr) (v : V) :
  Dict.keys (d ++ [(k, v)]) = Dict.keys d ++ [k].
Proof. unfold Dict.keys. by rewrite fmap_app. Qed.

(** An option of the section being read. *)
Lemma reading_option (doc : document) (s : pystr) (options : odict pystr pystr)
    (st : ConfigParser.reader) (lineno : nat) (o v : pystr) :
  reading (doc ++ [(s, options)]) st ->
  option_ok o = true -> value_ok v = true ->
  lower o ∉ lower <$> Dict.keys options ->
  exists st',
    ConfigParser.read_line st lineno (ended (option_line (o, v))) = Ok st'
    /\ reading (doc ++ [(s, options ++ [(o, v)])]) st'.
Proof.
  intros [Hnd Hsec Hdef Herr Hadd Hcur] Ho Hv Hfresh.
  rewrite last_snoc in Hcur. destruct Hcur as (Hcs & Hsn & Hopt). simpl in *.
  rewrite (read_line_option st _ lineno o v Ho Hv Hcs).
  unfold ConfigParser.enter_option.
  rewrite (OPTCRE_match_option o v Ho Hv).
  pose proof (option_ok_spec o Ho) as (Hne & _ & _ & Hr & _).
  pose proof (value_ok_spec v Hv) as (_ & Hvl & Hvr & _).
  apply truthy_spec in Hne. rewrite Hne, Hr. unfold ConfigParser.optionxform.
  assert (Hstrip : strip v = v) by (unfold strip; by rewrite Hvl, Hvr).
  rewrite Hstrip, Hsn.
  rewrite bool_decide_eq_false_2.
  2:{ intros Hin. destruct (Hadd _ _ Hin) as (s' & opts & [= <-] & Hdoc & Hlo).
      assert (opts = options) as ->; [|done].
      eapply (nodup_elem_unique _ s); [exact Hnd | exact Hdoc |].
      apply elem_of_app. right. by left. }
  simpl.
  destruct (raw_sections_snoc_inv _ _ _ _ Hsec) as (raw' & ropts & Hraw & Hdoc' & Hro).
  assert (Hs : s ∉ Dict.keys raw').
  { rewrite (raw_sections_keys _ _ Hdoc'). by eapply nodup_keys_snoc. }
  erewrite store_section by (simpl; rewrite Hraw; by apply dict_get_app_last).
  eexists. split; [reflexivity|].
  assert (Hkeys : Dict.keys (doc ++ [(s, options ++ [(o, v)])])
                  = Dict.keys (doc ++ [(s, options)]))
    by (by rewrite !keys_snoc).
  constructor; simpl.
  - by rewrite Hkeys.
  - rewrite Hraw, dict_set_app_last by exact Hs.
    apply raw_sections_snoc; [exact Hdoc'|].
    rewrite dict_set_fresh by (by rewrite (raw_options_keys _ _ Hro)).
    apply Forall2_app; [exact Hro|].
    constructor; [|constructor]. split; [reflexivity|]. by exists 0.
  - exact Hdef.
  - exact Herr.
  - intros x k [Hin|Hin]%elem_of_union.
    + apply elem_of_singleton in Hin. injection Hin as -> ->.
      exists s, (options ++ [(o, v)]). split; [done|]. split.
      * apply elem_of_app. right. by left.
      * rewrite keys_snoc, fmap_app. apply elem_of_app. right. by left.
    + destruct (Hadd x k Hin) as (s' & opts & -> & Hdoc & Hk).
      apply elem_of_app in Hdoc as [Hdoc|Hdoc].
      * exists s', opts. split; [done|]. split; [|done].
        apply elem_of_app. by left.
      * apply list_elem_of_singleton in Hdoc. injection Hdoc as -> ->.
        exists s, (options ++ [(o, v)]). split; [done|]. split.
        -- apply elem_of_app. right. by left.
        -- rewrite keys_snoc, fmap_app. apply elem_of_app. by left.
  - rewrite last_snoc. simpl. split; [done|]. split; [done|].
    intros opt [= <-]. rewrite keys_snoc, fmap_app. apply elem_of_app.
    right. by left.
Qed.

Lemma read_lines_app (st : ConfigParser.reader) (lineno : nat) (l1 l2 : list pystr) :
  ConfigParser.read_lines st lineno (l1 ++ l2)
  = ConfigParser.read_lines st lineno l1
    ≫= fun st' => ConfigParser.read_lines st' (lineno + length l1) l2.
Proof.
  revert st lineno. induction l1 as [|l l1 IH]; intros st lineno; simpl.
  - by rewrite Nat.add_0_r.
  - destruct (ConfigParser.read_line st lineno l) as [st'|err]; simpl;
      [|reflexivity].
    rewrite IH. by rewrite Nat.add_succ_r.
Qed.

(** What [options_ok] says. *)
Lemma options_ok_spec (options : odict pystr pystr) :
  options_ok options = true ->
  NoDup (lower <$> Dict.keys options)
  /\ Forall (fun ov => option_ok ov.1 = true /\ value_ok ov.2 = true) options.
Proof.
  unfold options_ok. rewrite andb_true_iff, bool_decide_eq_true, forallb_forall.
  intros [Hnd Hall]. split; [exact Hnd|].
  apply Forall_forall. intros ov Hin. apply andb_true_iff, Hall.
  by apply list_elem_of_In.
Qed.

(** The options of a section, one after the other. *)
Lemma reading_options (new : odict pystr pystr) :
  forall (doc : document) (s : pystr) (options : odict pystr pystr)
         (st : ConfigParser.reader) (lineno : nat),
  reading (doc ++ [(s, options)]) st ->
  NoDup (lower <$> Dict.keys (options ++ new)) ->
  Forall (fun ov => option_ok ov.1 = true /\ value_ok ov.2 = true) new ->
  exists st',
    ConfigParser.read_lines st lineno (ended <$> (option_line <$> new)) = Ok st'
    /\ reading (doc ++ [(s, options ++ new)]) st'.
Proof.
  induction new as [|[o v] new IH]; intros doc s options st lineno Hr Hnd Hok.
  - exists st. rewrite app_nil_r. by split.
  - apply Forall_cons in Hok as [[Ho Hv] Hok]. simpl in Ho, Hv.
    assert (Hfresh : lower o ∉ lower <$> Dict.keys options).
    { unfold Dict.keys in *. rewrite !fmap_app in Hnd. csimpl in Hnd.
      apply NoDup_app in Hnd as (_ & Hd & _). intros Hin.
      apply (Hd _ Hin). by left. }
    destruct (reading_option doc s options st lineno o v Hr Ho Hv Hfresh)
      as (st1 & Hstep & Hr1).
    csimpl. rewrite Hstep. simpl.
    destruct (IH doc s (options ++ [(o, v)]) st1 (S lineno) Hr1)
      as (st2 & Hrun & Hr2).
    + by rewrite <- app_assoc.
    + exact Hok.
    + exists st2. split; [exact Hrun|]. by rewrite <- app_assoc in Hr2.
Qed.

(** A whole section: blank line, header, options. *)
Lemma reading_section (doc : document) (st : ConfigParser.reader) (lineno : nat)
    (s : pystr) (options : odict pystr pystr) :
  reading doc st -> s ∉ Dict.keys doc ->
  section_ok s = true -> options_ok options = true ->
  exists st',
    ConfigParser.read_lines st lineno (ended <$> section_lines (s, options)) = Ok st'
    /\ reading (doc ++ [(s, options)]) st'.
Proof.
  intros Hr Hfresh Hs [Hnd Hok]%options_ok_spec.
  destruct (reading_blank doc st lineno Hr) as (st1 & Hstep1 & Hr1).
  destruct (reading_header doc st1 (S lineno) s Hr1 Hs Hfresh) as (st2 & Hstep2 & Hr2).
  destruct (reading_options options doc s [] st2 (S (S lineno)) Hr2 Hnd Hok)
    as (st3 & Hrun & Hr3).
  exists st3. split; [|exact Hr3].
  unfold section_lines. csimpl.
  change (ended []) with (ended ([] : pystr)) in Hstep1.
  rewrite Hstep1. simpl. rewrite Hstep2. simpl. exact Hrun.
Qed.

(** What [readable] says. *)
Lemma readable_spec (doc : document) :
  readable doc = true ->
  NoDup (Dict.keys doc)
  /\ Forall (fun so => section_ok so.1 = true /\ options_ok so.2 = true) doc.
Proof.
  unfold readable. rewrite andb_true_iff, bool_decide_eq_true, forallb_forall.
  intros [Hnd Hall]. split; [exact Hnd|].
  apply Forall_forall. intros so Hin. apply andb_true_iff, Hall.
  by apply list_elem_of_In.
Qed.

(** The sections of a document, one after the other. *)
Lemma reading_document (rest : document) :
  forall (doc : document) (st : ConfigParser.reader) (lineno : nat),
  reading doc st ->
  NoDup (Dict.keys (doc ++ rest)) ->
  Forall (fun so => section_ok so.1 = true /\ options_ok so.2 = true) rest ->
  exists st',
    ConfigParser.read_lines st lineno (ended <$> mbind section_lines rest) = Ok st'
    /\ reading (doc ++ rest) st'.
Proof.
  induction rest as [|[s options] rest IH]; intros doc st lineno Hr Hnd Hok.
  - exists st. rewrite app_nil_r. by split.
  - apply Forall_cons in Hok as [[Hs Ho] Hok]. simpl in Hs, Ho.
    assert (Hfresh : s ∉ Dict.keys doc).
    { unfold Dict.keys in *. rewrite fmap_app in Hnd. csimpl in Hnd.
      apply NoDup_app in Hnd as (_ & Hd & _). intros Hin.
      apply (Hd _ Hin). by left. }
    destruct (reading_section doc st lineno s options Hr Hfresh Hs Ho)
      as (st1 & Hrun1 & Hr1).
    change (mbind section_lines ((s, options) :: rest))
      with (section_lines (s, options) ++ mbind section_lines rest).
    rewrite fmap_app, read_lines_app, Hrun1. simpl.
    destruct (IH (doc ++ [(s, options)]) st1
                 (lineno + length (ended <$> section_lines (s, options))) Hr1)
      as (st2 & Hrun2 & Hr2).
    + by rewrite <- app_assoc.
    + exact Hok.
    + exists st2. split; [exact Hrun2|]. by rewrite <- app_assoc in Hr2.
Qed.

Lemma reading_fresh : reading [] ConfigParser.fresh.
Proof. constructor; simpl; try done; constructor. Qed.

(** ** The end of _read: joining the lines of each value *)

Lemma join_blank_lines (v : pystr) (n : nat) :
  join [LF] (v :: replicate n []) = v ++ replicate n LF.
Proof.
  revert v. induction n as [|n IH]; intros v; simpl.
  - by rewrite app_nil_r.
  - specialize (IH []). simpl in IH. by rewrite IH.
Qed.

Lemma join_value_raw (v : pystr) raw :
  rstrip v = v -> raw_value v raw -> ConfigParser.join_value raw = v.
Proof.
  intros Hv [n ->]. unfold ConfigParser.join_value.
  by rewrite join_blank_lines, rstrip_app_newlines.
Qed.

Lemma join_options_raw (options : odict pystr pystr) ropts :
  Forall (fun ov => rstrip ov.2 = ov.2) options ->
  raw_options options ropts ->
  ConfigParser.join_options ropts = lowered_options options.
Proof.
  intros Hall Hraw.
  induction Hraw as [|[o v] [k raw] options ropts [Hk Hv] _ IH]; [reflexivity|].
  apply Forall_cons in Hall as [Hrv Hall]. simpl in *.
  unfold ConfigParser.join_options, lowered_options in *. csimpl.
  rewrite IH by exact Hall. by rewrite Hk, (join_value_raw v raw Hrv Hv).
Qed.

Lemma join_sections_raw (doc : document) raw :
  Forall (fun so => Forall (fun ov => rstrip ov.2 = ov.2) so.2) doc ->
  raw_sections doc raw ->
  (fun so => (so.1, ConfigParser.join_options so.2)) <$> raw = lowered doc.
Proof.
  intros Hall Hraw.
  induction Hraw as [|[s options] [s' ropts] doc raw [Hs Ho] _ IH]; [reflexivity|].
  apply Forall_cons in Hall as [Hopts Hall].
  rewrite fmap_cons, (IH Hall). simpl in *.
  change (lowered ((s, options) :: doc))
    with ((s, lowered_options options) :: lowered doc).
  by rewrite Hs, (join_options_raw options ropts Hopts Ho).
Qed.

(** ** What create_cfg writes *)

Lemma write_options_eq (options : odict pystr pystr) (buffer : pystr) :
  write_options buffer options = buffer ++ mbind ended (option_line <$> options).
Proof.
  unfold write_options. revert buffer.
  induction options as [|[o v] options IH]; intros buffer.
  - simpl. by rewrite app_nil_r.
  - cbn [fold_left fst snd]. rewrite IH, fmap_cons.
    change (mbind ended (option_line (o, v) :: (option_line <$> options)))
      with (ended (option_line (o, v)) ++ mbind ended (option_line <$> options)).
    unfold ended, option_line. cbn [fst snd].
    by rewrite <- !app_assoc.
Qed.

Lemma section_text (s : pystr) (options : odict pystr pystr) :
  mbind ended (section_lines (s, options))
  = [LF] ++ str "[" ++ s ++ str "]" ++ [LF]
    ++ mbind ended (option_line <$> options).
Proof.
  unfold section_lines. cbn [fst snd].
  change (mbind ended ([] :: header_line s :: (option_line <$> options)))
    with (ended [] ++ ended (header_line s)
          ++ mbind ended (option_line <$> options)).
  unfold ended at 1 2, header_line. by rewrite <- !app_assoc.
Qed.

Lemma write_sections_eq (doc : document) (buffer : pystr) :
  write_sections buffer doc = buffer ++ mbind ended (mbind section_lines doc).
Proof.
  unfold write_sections. revert buffer.
  induction doc as [|[s options] doc IH]; intros buffer.
  - simpl. by rewrite app_nil_r.
  - cbn [fold_left fst snd]. rewrite IH, write_options_eq.
    change (mbind section_lines ((s, options) :: doc))
      with (section_lines (s, options) ++ mbind section_lines doc).
    rewrite bind_app, section_text. by rewrite <- !app_assoc.
Qed.

Lemma one_line_app (a b : pystr) :
  one_line (a ++ b) = one_line a && one_line b.
Proof. unfold one_line. apply forallb_app. Qed.

Lemma section_lines_one_line (s : pystr) (options : odict pystr pystr) :
  one_line s = true ->
  Forall (fun ov => one_line ov.1 = true /\ one_line ov.2 = true) options ->
  Forall (fun line => one_line line = true) (section_lines (s, options)).
Proof.
  intros Hs Hopts. unfold section_lines. cbn [fst snd].
  constructor; [reflexivity|]. constructor.
  - unfold header_line. rewrite !one_line_app, Hs. reflexivity.
  - apply Forall_fmap. eapply Forall_impl; [exact Hopts|].
    intros [o v] [Ho Hv]. cbn [fst snd] in *.
    unfold compose, option_line. cbn [fst snd].
    rewrite !one_line_app, Ho, Hv. reflexivity.
Qed.

Lemma ended_lines_no_CR (lines : list pystr) :
  Forall (fun line => one_line line = true) lines -> CR ∉ mbind ended lines.
Proof.
  induction 1 as [|line lines Hl _ IH]; [apply not_elem_of_nil|].
  change (mbind ended (line :: lines)) with (ended line ++ mbind ended lines).
  unfold ended at 1. apply one_line_spec in Hl as [_ Hcr].
  rewrite !not_elem_of_app. split; [split|]; [exact Hcr | | exact IH].
  by intros [=]%list_elem_of_singleton.
Qed.

(** What the parser is given when it opens the file written for [doc]. *)
Lemma lines_written (doc : document) :
  Forall (fun so => section_ok so.1 = true /\ options_ok so.2 = true) doc ->
  readlines (universal_newlines (write_sections [] doc))
  = ended <$> mbind section_lines doc.
Proof.
  intros Hok. rewrite write_sections_eq. simpl.
  assert (Hlines : Forall (fun line => one_line line = true)
                          (mbind section_lines doc)).
  { induction Hok as [|[s options] doc [Hs Ho] _ IH]; [constructor|].
    change (mbind section_lines ((s, options) :: doc))
      with (section_lines (s, options) ++ mbind section_lines doc).
    apply Forall_app. split; [|exact IH]. simpl in *.
    apply section_lines_one_line.
    - unfold section_ok in Hs. by repeat (apply andb_true_iff in Hs as [Hs ?]).
    - apply options_ok_spec in Ho as [_ Ho].
      eapply Forall_impl; [exact Ho|].
      intros [o v] [(_ & Hone & _)%option_ok_spec (Hvone & _)%value_ok_spec].
      by split. }
  rewrite universal_newlines_id by (by apply ended_lines_no_CR).
  apply readlines_ended.
  eapply Forall_impl; [exact Hlines|]. intros line Hl.
  by apply one_line_spec in Hl as [? _].
Qed.

(** ** The loops of read_cfg *)

Lemma find_absent (s : pystr) (c : ascii) : c ∉ s -> find s c = None.
Proof.
  unfold find. induction s as [|x s IH]; intros H; simpl; [reflexivity|].
  apply not_elem_of_cons in H as [Hx Hs].
  rewrite bool_decide_eq_false_2 by congruence. by rewrite IH.
Qed.

(** A value without [%] is returned as it is. *)
Lemma before_get_plain (v : pystr) (d : odict pystr pystr * odict pystr pystr) :
  "%"%char ∉ v -> ConfigParser.before_get v d = Ok v.
Proof.
  intros Hv. unfold ConfigParser.before_get.
  unfold ConfigParser.MAX_INTERPOLATION_DEPTH.
  cbn [ConfigParser._interpolate_some].
  destruct v as [|c v]; [reflexivity|].
  simpl length. cbn [ConfigParser.scan truthy negb].
  rewrite (find_absent _ _ Hv). simpl. by rewrite app_nil_r.
Qed.

Section rebuild.
Context {K V : Type} `{EqDecision K}.

(** A loop that inserts, key after key, the entries of a dictionary builds
    that dictionary. *)
Lemma for_each_rebuild (body : odict K V -> K -> result (odict K V))
    (d : odict K V) :
  NoDup (Dict.keys d) ->
  (forall acc k v, (k, v) ∈ d -> body acc k = Ok (Dict.set acc k v)) ->
  forall acc, (forall k, k ∈ Dict.keys d -> k ∉ Dict.keys acc) ->
  for_each body acc (Dict.keys d) = Ok (acc ++ d).
Proof.
  induction d as [|[k v] d IH]; intros Hnd Hbody acc Hacc.
  - simpl. by rewrite app_nil_r.
  - unfold Dict.keys in Hnd, Hacc. csimpl in *.
    apply NoDup_cons in Hnd as [Hk Hnd].
    rewrite (Hbody acc k v) by (by left). simpl.
    rewrite dict_set_fresh by (apply Hacc; by left).
    rewrite IH.
    + by rewrite <- app_assoc.
    + exact Hnd.
    + intros acc' k' v' Hin. apply Hbody. by right.
    + intros k' Hin. unfold Dict.keys. rewrite fmap_app. csimpl.
      apply not_elem_of_app. split; [apply Hacc; by right|].
      intros ->%list_elem_of_singleton. by apply Hk.
Qed.
End rebuild.

(** On a parser without defaults whose option names are in lower case and
    whose values hold no [%], the loops of [read_cfg] rebuild the sections
    of the parser. *)
Lemma read_loops (d : document) :
  NoDup (Dict.keys d) ->
  Forall (fun so =>
            NoDup (Dict.keys so.2)
            /\ Forall (fun ov => lower ov.1 = ov.1 /\ "%"%char ∉ ov.2) so.2) d ->
  let config := {| ConfigParser._sections := d; ConfigParser._defaults := [] |} in
  for_each
    (fun (sections_dict : document) section =>
       options ← ConfigParser.options config section;
       options_dict ←
         for_each
           (fun (options_dict : odict pystr pystr) option =>
              value ← ConfigParser.get config section option;
              mret (Dict.set options_dict option value))
           [] options;
       mret (Dict.set sections_dict section options_dict))
    [] (ConfigParser.sections config)
  = Ok d.
Proof.
  intros Hnd Hall config.
  assert (Hget_all : forall s options, (s, options) ∈ d ->
            Dict.get d s = Some options
            /\ NoDup (Dict.keys options)
            /\ forall k v, (k, v) ∈ options ->
                  ConfigParser.get config s k = Ok v).
  { intros s options Hin.
    pose proof (dict_get_elem _ _ _ Hnd Hin) as Hget.
    rewrite Forall_forall in Hall. destruct (Hall _ Hin) as [Hndo Hopts].
    cbn [fst snd] in Hndo, Hopts.
    split; [exact Hget|]. split; [exact Hndo|]. intros k v Hkv.
    rewrite Forall_forall in Hopts.
    destruct (Hopts _ Hkv) as [Hlow Hpc]. cbn [fst snd] in Hlow, Hpc.
    unfold ConfigParser.get, ConfigParser._unify_values, config.
    cbn [ConfigParser._sections ConfigParser._defaults].
    rewrite Hget. cbn [mbind result_bind].
    unfold ConfigParser.optionxform, ConfigParser.chain_get.
    rewrite Hlow. cbn [fst snd]. rewrite (dict_get_elem _ _ _ Hndo Hkv).
    by apply before_get_plain. }
  refine (for_each_rebuild _ d Hnd _ [] _);
    [|intros k _; apply not_elem_of_nil].
  intros acc s options Hin.
  destruct (Hget_all s options Hin) as (Hget & Hndo & Hvals).
  subst config. cbn beta. unfold ConfigParser.options.
  cbn [ConfigParser._sections ConfigParser._defaults].
  rewrite Hget, dict_update_nil. cbn [mbind result_bind].
  match goal with
  | |- context [for_each ?body [] (Dict.keys options)] =>
      assert (Hinner : for_each body [] (Dict.keys options) = Ok options)
  end.
  { refine (for_each_rebuild _ options Hndo _ [] _);
      [|intros k _; apply not_elem_of_nil].
    intros acc' k v Hkv. cbn beta. by rewrite (Hvals k v Hkv). }
  by rewrite Hinner.
Qed.

Lemma lowered_keys (doc : document) : Dict.keys (lowered doc) = Dict.keys doc.
Proof.
  unfold Dict.keys, lowered. rewrite <- list_fmap_compose.
  by apply list_fmap_ext.
Qed.

Lemma lowered_options_keys (options : odict pystr pystr) :
  Dict.keys (lowered_options options) = lower <$> Dict.keys options.
Proof.
  unfold Dict.keys, lowered_options. rewrite <- !list_fmap_compose.
  by apply list_fmap_ext.
Qed.

(** Reading back what [create_cfg] wrote for a readable document gives the
    document with its option names in lower case. *)
Lemma read_back_lowered (fs : gmap pystr pystr) (file : pystr) (doc : document) :
  readable doc = true ->
  read_cfg (create_cfg fs file doc) file = Ok (lowered doc).
Proof.
  intros [Hnd Hok]%readable_spec.
  unfold read_cfg, create_cfg, ConfigParser.read.
  rewrite lookup_insert_eq, (lines_written doc Hok).
  destruct (reading_document doc [] ConfigParser.fresh 1 reading_fresh Hnd Hok)
    as (st & Hrun & Hr).
  unfold ConfigParser._read. rewrite Hrun. simpl.
  rewrite (reading_errors _ _ Hr), bool_decide_eq_true_2 by reflexivity.
  simpl. unfold ConfigParser._join_multiline_values.
  rewrite (reading_defaults _ _ Hr).
  rewrite (join_sections_raw doc _).
  - apply read_loops.
    + by rewrite lowered_keys.
    + unfold lowered. apply Forall_fmap.
      eapply Forall_impl; [exact Hok|].
      intros [s options] [_ [Hndo Hopts]%options_ok_spec]. simpl in *.
      split; [by rewrite lowered_options_keys|].
      unfold lowered_options. apply Forall_fmap.
      eapply Forall_impl; [exact Hopts|].
      intros [o v] [_ (_ & _ & _ & Hpc)%value_ok_spec]. simpl in *.
      split; [apply lower_idemp | exact Hpc].
  - eapply Forall_impl; [exact Hok|].
    intros [s options] [_ [_ Hopts]%options_ok_spec]. simpl in *.
    eapply Forall_impl; [exact Hopts|].
    by intros [o v] [_ (_ & _ & Hr' & _)%value_ok_spec].
  - exact (reading_sections _ _ Hr).
Qed.

Lemma lowered_options_id (options : odict pystr pystr) :
  forallb (fun ov => bool_decide (lower ov.1 = ov.1)) options = true ->
  lowered_options options = options.
Proof.
  unfold lowered_options.
  induction options as [|[o v] options IH]; [reflexivity|].
  cbn [forallb fst]. intros [Ho Hrest]%andb_true_iff.
  apply bool_decide_eq_true in Ho. rewrite fmap_cons, (IH Hrest).
  cbn [fst snd]. by rewrite Ho.
Qed.

Lemma lowered_id (doc : document) :
  lower_case_options doc = true -> lowered doc = doc.
Proof.
  unfold lower_case_options, lowered.
  induction doc as [|[s options] doc IH]; [reflexivity|].
  cbn [forallb snd]. intros [Ho Hrest]%andb_true_iff.
  rewrite fmap_cons, (IH Hrest). cbn [fst snd].
  by rewrite (lowered_options_id options Ho).
Qed.

(** C1, as the code behaves: a document is read back as it was written
    when, besides values without [=] and newline, its section names are
    distinct, non-empty, on one line and not [DEFAULT]; its option names
    are distinct in each section, in lower case, non-empty, on one line,
    without white space at either end, without [=] or [:], and do not start
    with [#], [;] or the opening bracket; and its values have no white space
    at either end and no [%]. *)
Theorem create_then_read_roundtrip
    (fs : gmap pystr pystr) (file : pystr) (doc : document) :
  plain_values doc = true ->
  readable doc = true ->
  lower_case_options doc = true ->
  read_cfg (create_cfg fs file doc) file = Ok doc.
Proof.
  intros _ Hread Hlow. rewrite (read_back_lowered fs file doc Hread).
  by rewrite (lowered_id doc Hlow).
Qed.

Lemma create_then_read_roundtrip_witness :
  read_cfg (create_cfg ∅ (str "app.cfg") site_document) (str "app.cfg")
  = Ok site_document.
Proof.
  apply create_then_read_roundtrip; vm_compute; reflexivity.
Defined.

(** C1 as the specification states it fails: the value [ localhost], which
    holds no [=] and no newline, is read back as [localhost]. *)
Lemma roundtrip_counterexample :
  is_mapping padded_document
  /\ plain_values padded_document = true
  /\ read_cfg (create_cfg ∅ (str "app.cfg") padded_document) (str "app.cfg")
     = Ok [(str "server", [(str "host", str "localhost")])]
  /\ ~ same_document padded_document
                     [(str "server", [(str "host", str "localhost")])].
Proof.
  split; [|split; [|split]].
  - split; repeat constructor; by intros ?%elem_of_nil.
  - reflexivity.
  - vm_compute. reflexivity.
  - intros (_ & _ & Hval).
    specialize (Hval (str "server") (str "host")). vm_compute in Hval.
    discriminate Hval.
Qed.

(** ** Option names come back in lower case *)

Lemma for_each_invariant {A S : Type} (I : S -> Prop)
    (body : S -> A -> result S) (xs : list A) :
  (forall s x s', x ∈ xs -> I s -> body s x = Ok s' -> I s') ->
  forall s s', I s -> for_each body s xs = Ok s' -> I s'.
Proof.
  induction xs as [|x xs IH]; intros Hbody s s' Hs Hrun; simpl in Hrun.
  - by injection Hrun as <-.
  - destruct (body s x) as [s1|err] eqn:Hstep; [|discriminate].
    simpl in Hrun. apply (IH (fun s0 y s1' Hy => Hbody s0 y s1' (list_elem_of_further _ _ _ Hy))
                             s1 s'); [|exact Hrun].
    apply (Hbody s x s1); [by left | exact Hs | exact Hstep].
Qed.

Section lower_case_keys.
Context {V : Type}.
Implicit Types (d : odict pystr V).

Lemma keys_lower_case_set d (k : pystr) (v : V) :
  keys_lower_case d -> lower_case k -> keys_lower_case (Dict.set d k v).
Proof.
  unfold keys_lower_case. intros Hd Hk. rewrite dict_keys_set.
  destruct (bool_decide (k ∈ Dict.keys d)); [exact Hd|].
  apply Forall_app. split; [exact Hd | by constructor].
Qed.

Lemma keys_lower_case_get d (k : pystr) (v : V) :
  keys_lower_case d -> Dict.get d k = Some v -> lower_case k.
Proof.
  unfold keys_lower_case. rewrite Forall_forall. intros Hd Hget.
  apply Hd. apply dict_get_Some_elem in Hget.
  apply list_elem_of_fmap. by exists (k, v).
Qed.

End lower_case_keys.

Lemma dict_set_Forall_snd {K V : Type} `{EqDecision K} (Q : V -> Prop)
    (d : odict K V) (k : K) (v : V) :
  Forall (fun kv => Q kv.2) d -> Q v -> Forall (fun kv => Q kv.2) (Dict.set d k v).
Proof.
  intros Hd Hv. induction Hd as [|[k' v'] d Hq Hd IH]; simpl.
  - by constructor.
  - destruct (decide (k = k')); constructor; auto.
Qed.

Lemma dict_get_Forall_snd {K V : Type} `{EqDecision K} (Q : V -> Prop)
    (d : odict K V) (k : K) (v : V) :
  Forall (fun kv => Q kv.2) d -> Dict.get d k = Some v -> Q v.
Proof.
  rewrite Forall_forall. intros Hd Hget.
  apply dict_get_Some_elem in Hget. exact (Hd _ Hget).
Qed.

Lemma store_lower_case (st st' : ConfigParser.reader)
    (ref : ConfigParser.sect_ref) (optname : pystr) (val : list pystr) :
  reader_lower_case st -> lower_case optname ->
  ConfigParser.store st ref optname val = Ok st' ->
  reader_lower_case st'.
Proof.
  intros [Hdef Hsec] Hk. unfold ConfigParser.store.
  destruct ref as [|name]; simpl.
  - intros [= <-]. split; simpl; [by apply keys_lower_case_set | exact Hsec].
  - destruct (Dict.get (ConfigParser.sections_raw st) name) as [d|] eqn:Hget;
      [|discriminate].
    intros [= <-]. split; simpl; [exact Hdef|].
    apply (dict_set_Forall_snd keys_lower_case); [exact Hsec|].
    apply keys_lower_case_set; [|exact Hk].
    exact (dict_get_Forall_snd keys_lower_case _ _ _ Hsec Hget).
Qed.

Lemma append_line_lower_case (st st' : ConfigParser.reader)
    (ref : ConfigParser.sect_ref) (optname line : pystr) :
  reader_lower_case st ->
  ConfigParser.append_line st ref optname line = Ok st' ->
  reader_lower_case st'.
Proof.
  intros Hst. unfold ConfigParser.append_line.
  destruct (ConfigParser.deref st ref) as [d|] eqn:Hd; simpl; [|discriminate].
  destruct (Dict.get d optname) as [val|] eqn:Hget; [|discriminate].
  apply store_lower_case; [exact Hst|].
  apply (keys_lower_case_get d optname val); [|exact Hget].
  destruct Hst as [Hdef Hsec]. destruct ref as [|name]; simpl in Hd.
  - by injection Hd as <-.
  - exact (dict_get_Forall_snd keys_lower_case _ _ _ Hsec Hd).
Qed.

Lemma enter_section_lower_case (st st' : ConfigParser.reader)
    (cur_indent_level : nat) (name : pystr) :
  reader_lower_case st ->
  ConfigParser.enter_section st cur_indent_level name = Ok st' ->
  reader_lower_case st'.
Proof.
  intros [Hdef Hsec]. unfold ConfigParser.enter_section.
  destruct (Dict.mem _ name).
  - destruct (_ && _); [discriminate|]. intros [= <-]. by split.
  - destruct (bool_decide (name = ConfigParser.DEFAULTSECT)); intros [= <-].
    + by split.
    + split; simpl; [exact Hdef|].
      apply (dict_set_Forall_snd keys_lower_case); [exact Hsec | constructor].
Qed.

Lemma enter_option_lower_case (st st' : ConfigParser.reader)
    (ref : ConfigParser.sect_ref) (cur_indent_level lineno : nat) (value : pystr) :
  reader_lower_case st ->
  ConfigParser.enter_option st ref cur_indent_level lineno value = Ok st' ->
  reader_lower_case st'.
Proof.
  intros Hst. unfold ConfigParser.enter_option.
  destruct (ConfigParser.OPTCRE_match value) as [[optname0 optval]|].
  - destruct (_ && _); [discriminate|].
    apply store_lower_case; [exact Hst|].
    unfold lower_case, ConfigParser.optionxform. apply lower_idemp.
  - by intros [= <-].
Qed.

Lemma read_line_lower_case (st st' : ConfigParser.reader) (lineno : nat)
    (line : pystr) :
  reader_lower_case st ->
  ConfigParser.read_line st lineno line = Ok st' ->
  reader_lower_case st'.
Proof.
  intros Hst. unfold ConfigParser.read_line.
  set (value := strip _). set (cur := default 0 _).
  assert (Hhead :
    match ConfigParser.SECTCRE_match value with
    | Some name => ConfigParser.enter_section st cur name
    | None =>
        match ConfigParser.cursect st with
        | Some ref => ConfigParser.enter_option st ref cur lineno value
        | None => Raise MissingSectionHeaderError
        end
    end = Ok st' -> reader_lower_case st').
  { destruct (ConfigParser.SECTCRE_match value) as [name|].
    - by apply enter_section_lower_case.
    - destruct (ConfigParser.cursect st) as [ref|]; [|discriminate].
      by apply enter_option_lower_case. }
  destruct (negb (truthy value)).
  - destruct (ConfigParser.is_comment line); simpl.
    + destruct (ConfigParser.cursect st), (ConfigParser.optname st);
        by intros [= <-].
    + destruct (ConfigParser.cursect st) as [ref|]; [|by intros [= <-]].
      destruct (ConfigParser.optname st) as [opt|]; [|by intros [= <-]].
      destruct (truthy opt); [|by intros [= <-]].
      by apply append_line_lower_case.
  - destruct (ConfigParser.cursect st) as [ref|] eqn:Hcur; [|exact Hhead].
    destruct (ConfigParser.optname st) as [opt|]; [|exact Hhead].
    destruct (_ && _); [|exact Hhead].
    by apply append_line_lower_case.
Qed.

Lemma read_lines_lower_case (fp : list pystr) :
  forall (st st' : ConfigParser.reader) (lineno : nat),
  reader_lower_case st ->
  ConfigParser.read_lines st lineno fp = Ok st' ->
  reader_lower_case st'.
Proof.
  induction fp as [|line fp IH]; intros st st' lineno Hst; simpl.
  - by intros [= <-].
  - destruct (ConfigParser.read_line st lineno line) as [st1|err] eqn:Hstep;
      [|discriminate].
    simpl. apply IH. by eapply read_line_lower_case.
Qed.

Lemma join_options_keys (options : odict pystr (list pystr)) :
  Dict.keys (ConfigParser.join_options options) = Dict.keys options.
Proof.
  unfold Dict.keys, ConfigParser.join_options. rewrite <- list_fmap_compose.
  by apply list_fmap_ext.
Qed.

Lemma read_lower_case (fs : gmap pystr pystr) (filename : pystr)
    (config : ConfigParser.parser) :
  ConfigParser.read fs filename = Ok config -> parser_lower_case config.
Proof.
  unfold ConfigParser.read.
  destruct (fs !! filename) as [content|].
  2:{ intros [= <-]. split; simpl; constructor. }
  unfold ConfigParser._read.
  destruct (ConfigParser.read_lines _ _ _) as [st|err] eqn:Hrun; [|discriminate].
  simpl. destruct (bool_decide _); [|discriminate]. intros [= <-].
  assert (Hst : reader_lower_case st).
  { eapply read_lines_lower_case; [|exact Hrun]. split; simpl; constructor. }
  destruct Hst as [Hdef Hsec]. split; simpl.
  - unfold keys_lower_case. by rewrite join_options_keys.
  - apply Forall_fmap. eapply Forall_impl; [exact Hsec|].
    intros [s options] Ho. simpl in *.
    unfold keys_lower_case. by rewrite join_options_keys.
Qed.

Lemma options_lower_case (config : ConfigParser.parser) (section : pystr)
    (options : list pystr) :
  parser_lower_case config ->
  ConfigParser.options config section = Ok options ->
  Forall lower_case options.
Proof.
  intros [Hdef Hsec]. unfold ConfigParser.options.
  destruct (Dict.get _ section) as [opts|] eqn:Hget; [|discriminate].
  intros [= <-]. apply Forall_forall. intros k Hk.
  apply dict_keys_update in Hk as [Hk|Hk].
  - pose proof (dict_get_Forall_snd keys_lower_case _ _ _ Hsec Hget) as Ho.
    unfold keys_lower_case in Ho. rewrite Forall_forall in Ho. by apply Ho.
  - unfold keys_lower_case in Hdef. rewrite Forall_forall in Hdef. by apply Hdef.
Qed.

(** The names in the document [read_cfg] returns are in lower case. *)
Lemma read_cfg_lower_case (fs : gmap pystr pystr) (file : pystr) (doc : document) :
  read_cfg fs file = Ok doc -> Forall (fun so => keys_lower_case so.2) doc.
Proof.
  unfold read_cfg.
  destruct (ConfigParser.read fs file) as [config|err] eqn:Hread; [|discriminate].
  simpl. apply read_lower_case in Hread.
  apply for_each_invariant; [|constructor].
  intros acc section acc' _ Hacc.
  destruct (ConfigParser.options config section) as [options|err] eqn:Hopts;
    [|discriminate].
  simpl. pose proof (options_lower_case _ _ _ Hread Hopts) as Hlow.
  destruct (for_each _ [] options) as [options_dict|err] eqn:Hinner;
    [|discriminate].
  simpl. intros [= <-].
  apply (dict_set_Forall_snd keys_lower_case); [exact Hacc|].
  revert Hinner. apply for_each_invariant; [|constructor].
  intros od k od' Hk Hod.
  destruct (ConfigParser.get config section k) as [value|err]; [|discriminate].
  simpl. intros [= <-]. apply keys_lower_case_set; [exact Hod|].
  rewrite Forall_forall in Hlow. by apply Hlow.
Qed.

(** C8, as the code behaves: every option name in the document returned by
    [read_cfg] is in lower case, whatever the file holds; and a readable
    document written by [create_cfg] is read back with its option names
    turned to lower case, so that a name comes back as it was stored only
    when it held no capital. *)
Theorem read_cfg_option_names_lower_case :
  (forall (fs : gmap pystr pystr) (file : pystr) (doc : document),
     read_cfg fs file = Ok doc ->
     forall section options name value,
       (section, options) ∈ doc -> (name, value) ∈ options ->
       lower name = name)
  /\ (forall (fs : gmap pystr pystr) (file : pystr) (doc : document),
       readable doc = true ->
       read_cfg (create_cfg fs file doc) file = Ok (lowered doc)).
Proof.
  split.
  - intros fs file doc Hread section options name value Hs Ho.
    pose proof (read_cfg_lower_case fs file doc Hread) as Hall.
    rewrite Forall_forall in Hall. specialize (Hall _ Hs). simpl in Hall.
    unfold keys_lower_case in Hall. rewrite Forall_forall in Hall.
    apply Hall. apply list_elem_of_fmap. by exists (name, value).
  - exact read_back_lowered.
Qed.

Lemma read_cfg_option_names_lower_case_witness :
  lower (str "host") = str "host"
  /\ read_cfg (create_cfg ∅ (str "app.cfg") capital_document) (str "app.cfg")
     = Ok [(str "server", [(str "host", str "localhost")])].
Proof.
  split.
  - assert (Hread :
      read_cfg {[ str "app.cfg" := text ["[server]"; "Host=localhost"] ]}
               (str "app.cfg")
      = Ok [(str "server", [(str "host", str "localhost")])])
      by (vm_compute; reflexivity).
    assert (Hs : (str "server", [(str "host", str "localhost")])
                 ∈ [(str "server", [(str "host", str "localhost")])])
      by (by left).
    assert (Ho : (str "host", str "localhost")
                 ∈ [(str "host", str "localhost")])
      by (by left).
    exact (proj1 read_cfg_option_names_lower_case _ _ _ Hread _ _ _ _ Hs Ho).
  - assert (Hok : readable capital_document = true)
      by (vm_compute; reflexivity).
    exact (proj2 read_cfg_option_names_lower_case ∅ (str "app.cfg")
             capital_document Hok).
Defined.

(** C8 as the specification states it fails: the option stored as [Host]
    comes back as [host]. *)
Lemma option_name_counterexample :
  read_cfg {[ str "app.cfg" := text ["[server]"; "Host=localhost"] ]}
           (str "app.cfg")
  = Ok [(str "server", [(str "host", str "localhost")])]
  /\ str "host" ≠ str "Host".
Proof. split; [vm_compute; reflexivity | discriminate]. Qed.

(** * Further properties *)

(** ** backup: the name of the copy *)

Lemma rindex_app_last (stem ext : pystr) (c : ascii) :
  c ∉ ext -> rindex (stem ++ c :: ext) c = Some (length stem).
Proof.
  intros Hext.
  assert (Hnone : rindex ext c = None).
  { induction ext as [|x ext IH]; [reflexivity|].
    apply not_elem_of_cons in Hext as [Hx Hext]. simpl.
    rewrite (IH Hext). by rewrite bool_decide_eq_false_2. }
  induction stem as [|y stem IH]; simpl.
  - rewrite Hnone. by rewrite bool_decide_eq_true_2.
  - by rewrite IH.
Qed.

Lemma rindex_absent (s : pystr) (c : ascii) : c ∉ s -> rindex s c = None.
Proof.
  induction s as [|x s IH]; intros H; [reflexivity|].
  apply not_elem_of_cons in H as [Hx Hs]. simpl.
  rewrite (IH Hs). by rewrite bool_decide_eq_false_2.
Qed.

Lemma zfill_two_digits (n : nat) :
  n < 100 ->
  exists a b, zfill 2 n = [a; b] /\ is_digit a = true /\ is_digit b = true.
Proof.
  intros Hn.
  assert (Hall : forallb
            (fun k => match zfill 2 k with
                      | [a; b] => is_digit a && is_digit b
                      | _ => false
                      end) (seq 0 100) = true) by (vm_compute; reflexivity).
  rewrite forallb_forall in Hall.
  assert (Hin : In n (seq 0 100)) by (apply in_seq; lia).
  specialize (Hall n Hin).
  destruct (zfill 2 n) as [|a [|b [|? ?]]]; try discriminate.
  apply andb_true_iff in Hall as [Ha Hb]. by exists a, b.
Qed.

Lemma zfill_four_digits (n : nat) :
  1000 <= n < 100 * 100 ->
  exists a b c d,
    zfill 4 n = [a; b; c; d]
    /\ is_digit a = true /\ is_digit b = true
    /\ is_digit c = true /\ is_digit d = true.
Proof.
  intros Hn.
  assert (Hall : forallb
            (fun k => match zfill 4 k with
                      | [a; b; c; d] =>
                          is_digit a && is_digit b && is_digit c && is_digit d
                      | _ => false
                      end) (seq 1000 (90 * 100)) = true) by (vm_compute; reflexivity).
  rewrite forallb_forall in Hall.
  assert (Hin : In n (seq 1000 (90 * 100))) by (apply in_seq; lia).
  specialize (Hall n Hin).
  destruct (zfill 4 n) as [|a [|b [|c [|d [|? ?]]]]]; try discriminate.
  do 3 (apply andb_true_iff in Hall as [Hall ?]). exists a, b, c, d.
  split; [reflexivity | tauto].
Qed.

Lemma strftime_shape (now : datetime) :
  valid_clock now -> timestamp_shape (strftime now) = true.
Proof.
  intros (Hy & Hm & Hd & Hh & Hn). unfold strftime.
  destruct (zfill_four_digits (year now) Hy)
    as (y1 & y2 & y3 & y4 & -> & ? & ? & ? & ?).
  destruct (zfill_two_digits (month now)) as (m1 & m2 & -> & ? & ?); [lia|].
  destruct (zfill_two_digits (day now)) as (d1 & d2 & -> & ? & ?); [lia|].
  destruct (zfill_two_digits (hour now)) as (h1 & h2 & -> & ? & ?); [lia|].
  destruct (zfill_two_digits (minute now)) as (n1 & n2 & -> & ? & ?); [lia|].
  unfold str. cbn [list_ascii_of_string app timestamp_shape forallb].
  repeat match goal with
         | H : is_digit _ = true |- _ => rewrite H; clear H
         end.
  reflexivity.
Qed.

(** X1: called with a file alone, on a sensible clock, [backup] copies to a
    name of the shape [YYYY-MM-DD HHhMM] followed by what the path holds
    from its last dot on (nothing when it holds no dot), in the current
    directory: no separator is put in front. *)
Theorem backup_default_name (os : system) (now : datetime) (file : pystr) :
  valid_clock now ->
  timestamp_shape (strftime now) = true
  /\ (forall stem ext, file = stem ++ "."%char :: ext -> "."%char ∉ ext ->
       resolve_name now file [] = strftime now ++ "."%char :: ext)
  /\ ("."%char ∉ file -> resolve_name now file [] = strftime now)
  /\ exists later,
       (backup os now file [] []).1 = Copy file (resolve_name now file []) :: later.
Proof.
  intros Hclock. split; [by apply strftime_shape|]. split; [|split].
  - intros stem ext -> Hext. unfold resolve_name, extension. simpl.
    rewrite (rindex_app_last stem ext _ Hext). by rewrite drop_app_length.
  - intros Hfile. unfold resolve_name, extension. simpl.
    rewrite (rindex_absent file _ Hfile). by rewrite app_nil_r.
  - exact (backup_starts_with_copy os now file [] []).
Qed.

Lemma backup_default_name_witness :
  timestamp_shape (strftime a_clock) = true
  /\ resolve_name a_clock (str "archive.tar.gz") [] = str "2024-03-07 09h05.gz"
  /\ resolve_name a_clock (str "README") [] = str "2024-03-07 09h05".
Proof.
  assert (Hclock : valid_clock a_clock) by (unfold valid_clock; simpl; lia).
  destruct (backup_default_name os_fine a_clock (str "archive.tar.gz") Hclock)
    as (Hshape & Hext & _).
  destruct (backup_default_name os_fine a_clock (str "README") Hclock)
    as (_ & _ & Hnone & _).
  split; [exact Hshape|]. split.
  - apply (Hext (str "archive.tar") (str "gz")); [reflexivity|].
    by apply (bool_decide_eq_false_1 ("."%char ∈ str "gz")).
  - apply Hnone. by apply (bool_decide_eq_false_1 ("."%char ∈ str "README")).
Defined.

(** ** backup: the other paths through try, except and finally *)

(** X2: when the first copy raises FileNotFoundError and [os.makedirs]
    succeeds, [backup] makes three calls, copy, makedirs, copy, and ends as
    the second copy ends. *)
Theorem backup_creates_directory
    (os : system) (now : datetime) (file output_path backup_name : pystr) :
  os [] (Copy file (normalize output_path ++ resolve_name now file backup_name))
  = Some FileNotFoundError ->
  os [Copy file (normalize output_path ++ resolve_name now file backup_name)]
     (Makedirs (normalize output_path))
  = None ->
  backup os now file output_path backup_name
  = ([Copy file (normalize output_path ++ resolve_name now file backup_name);
      Makedirs (normalize output_path);
      Copy file (normalize output_path ++ resolve_name now file backup_name)],
     match
       os [Copy file (normalize output_path ++ resolve_name now file backup_name);
           Makedirs (normalize output_path)]
          (Copy file (normalize output_path ++ resolve_name now file backup_name))
     with
     | Some err => Raise err
     | None => Ok tt
     end).
Proof.
  intros H1 H2. unfold backup, try_finally, try_except, perform, print.
  simpl. rewrite H1. simpl. rewrite H2. simpl.
  destruct (os [_; _] (Copy file _)); reflexivity.
Qed.

Lemma backup_creates_directory_witness :
  backup os_new_directory a_clock (str "report.csv") (str "backups") (str "copy.csv")
  = ([Copy (str "report.csv") (str "backups/copy.csv");
      Makedirs (str "backups/");
      Copy (str "report.csv") (str "backups/copy.csv")],
     Ok tt).
Proof.
  exact (backup_creates_directory os_new_directory a_clock
           (str "report.csv") (str "backups") (str "copy.csv")
           eq_refl eq_refl).
Defined.

(** X3: when the first copy raises anything but FileNotFoundError,
    [backup] does not call [os.makedirs]: it copies once more, and raises
    the exception of that second copy or, if it succeeds, the exception of
    the first. *)
Theorem backup_copy_error_not_handled
    (os : system) (now : datetime) (file output_path backup_name : pystr)
    (err : exn) :
  os [] (Copy file (normalize output_path ++ resolve_name now file backup_name))
  = Some err ->
  err ≠ FileNotFoundError ->
  backup os now file output_path backup_name
  = ([Copy file (normalize output_path ++ resolve_name now file backup_name);
      Copy file (normalize output_path ++ resolve_name now file backup_name)],
     match
       os [Copy file (normalize output_path ++ resolve_name now file backup_name)]
          (Copy file (normalize output_path ++ resolve_name now file backup_name))
     with
     | Some err2 => Raise err2
     | None => Raise err
     end).
Proof.
  intros H1 Hne. unfold backup, try_finally, try_except, perform, print.
  simpl. rewrite H1. simpl. rewrite (bool_decide_eq_false_2 _ Hne). simpl.
  destruct (os [_] (Copy file _)); reflexivity.
Qed.

Lemma backup_copy_error_not_handled_witness :
  backup os_unreadable a_clock (str "report.csv") (str "backups") (str "copy.csv")
  = ([Copy (str "report.csv") (str "backups/copy.csv");
      Copy (str "report.csv") (str "backups/copy.csv")],
     Raise PermissionError).
Proof.
  exact (backup_copy_error_not_handled os_unreadable a_clock
           (str "report.csv") (str "backups") (str "copy.csv")
           PermissionError eq_refl ltac:(discriminate)).
Defined.

(** X4: when [os.makedirs] raises anything but PermissionError, nothing is
    printed; [backup] still copies once more, and raises the exception of
    that copy or, if it succeeds, the exception of [os.makedirs]. *)
Theorem backup_makedirs_error_propagates
    (os : system) (now : datetime) (file output_path backup_name : pystr)
    (err : exn) :
  os [] (Copy file (normalize output_path ++ resolve_name now file backup_name))
  = Some FileNotFoundError ->
  os [Copy file (normalize output_path ++ resolve_name now file backup_name)]
     (Makedirs (normalize output_path))
  = Some err ->
  err ≠ PermissionError ->
  backup os now file output_path backup_name
  = ([Copy file (normalize output_path ++ resolve_name now file backup_name);
      Makedirs (normalize output_path);
      Copy file (normalize output_path ++ resolve_name now file backup_name)],
     match
       os [Copy file (normalize output_path ++ resolve_name now file backup_name);
           Makedirs (normalize output_path)]
          (Copy file (normalize output_path ++ resolve_name now file backup_name))
     with
     | Some err2 => Raise err2
     | None => Raise err
     end).
Proof.
  intros H1 H2 Hne. unfold backup, try_finally, try_except, perform, print.
  simpl. rewrite H1. simpl. rewrite H2. simpl.
  rewrite (bool_decide_eq_false_2 _ Hne). simpl.
  destruct (os [_; _] (Copy file _)); reflexivity.
Qed.

Lemma backup_makedirs_error_propagates_witness :
  backup os_broken a_clock (str "report.csv") (str "backups") (str "copy.csv")
  = ([Copy (str "report.csv") (str "backups/copy.csv");
      Makedirs (str "backups/");
      Copy (str "report.csv") (str "backups/copy.csv")],
     Raise FileNotFoundError).
Proof.
  exact (backup_makedirs_error_propagates os_broken a_clock
           (str "report.csv") (str "backups") (str "copy.csv")
           OSError eq_refl eq_refl ltac:(discriminate)).
Defined.

(** The four runs of [backup]. *)
Lemma backup_cases
    (os : system) (now : datetime) (file output_path backup_name : pystr) :
  let C := Copy file (normalize output_path ++ resolve_name now file backup_name) in
  let M := Makedirs (normalize output_path) in
  let answer (before : list call) (pending : result unit) :=
    (before ++ [C],
     match os before C with Some err => Raise err | None => pending end) in
  backup os now file output_path backup_name
  = match os [] C with
    | None => answer [C] (Ok tt)
    | Some err =>
        if bool_decide (err = FileNotFoundError) then
          match os [C] M with
          | None => answer [C; M] (Ok tt)
          | Some err' =>
              if bool_decide (err' = PermissionError)
              then answer [C; M; Print message] (Ok tt)
              else answer [C; M] (Raise err')
          end
        else answer [C] (Raise err)
    end.
Proof.
  intros C M answer. unfold backup, try_finally, try_except, perform, print.
  fold C. fold M. subst answer. simpl.
  destruct (os [] C) as [err|]; simpl.
  - destruct (bool_decide (err = FileNotFoundError)); simpl.
    + destruct (os [C] M) as [err'|]; simpl.
      * destruct (bool_decide (err' = PermissionError)); simpl.
        -- destruct (os [C; M; Print message] C); reflexivity.
        -- destruct (os [C; M] C); reflexivity.
      * destruct (os [C; M] C); reflexivity.
    + destruct (os [C] C); reflexivity.
  - destruct (os [C] C); reflexivity.
Qed.

(** X5: whatever the system answers, [backup] calls [shutil.copy] exactly
    twice, with the same arguments, calls [os.makedirs] at most once, and
    only after a FileNotFoundError of the first copy, and prints its
    message only after a PermissionError of [os.makedirs]. *)
Theorem backup_calls_shape
    (os : system) (now : datetime) (file output_path backup_name : pystr) :
  let C := Copy file (normalize output_path ++ resolve_name now file backup_name) in
  let M := Makedirs (normalize output_path) in
  let calls := (backup os now file output_path backup_name).1 in
  (calls = [C; C] \/ calls = [C; M; C] \/ calls = [C; M; Print message; C])
  /\ (M ∈ calls <-> os [] C = Some FileNotFoundError)
  /\ (Print message ∈ calls <->
      os [] C = Some FileNotFoundError /\ os [C] M = Some PermissionError).
Proof.
  intros C M calls. subst calls. rewrite backup_cases. fold C. fold M.
  assert (HMC : M ≠ C) by discriminate.
  assert (HPC : Print message ≠ C) by discriminate.
  assert (HPM : Print message ≠ M) by discriminate.
  assert (Hin2 : forall x, x ∈ [C; C] -> x = C).
  { intros x Hx. repeat (apply elem_of_cons in Hx as [Hx|Hx]; [done|]).
    by apply elem_of_nil in Hx. }
  assert (Hin3 : forall x, x ∈ [C; M; C] -> x = C \/ x = M).
  { intros x Hx. apply elem_of_cons in Hx as [Hx|Hx]; [by left|].
    apply elem_of_cons in Hx as [Hx|Hx]; [by right|].
    apply elem_of_cons in Hx as [Hx|Hx]; [by left|].
    by apply elem_of_nil in Hx. }
  destruct (os [] C) as [err|]; simpl.
  - destruct (decide (err = FileNotFoundError)) as [->|Hne].
    + rewrite bool_decide_eq_true_2 by done.
      destruct (os [C] M) as [err'|]; simpl.
      * destruct (decide (err' = PermissionError)) as [->|Hne'].
        -- rewrite bool_decide_eq_true_2 by done. simpl.
           split; [by right; right|]. split.
           ++ split; [done|]. intros _. right. by left.
           ++ split; [done|]. intros _. do 2 right. by left.
        -- rewrite bool_decide_eq_false_2 by done. simpl.
           split; [by right; left|]. split.
           ++ split; [done|]. intros _. right. by left.
           ++ split.
              ** intros [?|?]%Hin3; done.
              ** intros [_ [= ?]]. done.
      * split; [by right; left|]. split.
        -- split; [done|]. intros _. right. by left.
        -- split.
           ++ intros [?|?]%Hin3; done.
           ++ intros [_ [=]].
    + rewrite bool_decide_eq_false_2 by done. simpl.
      split; [by left|]. split.
      * split; [by intros ?%Hin2 | intros [= ?]; done].
      * split; [by intros ?%Hin2 | intros [[= ?] _]; done].
  - split; [by left|]. split.
    + split; [by intros ?%Hin2 | done].
    + split; [by intros ?%Hin2 | by intros [? _]].
Qed.

(** X6: when [backup] returns without an exception, its last call was a
    copy that succeeded. *)
Theorem backup_returns_after_copy
    (os : system) (now : datetime) (file output_path backup_name : pystr) :
  (backup os now file output_path backup_name).2 = Ok tt ->
  exists before,
    (backup os now file output_path backup_name).1
    = before
      ++ [Copy file (normalize output_path ++ resolve_name now file backup_name)]
    /\ os before
          (Copy file (normalize output_path ++ resolve_name now file backup_name))
       = None.
Proof.
  rewrite backup_cases. cbv zeta.
  set (C := Copy file _). set (M := Makedirs _).
  destruct (os [] C) as [err|].
  - destruct (bool_decide (err = FileNotFoundError)).
    + destruct (os [C] M) as [err'|].
      * destruct (bool_decide (err' = PermissionError)); simpl.
        -- destruct (os [C; M; Print message] C) eqn:Hlast; [discriminate|].
           intros _. by exists [C; M; Print message].
        -- destruct (os [C; M] C) eqn:Hlast; discriminate.
      * simpl. destruct (os [C; M] C) eqn:Hlast; [discriminate|].
        intros _. by exists [C; M].
    + simpl. destruct (os [C] C) eqn:Hlast; discriminate.
  - simpl. destruct (os [C] C) eqn:Hlast; [discriminate|].
    intros _. by exists [C].
Qed.

Lemma backup_returns_after_copy_witness :
  exists before,
    (backup os_new_directory a_clock (str "report.csv") (str "backups")
            (str "copy.csv")).1
    = before ++ [Copy (str "report.csv") (str "backups/copy.csv")]
    /\ os_new_directory before
         (Copy (str "report.csv") (str "backups/copy.csv")) = None.
Proof.
  exact (backup_returns_after_copy os_new_directory a_clock
           (str "report.csv") (str "backups") (str "copy.csv") eq_refl).
Defined.

(** ** check_hash: unreadable files, order, and the two modes *)




(** The boolean [check_hash] returns for several readable files: whether
    all the digests are equal. *)
Lemma check_hash_all_equal (fs : gmap pystr (list byte)) (files : list pystr) :
  1 < length files ->
  (forall file, file ∈ files -> is_Some (fs !! file)) ->
  exists b,
    (check_hash fs files).2 = Ok (Bool b)
    /\ (b = true <->
        forall f g, f ∈ files -> g ∈ files -> digest_at fs f = digest_at fs g).
Proof.
  intros Hlen Hread. destruct files as [|first rest]; [simpl in Hlen; lia|].
  destruct (Hread first) as [content0 Hc0]; [by left|].
  assert (Hd0 : digest_at fs first = Some (sha256 content0))
    by (unfold digest_at; by rewrite Hc0).
  unfold check_hash. rewrite (bool_decide_eq_true_2 _ Hlen).
  simpl. rewrite Hc0. fold (sha256 content0).
  destruct (compare_seen fs (sha256 content0) rest [first])
    as [[Hall Hrun]|(pre & f & post & -> & Hpre & Hf & Hrun)].
  { intros f Hf. apply Hread. by right. }
  - rewrite Hrun. exists true. split; [reflexivity|]. split; [|done].
    intros _. rewrite Forall_forall in Hall.
    assert (Hevery : forall f, f ∈ first :: rest ->
              digest_at fs f = Some (sha256 content0)).
    { intros f [->|Hf]%elem_of_cons; [done | by apply Hall]. }
    intros f g Hf Hg. by rewrite (Hevery f Hf), (Hevery g Hg).
  - rewrite Hrun. exists false. split; [reflexivity|].
    split; [discriminate|]. intros Hall. exfalso. apply Hf.
    rewrite <- Hd0. apply Hall; [|by left].
    right. apply elem_of_app. right. by left.
Qed.

(** X8: for several readable files, the boolean [check_hash] returns does
    not depend on the order in which the files are given. *)
Theorem check_hash_order
    (fs : gmap pystr (list byte)) (files files' : list pystr) :
  1 < length files ->
  (forall file, file ∈ files -> is_Some (fs !! file)) ->
  files ≡ₚ files' ->
  (check_hash fs files).2 = (check_hash fs files').2.
Proof.
  intros Hlen Hread Hperm.
  assert (Hlen' : 1 < length files') by (by rewrite <- Hperm).
  assert (Hread' : forall file, file ∈ files' -> is_Some (fs !! file)).
  { intros f Hf. apply Hread. by rewrite Hperm. }
  destruct (check_hash_all_equal fs files Hlen Hread) as (b & -> & Hb).
  destruct (check_hash_all_equal fs files' Hlen' Hread') as (b' & -> & Hb').
  do 2 f_equal.
  assert (Hiff : b = true <-> b' = true).
  { rewrite Hb, Hb'. split; intros H f g Hf Hg; apply H.
    - by rewrite Hperm.
    - by rewrite Hperm.
    - by rewrite <- Hperm.
    - by rewrite <- Hperm. }
  destruct b, b'; try reflexivity.
  - symmetry. by apply Hiff.
  - by apply Hiff.
Qed.

Lemma check_hash_order_witness :
  (check_hash disk [str "a.bin"; str "b.bin"; str "c.bin"]).2
  = (check_hash disk [str "c.bin"; str "a.bin"; str "b.bin"]).2.
Proof.
  apply check_hash_order.
  - simpl. lia.
  - intros file Hin.
    repeat (apply elem_of_cons in Hin as [->|Hin]);
      [vm_compute; eauto .. | by apply elem_of_nil in Hin].
  - by rewrite (Permutation_cons_append [str "a.bin"; str "b.bin"] (str "c.bin")).
Defined.

(** X9: several readable files that hold the same bytes compare equal, and
    all of them are read. *)
Theorem check_hash_same_content
    (fs : gmap pystr (list byte)) (files : list pystr) (content : list byte) :
  1 < length files ->
  (forall file, file ∈ files -> fs !! file = Some content) ->
  check_hash fs files = (files, Ok (Bool true)).
Proof.
  intros Hlen Hsame. destruct files as [|first rest]; [simpl in Hlen; lia|].
  unfold check_hash. rewrite (bool_decide_eq_true_2 _ Hlen). simpl.
  rewrite (Hsame first) by (by left). fold (sha256 content).
  destruct (compare_seen fs (sha256 content) rest [first])
    as [[_ Hrun]|(pre & f & post & -> & _ & Hf & _)].
  - intros f Hf. rewrite (Hsame f); [by eexists | by right].
  - by rewrite Hrun.
  - exfalso. apply Hf. unfold digest_at. rewrite (Hsame f); [done|].
    right. apply elem_of_app. right. by left.
Qed.

Lemma check_hash_same_content_witness :
  check_hash disk [str "a.bin"; str "b.bin"; str "a.bin"]
  = ([str "a.bin"; str "b.bin"; str "a.bin"], Ok (Bool true)).
Proof.
  apply (check_hash_same_content disk _ (ascii_bytes "abc")).
  - simpl. lia.
  - intros file Hin.
    repeat (apply elem_of_cons in Hin as [->|Hin]);
      [vm_compute; reflexivity .. | by apply elem_of_nil in Hin].
Defined.

Lemma hex_injective (bs1 bs2 : list byte) :
  mbind SHA256.hex_byte bs1 = mbind SHA256.hex_byte bs2 -> bs1 = bs2.
Proof.
  intros H. apply (f_equal SHA256.fromhex) in H.
  rewrite !fromhex_hex in H. by injection H.
Qed.

(** X10: the two modes agree: two readable files compare equal exactly
    when [check_hash] returns the same hexadecimal string for each of them
    alone. *)
Theorem check_hash_modes_agree
    (fs : gmap pystr (list byte)) (file1 file2 : pystr) :
  is_Some (fs !! file1) -> is_Some (fs !! file2) ->
  (check_hash fs [file1; file2]).2 = Ok (Bool true)
  <-> (check_hash fs [file1]).2 = (check_hash fs [file2]).2.
Proof.
  intros [c1 H1] [c2 H2]. unfold check_hash.
  rewrite (bool_decide_eq_true_2 (1 < length [file1; file2]))
    by (cbn [length]; lia).
  rewrite (bool_decide_eq_false_2 (1 < length [file1])) by (cbn [length]; lia).
  rewrite (bool_decide_eq_false_2 (1 < length [file2])) by (cbn [length]; lia).
  change ([file1] !! 0) with (Some file1). change ([file2] !! 0) with (Some file2).
  cbn [compare]. rewrite H1, H2. cbn [app snd].
  unfold SHA256.hexdigest. fold (sha256 c1). fold (sha256 c2).
  destruct (decide (sha256 c1 = sha256 c2)) as [Heq|Hne].
  - rewrite (bool_decide_eq_true_2 _ Heq). cbn [fmap result_fmap snd].
    by rewrite Heq.
  - rewrite (bool_decide_eq_false_2 _ Hne). cbn [fmap result_fmap snd].
    split; [discriminate|]. intros Hhex.
    assert (Hinj : forall x y : pystr,
              (Ok (Str x) : result value) = Ok (Str y) -> x = y)
      by (intros x y Hxy; by injection Hxy).
    destruct (Hne (hex_injective _ _ (Hinj _ _ Hhex))).
Qed.

Lemma check_hash_modes_agree_witness :
  (check_hash disk [str "a.bin"; str "b.bin"]).2 = Ok (Bool true)
  <-> (check_hash disk [str "a.bin"]).2 = (check_hash disk [str "b.bin"]).2.
Proof.
  apply check_hash_modes_agree; vm_compute; eauto.
Defined.

(** ** create_cfg: what is written, and where *)




Lemma written_lines_app (doc1 doc2 : document) :
  mbind ended (mbind section_lines (doc1 ++ doc2))
  = mbind ended (mbind section_lines doc1)
    ++ mbind ended (mbind section_lines doc2).
Proof. by rewrite !bind_app. Qed.

(** A line feed inside a value is written as the end of a line: the file is
    the one written for the document in which the value is cut there. *)
Lemma newline_in_value_written
    (fs : gmap pystr pystr) (file : pystr) (before after : document)
    (s : pystr) (options more : odict pystr pystr) (o v o' v' : pystr) :
  create_cfg fs file
    (before
     ++ [(s, options ++ [(o, v ++ [LF] ++ o' ++ str "=" ++ v')] ++ more)]
     ++ after)
  = create_cfg fs file
      (before ++ [(s, options ++ [(o, v); (o', v')] ++ more)] ++ after).
Proof.
  assert (Hmid :
    mbind ended (option_line <$> [(o, v ++ [LF] ++ o' ++ str "=" ++ v')])
    = mbind ended (option_line <$> [(o, v); (o', v')])).
  { unfold ended, option_line. csimpl. cbn [fst snd].
    rewrite ?app_nil_r. simpl.
    repeat (rewrite <- ?app_assoc, <- ?app_comm_cons). reflexivity. }
  assert (Hsec : forall opts,
    mbind ended (mbind section_lines [(s, opts)])
    = mbind ended (section_lines (s, opts))).
  { intros opts. csimpl. by rewrite app_nil_r. }
  unfold create_cfg. f_equal. rewrite !write_sections_eq. f_equal.
  rewrite !written_lines_app, !Hsec, !section_text.
  rewrite !fmap_app, !bind_app, Hmid. reflexivity.
Qed.

(** X13: a line feed in a value is not escaped: when a value holds a line
    feed followed by [name=text], the document is read back with one more
    option, [name], after the option the value belongs to. *)
Theorem create_cfg_newline_in_value
    (fs : gmap pystr pystr) (file : pystr) (before after : document)
    (s : pystr) (options more : odict pystr pystr) (o v o' v' : pystr) :
  readable (before ++ [(s, options ++ [(o, v); (o', v')] ++ more)] ++ after)
  = true ->
  read_cfg
    (create_cfg fs file
       (before
        ++ [(s, options ++ [(o, v ++ [LF] ++ o' ++ str "=" ++ v')] ++ more)]
        ++ after))
    file
  = Ok (lowered
          (before ++ [(s, options ++ [(o, v); (o', v')] ++ more)] ++ after)).
Proof.
  intros Hread. rewrite newline_in_value_written.
  by apply read_back_lowered.
Qed.

Lemma create_cfg_newline_in_value_witness :
  read_cfg
    (create_cfg ∅ (str "app.cfg")
       [(str "server", [(str "host", str "localhost" ++ [LF] ++ str "admin=yes")])])
    (str "app.cfg")
  = Ok [(str "server", [(str "host", str "localhost"); (str "admin", str "yes")])].
Proof.
  apply (create_cfg_newline_in_value ∅ (str "app.cfg") [] [] (str "server")
           [] [] (str "host") (str "localhost") (str "admin") (str "yes")).
  vm_compute. reflexivity.
Defined.

(** ** read_cfg: files without a section, and the names of sections *)

Lemma read_line_skipped (st : ConfigParser.reader) (lineno : nat) (line : pystr) :
  ConfigParser.cursect st = None -> skipped line = true ->
  ConfigParser.read_line st lineno line = Ok st.
Proof.
  intros Hcur Hskip. unfold ConfigParser.read_line, skipped in *.
  destruct (ConfigParser.is_comment line).
  - simpl. by destruct (ConfigParser.cursect st), (ConfigParser.optname st).
  - rewrite orb_false_r in Hskip. rewrite Hskip, Hcur. reflexivity.
Qed.

Lemma read_lines_skipped (lines : list pystr) :
  forall (st : ConfigParser.reader) (lineno : nat),
  ConfigParser.cursect st = None ->
  Forall (fun line => skipped line = true) lines ->
  ConfigParser.read_lines st lineno lines = Ok st.
Proof.
  induction lines as [|line lines IH]; intros st lineno Hcur Hall;
    [reflexivity|].
  apply Forall_cons in Hall as [Hline Hall]. simpl.
  rewrite (read_line_skipped st lineno line Hcur Hline). simpl.
  by apply IH.
Qed.

(** X14: a file that holds only blank lines and full-line comments (lines
    whose first character after white space is [#] or [;]), an empty file
    among them, is read as the empty document. *)
Theorem read_cfg_no_section
    (fs : gmap pystr pystr) (file content : pystr) :
  fs !! file = Some content ->
  Forall (fun line => skipped line = true)
         (readlines (universal_newlines content)) ->
  read_cfg fs file = Ok [].
Proof.
  intros Hfile Hall. unfold read_cfg, ConfigParser.read, ConfigParser._read.
  rewrite Hfile. by rewrite (read_lines_skipped _ ConfigParser.fresh 1 eq_refl Hall).
Qed.

Lemma read_cfg_no_section_witness :
  read_cfg {[ str "app.cfg" := text ["# settings"; " "; "; none yet"] ]}
           (str "app.cfg")
  = Ok [].
Proof.
  eapply read_cfg_no_section; [vm_compute; reflexivity|].
  vm_compute. repeat constructor.
Defined.

(** X15: when the first line that is neither blank nor a comment is not a
    section header, [read_cfg] raises MissingSectionHeaderError, whatever
    follows. *)
Theorem read_cfg_missing_header
    (fs : gmap pystr pystr) (file content : pystr)
    (before rest : list pystr) (line : pystr) :
  fs !! file = Some content ->
  readlines (universal_newlines content) = before ++ line :: rest ->
  Forall (fun l => skipped l = true) before ->
  skipped line = false ->
  ConfigParser.SECTCRE_match (strip line) = None ->
  read_cfg fs file = Raise MissingSectionHeaderError.
Proof.
  intros Hfile Hlines Hbefore Hline Hsect.
  unfold read_cfg, ConfigParser.read, ConfigParser._read.
  rewrite Hfile, Hlines, read_lines_app.
  rewrite (read_lines_skipped _ ConfigParser.fresh 1 eq_refl Hbefore).
  simpl. unfold ConfigParser.read_line, skipped in *.
  apply orb_false_iff in Hline as [Hblank Hcomment].
  rewrite Hcomment, Hblank, Hsect. reflexivity.
Qed.

Lemma read_cfg_missing_header_witness :
  read_cfg {[ str "app.cfg" := text ["# settings"; "host=localhost"; "[server]"] ]}
           (str "app.cfg")
  = Raise MissingSectionHeaderError.
Proof.
  apply (read_cfg_missing_header _ _ (text ["# settings"; "host=localhost"; "[server]"])
           [ended (str "# settings")] [ended (str "[server]")]
           (ended (str "host=localhost")));
    try (vm_compute; reflexivity).
  vm_compute. repeat constructor.
Defined.

Lemma rindex_lt (s : pystr) (c : ascii) (j : nat) :
  rindex s c = Some j -> j < length s.
Proof.
  revert j. induction s as [|x s IH]; intros j; simpl; [discriminate|].
  destruct (rindex s c) as [i|].
  - intros [= <-]. specialize (IH i eq_refl). lia.
  - destruct (bool_decide (x = c)); [|discriminate]. intros [= <-]. lia.
Qed.

Lemma SECTCRE_match_nonempty (value name : pystr) :
  ConfigParser.SECTCRE_match value = Some name -> name ≠ [].
Proof.
  unfold ConfigParser.SECTCRE_match. destruct value as [|c rest]; [discriminate|].
  destruct (bool_decide (c = "["%char)); [|discriminate].
  destruct (rindex rest "]"%char) as [j|] eqn:Hj; [|discriminate].
  destruct (bool_decide (0 < j)) eqn:Hpos; [|discriminate].
  intros [= <-] Hnil. apply bool_decide_eq_true in Hpos.
  apply rindex_lt in Hj. apply (f_equal length) in Hnil.
  rewrite length_take in Hnil. simpl in Hnil. lia.
Qed.

Lemma store_section_names (st st' : ConfigParser.reader)
    (ref : ConfigParser.sect_ref) (optname : pystr) (val : list pystr) :
  ConfigParser.store st ref optname val = Ok st' ->
  Dict.keys (ConfigParser.sections_raw st') = Dict.keys (ConfigParser.sections_raw st).
Proof.
  unfold ConfigParser.store. destruct ref as [|name]; simpl.
  - by intros [= <-].
  - destruct (Dict.get (ConfigParser.sections_raw st) name) as [d|] eqn:Hget;
      [|discriminate].
    intros [= <-]. simpl. rewrite dict_keys_set.
    rewrite bool_decide_eq_true_2; [reflexivity|].
    apply dict_get_Some_elem in Hget. apply list_elem_of_fmap. by exists (name, d).
Qed.

Lemma append_line_section_names (st st' : ConfigParser.reader)
    (ref : ConfigParser.sect_ref) (optname line : pystr) :
  ConfigParser.append_line st ref optname line = Ok st' ->
  Dict.keys (ConfigParser.sections_raw st') = Dict.keys (ConfigParser.sections_raw st).
Proof.
  unfold ConfigParser.append_line.
  destruct (_ ≫= _) as [val|]; [|discriminate]. apply store_section_names.
Qed.

Lemma read_line_section_names (st st' : ConfigParser.reader) (lineno : nat)
    (line : pystr) :
  Forall section_name_read (Dict.keys (ConfigParser.sections_raw st)) ->
  ConfigParser.read_line st lineno line = Ok st' ->
  Forall section_name_read (Dict.keys (ConfigParser.sections_raw st')).
Proof.
  intros Hst. unfold ConfigParser.read_line.
  set (value := strip _). set (cur := default 0 _).
  assert (Hhead :
    match ConfigParser.SECTCRE_match value with
    | Some name => ConfigParser.enter_section st cur name
    | None =>
        match ConfigParser.cursect st with
        | Some ref => ConfigParser.enter_option st ref cur lineno value
        | None => Raise MissingSectionHeaderError
        end
    end = Ok st' ->
    Forall section_name_read (Dict.keys (ConfigParser.sections_raw st'))).
  { destruct (ConfigParser.SECTCRE_match value) as [name|] eqn:Hname.
    - apply SECTCRE_match_nonempty in Hname.
      unfold ConfigParser.enter_section. destruct (Dict.mem _ name).
      + destruct (_ && _); [discriminate|]. by intros [= <-].
      + destruct (bool_decide (name = ConfigParser.DEFAULTSECT)) eqn:Hdef;
          intros [= <-]; [done|]. simpl.
        apply bool_decide_eq_false in Hdef. rewrite dict_keys_set.
        destruct (bool_decide _); [done|].
        apply Forall_app. split; [done|]. by repeat constructor.
    - destruct (ConfigParser.cursect st) as [ref|]; [|discriminate].
      unfold ConfigParser.enter_option.
      destruct (ConfigParser.OPTCRE_match value) as [[optname0 optval]|].
      + destruct (_ && _); [discriminate|]. intros Hstore.
        apply store_section_names in Hstore. by rewrite Hstore.
      + by intros [= <-]. }
  assert (Happend : forall ref opt l,
    ConfigParser.append_line st ref opt l = Ok st' ->
    Forall section_name_read (Dict.keys (ConfigParser.sections_raw st'))).
  { intros ref opt l Hrun. apply append_line_section_names in Hrun.
    by rewrite Hrun. }
  destruct (negb (truthy value)).
  - destruct (ConfigParser.is_comment line); simpl.
    + destruct (ConfigParser.cursect st), (ConfigParser.optname st);
        by intros [= <-].
    + destruct (ConfigParser.cursect st) as [ref|]; [|by intros [= <-]].
      destruct (ConfigParser.optname st) as [opt|]; [|by intros [= <-]].
      destruct (truthy opt); [apply Happend | by intros [= <-]].
  - destruct (ConfigParser.cursect st) as [ref|]; [|exact Hhead].
    destruct (ConfigParser.optname st) as [opt|]; [|exact Hhead].
    destruct (_ && _); [apply Happend | exact Hhead].
Qed.

Lemma read_lines_section_names (fp : list pystr) :
  forall (st st' : ConfigParser.reader) (lineno : nat),
  Forall section_name_read (Dict.keys (ConfigParser.sections_raw st)) ->
  ConfigParser.read_lines st lineno fp = Ok st' ->
  Forall section_name_read (Dict.keys (ConfigParser.sections_raw st')).
Proof.
  induction fp as [|line fp IH]; intros st st' lineno Hst; simpl.
  - by intros [= <-].
  - destruct (ConfigParser.read_line st lineno line) as [st1|err] eqn:Hstep;
      [|discriminate].
    simpl. apply IH. by eapply read_line_section_names.
Qed.

(** X16: in a document returned by [read_cfg] no section has the empty
    name and none is called [DEFAULT]: what a file puts under [DEFAULT] is
    never returned as a section. *)
Theorem read_cfg_section_names
    (fs : gmap pystr pystr) (file : pystr) (doc : document) :
  read_cfg fs file = Ok doc ->
  forall section, section ∈ Dict.keys doc ->
    section ≠ [] /\ section ≠ ConfigParser.DEFAULTSECT.
Proof.
  unfold read_cfg.
  destruct (ConfigParser.read fs file) as [config|err] eqn:Hread; [|discriminate].
  simpl. intros Hrun.
  assert (Hnames : Forall section_name_read (ConfigParser.sections config)).
  { unfold ConfigParser.read in Hread.
    destruct (fs !! file) as [content|]; [|injection Hread as <-; constructor].
    unfold ConfigParser._read in Hread.
    destruct (ConfigParser.read_lines _ _ _) as [st|err] eqn:Hlines;
      [|discriminate].
    simpl in Hread. destruct (bool_decide _); [|discriminate].
    injection Hread as <-.
    apply read_lines_section_names in Hlines; [|constructor].
    unfold ConfigParser.sections, ConfigParser._join_multiline_values, Dict.keys
      in *.
    simpl. rewrite <- list_fmap_compose.
    by rewrite (list_fmap_ext _ fst (ConfigParser.sections_raw st)). }
  assert (Hdoc : Forall section_name_read (Dict.keys doc)).
  { revert Hrun.
    apply (for_each_invariant
             (fun acc : document => Forall section_name_read (Dict.keys acc)));
      [|constructor].
    intros acc section acc' Hin Hacc.
    destruct (ConfigParser.options config section); [|discriminate]. simpl.
    destruct (for_each _ [] _); [|discriminate]. simpl. intros [= <-].
    rewrite dict_keys_set. destruct (bool_decide _); [done|].
    apply Forall_app. split; [done|]. constructor; [|constructor].
    rewrite Forall_forall in Hnames. by apply Hnames. }
  intros section Hin. rewrite Forall_forall in Hdoc. exact (Hdoc section Hin).
Qed.

Lemma read_cfg_section_names_witness :
  str "server" ≠ [] /\ str "server" ≠ ConfigParser.DEFAULTSECT.
Proof.
  apply (read_cfg_section_names
           {[ str "app.cfg" := text ["[DEFAULT]"; "user=me"; "[server]"; "host=h"] ]}
           (str "app.cfg")
           [(str "server", [(str "host", str "h"); (str "user", str "me")])]).
  - vm_compute. reflexivity.
  - by left.
Defined.

(** ** Stripping *)

Lemma rstrip_app_nonspace (a x : pystr) (c : ascii) :
  isspace c = false -> rstrip (a ++ c :: x) = a ++ c :: rstrip x.
Proof.
  intros Hc. induction x as [|y x IH] using rev_ind.
  - change (a ++ [c]) with (a ++ [c]). by rewrite (rstrip_snoc_keep a c Hc).
  - destruct (isspace y) eqn:Hy.
    + rewrite (rstrip_snoc_space x y Hy), <- IH.
      change (a ++ c :: x ++ [y]) with (a ++ (c :: x) ++ [y]).
      rewrite app_assoc. by apply rstrip_snoc_space.
    + rewrite (rstrip_snoc_keep x y Hy).
      change (a ++ c :: x ++ [y]) with (a ++ (c :: x) ++ [y]).
      rewrite app_assoc. by apply rstrip_snoc_keep.
Qed.

Lemma rstrip_cons_nonspace (x : pystr) (c : ascii) :
  isspace c = false -> rstrip (c :: x) = c :: rstrip x.
Proof. apply (rstrip_app_nonspace []). Qed.

Lemma lstrip_idemp (s : pystr) : lstrip (lstrip s) = lstrip s.
Proof.
  induction s as [|c s IH]; [reflexivity|]. simpl.
  destruct (isspace c) eqn:Hc; [exact IH|]. simpl. by rewrite Hc.
Qed.

Lemma rstrip_idemp (s : pystr) : rstrip (rstrip s) = rstrip s.
Proof. unfold rstrip. by rewrite rev_involutive, lstrip_idemp. Qed.

Lemma lstrip_all_space (s : pystr) :
  Forall (fun c => isspace c = true) s -> lstrip s = [].
Proof. induction 1 as [|c s Hc _ IH]; [reflexivity|]. simpl. by rewrite Hc. Qed.

Lemma lstrip_split (s : pystr) :
  exists ws, Forall (fun c => isspace c = true) ws /\ s = ws ++ lstrip s.
Proof.
  induction s as [|c s (ws & Hws & IH)]; [by exists []|]. simpl.
  destruct (isspace c) eqn:Hc.
  - exists (c :: ws). split; [by constructor|]. simpl. by rewrite <- IH.
  - by exists [].
Qed.

Lemma lstrip_app_space (ws s : pystr) :
  Forall (fun c => isspace c = true) ws -> lstrip (ws ++ s) = lstrip s.
Proof. induction 1 as [|c ws Hc _ IH]; [reflexivity|]. simpl. by rewrite Hc. Qed.

Lemma rstrip_all_space (s : pystr) :
  Forall (fun c => isspace c = true) s -> rstrip s = [].
Proof.
  intros Hs. unfold rstrip. rewrite lstrip_all_space; [reflexivity|].
  apply Forall_forall. intros c Hc. rewrite Forall_forall in Hs. apply Hs.
  apply list_elem_of_In. apply list_elem_of_In in Hc. by apply in_rev.
Qed.

(** Stripping the right end, then the left end, is stripping both. *)
Lemma lstrip_rstrip (s : pystr) : lstrip (rstrip s) = strip s.
Proof.
  unfold strip. destruct (lstrip_split s) as (ws & Hws & Hs).
  destruct (lstrip s) as [|c y] eqn:Hy.
  - rewrite app_nil_r in Hs. subst s. by rewrite (rstrip_all_space ws Hws).
  - assert (Hc : isspace c = false).
    { destruct (lstrip_fixed_inv (c :: y)) as [|(c' & y' & [= <- <-] & ?)];
        [by rewrite <- Hy, lstrip_idemp | done | done]. }
    rewrite Hs at 1. rewrite (rstrip_app_nonspace ws y c Hc).
    rewrite (lstrip_app_space ws _ Hws), (rstrip_cons_nonspace y c Hc).
    simpl. by rewrite Hc.
Qed.

Lemma rstrip_strip (s : pystr) : rstrip (strip s) = strip s.
Proof. unfold strip. apply rstrip_idemp. Qed.

Lemma lstrip_strip (s : pystr) : lstrip (strip s) = strip s.
Proof. by rewrite <- lstrip_rstrip, lstrip_idemp. Qed.

Lemma strip_lstrip_rstrip (s : pystr) : strip (lstrip (rstrip s)) = strip s.
Proof.
  rewrite lstrip_rstrip. unfold strip at 1. by rewrite lstrip_strip, rstrip_strip.
Qed.

Lemma one_line_lstrip (s : pystr) : one_line s = true -> one_line (lstrip s) = true.
Proof.
  induction s as [|c s IH]; [done|]. simpl. intros [Hc Hs]%andb_true_iff.
  destruct (isspace c); [by apply IH|]. simpl. by rewrite Hc, Hs.
Qed.

Lemma one_line_rev (s : pystr) : one_line (rev s) = one_line s.
Proof.
  unfold one_line. induction s as [|c s IH]; [reflexivity|]. simpl.
  rewrite forallb_app, IH. simpl. by rewrite andb_true_r, andb_comm.
Qed.

Lemma one_line_strip (s : pystr) : one_line s = true -> one_line (strip s) = true.
Proof.
  intros Hs. unfold strip, rstrip. rewrite one_line_rev.
  apply one_line_lstrip. rewrite one_line_rev. by apply one_line_lstrip.
Qed.

(** ** The parser on lines with white space, comments and [%%] *)

(** [read_line] looks at a line through [strip] and through the place of
    its first character that is not white space. *)
Lemma read_line_by_strip (st : ConfigParser.reader) (lineno : nat)
    (line1 line2 : pystr) :
  strip line1 = strip line2 ->
  ConfigParser.NONSPACECRE_search line1 = ConfigParser.NONSPACECRE_search line2 ->
  ConfigParser.read_line st lineno line1 = ConfigParser.read_line st lineno line2.
Proof.
  intros Hstrip Hsearch. unfold ConfigParser.read_line, ConfigParser.is_comment.
  rewrite Hstrip, Hsearch.
  destruct (existsb _ _); cbv beta iota zeta; by rewrite ?Hstrip.
Qed.

Lemma read_line_comment (st : ConfigParser.reader) (lineno : nat) (line : pystr) :
  ConfigParser.is_comment line = true ->
  ConfigParser.read_line st lineno line = Ok st.
Proof.
  intros Hc. unfold ConfigParser.read_line. rewrite Hc. simpl.
  by destruct (ConfigParser.cursect st), (ConfigParser.optname st).
Qed.

Lemma comment_name_line (o v : pystr) :
  comment_name o = true ->
  ConfigParser.is_comment (ended (option_line (o, v))) = true.
Proof.
  unfold comment_name. intros Hname.
  destruct o as [|c o]; [discriminate|].
  assert (Hc : isspace c = false).
  { simpl in Hname. rewrite !andb_true_r in Hname.
    apply orb_true_iff in Hname as [->%bool_decide_eq_true | ->%bool_decide_eq_true];
      reflexivity. }
  unfold ConfigParser.is_comment, ConfigParser.comment_prefixes, strip, ended,
    option_line.
  cbn [fst snd]. rewrite <- !app_comm_cons.
  rewrite (lstrip_cons_keep c _ Hc), (rstrip_cons_nonspace _ c Hc).
  simpl in *. by rewrite orb_false_r.
Qed.

Lemma option_line_padded (o v : pystr) :
  option_ok o = true ->
  strip (ended (option_line (o, v))) = option_line (o, rstrip v)
  /\ ConfigParser.NONSPACECRE_search (ended (option_line (o, v))) = Some 0.
Proof.
  intros (Hne & _ & Hl & _)%option_ok_spec.
  destruct (lstrip_fixed_inv o Hl) as [->|(c & o' & -> & Hc)]; [done|].
  unfold strip, ended, option_line. cbn [fst snd]. split.
  - rewrite <- !app_comm_cons, (lstrip_cons_keep c _ Hc).
    rewrite !app_comm_cons, (rstrip_snoc_space _ LF) by reflexivity.
    change (str "=" ++ v) with ("="%char :: v).
    by rewrite rstrip_app_nonspace.
  - unfold ConfigParser.NONSPACECRE_search. simpl. by rewrite Hc.
Qed.

Lemma option_line_rstrip_trimmed (o v : pystr) :
  option_ok o = true -> trimmed (option_line (o, rstrip v)) = true.
Proof.
  intros (Hne & _ & Hl & _)%option_ok_spec.
  apply trimmed_spec. unfold option_line. cbn [fst snd]. split.
  - destruct (lstrip_fixed_inv o Hl) as [->|(c & o' & -> & Hc)]; [done|].
    rewrite <- app_comm_cons. by apply lstrip_cons_keep.
  - change (str "=" ++ rstrip v) with ("="%char :: rstrip v).
    by rewrite rstrip_app_nonspace, rstrip_idemp.
Qed.

Lemma OPTCRE_match_general (o x : pystr) :
  option_ok o = true ->
  ConfigParser.OPTCRE_match (option_line (o, x)) = Some (o, lstrip x).
Proof.
  intros (_ & _ & _ & Hr & Hd & _)%option_ok_spec.
  unfold ConfigParser.OPTCRE_match, option_line. simpl.
  change (str "=" ++ x) with ("="%char :: x).
  rewrite (index_where_app_first _ o x "="%char Hd) by reflexivity.
  rewrite take_app_length.
  change (o ++ "="%char :: x) with (o ++ ["="%char] ++ x).
  rewrite app_assoc.
  replace (S (length o)) with (length (o ++ ["="%char]))
    by (rewrite length_app; simpl; lia).
  rewrite drop_app_length. by rewrite Hr.
Qed.

(** The line of an option whose name is in order, whatever the white space
    around its value. *)
Lemma read_line_option_padded (st : ConfigParser.reader)
    (ref : ConfigParser.sect_ref) (lineno : nat) (o v : pystr) :
  option_ok o = true ->
  ConfigParser.cursect st = Some ref ->
  ConfigParser.read_line st lineno (ended (option_line (o, v)))
  = ConfigParser.enter_option st ref 0 lineno (option_line (o, rstrip v)).
Proof.
  intros Ho Hcur.
  pose proof (option_ok_spec o Ho) as (Hne & _ & _ & _ & _ & Hc1 & Hc2 & Hb).
  pose proof (option_line_padded o v Ho) as [Hstrip Hsearch].
  pose proof (option_line_rstrip_trimmed o v Ho) as Htrim.
  rewrite (read_line_by_strip st lineno _ (ended (option_line (o, rstrip v)))).
  - rewrite read_line_flush_left.
    + rewrite SECTCRE_match_option by done. by rewrite Hcur.
    + exact Htrim.
    + unfold option_line. simpl. by destruct o.
    + unfold option_line. cbn [fst snd]. change (str "#") with ["#"%char] in *.
      by rewrite startswith_app_single.
    + unfold option_line. cbn [fst snd]. change (str ";") with [";"%char] in *.
      by rewrite startswith_app_single.
  - by rewrite Hstrip, (strip_ended _ Htrim).
  - rewrite Hsearch. symmetry.
    apply (option_line_padded o (rstrip v) Ho).
Qed.

(** An option of the section being read, with white space around its
    value: the value is stored stripped. *)
Lemma reading_option_padded (doc : document) (s : pystr)
    (options : odict pystr pystr) (st : ConfigParser.reader) (lineno : nat)
    (o v : pystr) :
  reading (doc ++ [(s, options)]) st ->
  option_ok o = true ->
  lower o ∉ lower <$> Dict.keys options ->
  exists st',
    ConfigParser.read_line st lineno (ended (option_line (o, v))) = Ok st'
    /\ reading (doc ++ [(s, options ++ [(o, strip v)])]) st'
    /\ ConfigParser.elements_added st'
       = {[ inr (Some s, lower o) ]} ∪ ConfigParser.elements_added st.
Proof.
  intros [Hnd Hsec Hdef Herr Hadd Hcur] Ho Hfresh.
  rewrite last_snoc in Hcur. destruct Hcur as (Hcs & Hsn & Hopt). simpl in *.
  rewrite (read_line_option_padded st _ lineno o v Ho Hcs).
  unfold ConfigParser.enter_option.
  rewrite (OPTCRE_match_general o (rstrip v) Ho).
  pose proof (option_ok_spec o Ho) as (Hne & _ & _ & Hr & _).
  apply truthy_spec in Hne. rewrite Hne, Hr. unfold ConfigParser.optionxform.
  rewrite strip_lstrip_rstrip, Hsn.
  rewrite bool_decide_eq_false_2.
  2:{ intros Hin. destruct (Hadd _ _ Hin) as (s' & opts & [= <-] & Hdoc & Hlo).
      assert (opts = options) as ->; [|done].
      eapply (nodup_elem_unique _ s); [exact Hnd | exact Hdoc |].
      apply elem_of_app. right. by left. }
  simpl.
  destruct (raw_sections_snoc_inv _ _ _ _ Hsec) as (raw' & ropts & Hraw & Hdoc' & Hro).
  assert (Hs : s ∉ Dict.keys raw').
  { rewrite (raw_sections_keys _ _ Hdoc'). by eapply nodup_keys_snoc. }
  erewrite store_section by (simpl; rewrite Hraw; by apply dict_get_app_last).
  eexists. split; [reflexivity|]. split; [|reflexivity].
  assert (Hkeys : Dict.keys (doc ++ [(s, options ++ [(o, strip v)])])
                  = Dict.keys (doc ++ [(s, options)]))
    by (by rewrite !keys_snoc).
  constructor; simpl.
  - by rewrite Hkeys.
  - rewrite Hraw, dict_set_app_last by exact Hs.
    apply raw_sections_snoc; [exact Hdoc'|].
    rewrite dict_set_fresh by (by rewrite (raw_options_keys _ _ Hro)).
    apply Forall2_app; [exact Hro|].
    constructor; [|constructor]. split; [reflexivity|]. by exists 0.
  - exact Hdef.
  - exact Herr.
  - intros x k [Hin|Hin]%elem_of_union.
    + apply elem_of_singleton in Hin. injection Hin as -> ->.
      exists s, (options ++ [(o, strip v)]). split; [done|]. split.
      * apply elem_of_app. right. by left.
      * rewrite keys_snoc, fmap_app. apply elem_of_app. right. by left.
    + destruct (Hadd x k Hin) as (s' & opts & -> & Hdoc & Hk).
      apply elem_of_app in Hdoc as [Hdoc|Hdoc].
      * exists s', opts. split; [done|]. split; [|done].
        apply elem_of_app. by left.
      * apply list_elem_of_singleton in Hdoc. injection Hdoc as -> ->.
        exists s, (options ++ [(o, strip v)]). split; [done|]. split.
        -- apply elem_of_app. right. by left.
        -- rewrite keys_snoc, fmap_app. apply elem_of_app. by left.
  - rewrite last_snoc. simpl. split; [done|]. split; [done|].
    intros opt [= <-]. rewrite keys_snoc, fmap_app. apply elem_of_app.
    right. by left.
Qed.

Lemma stored_options_cons (o v : pystr) (options : odict pystr pystr) :
  stored_options ((o, v) :: options)
  = if comment_name o then stored_options options
    else (o, strip v) :: stored_options options.
Proof.
  unfold stored_options. destruct (comment_name o) eqn:Hc.
  - rewrite filter_cons_False; [done|]. simpl. by rewrite Hc.
  - rewrite filter_cons_True; [done|]. exact Hc.
Qed.

Lemma option_ok_not_comment (o : pystr) :
  option_ok o = true -> comment_name o = false.
Proof.
  intros (_ & _ & _ & _ & _ & Hc1 & Hc2 & _)%option_ok_spec.
  unfold comment_name. by rewrite Hc1, Hc2.
Qed.

Lemma stored_keys (doc : document) : Dict.keys (stored doc) = Dict.keys doc.
Proof.
  unfold Dict.keys, stored. rewrite <- list_fmap_compose.
  by apply list_fmap_ext.
Qed.

(** The option lines of a section, comments among them. *)
Lemma reading_options_general (new : odict pystr pystr) :
  forall (doc : document) (s : pystr) (options : odict pystr pystr)
         (st : ConfigParser.reader) (lineno : nat),
  reading (doc ++ [(s, options)]) st ->
  NoDup (lower <$> Dict.keys (options ++ stored_options new)) ->
  Forall (fun ov => comment_name ov.1 = true \/ option_ok ov.1 = true) new ->
  (forall k, k ∈ lower <$> Dict.keys options ->
             inr (Some s, k) ∈ ConfigParser.elements_added st) ->
  exists st',
    ConfigParser.read_lines st lineno (ended <$> (option_line <$> new)) = Ok st'
    /\ reading (doc ++ [(s, options ++ stored_options new)]) st'
    /\ forall k, k ∈ lower <$> Dict.keys (options ++ stored_options new) ->
                 inr (Some s, k) ∈ ConfigParser.elements_added st'.
Proof.
  induction new as [|[o v] new IH];
    intros doc s options st lineno Hr Hnd Hok Hadded.
  - exists st. unfold stored_options. rewrite filter_nil, fmap_nil, app_nil_r.
    by split.
  - apply Forall_cons in Hok as [Ho Hok]. cbn [fst] in Ho.
    rewrite stored_options_cons in Hnd |- *.
    destruct (comment_name o) eqn:Hc.
    + csimpl. rewrite (read_line_comment st lineno _ (comment_name_line o v Hc)).
      simpl. by apply IH.
    + destruct Ho as [Ho|Ho]; [discriminate|].
      assert (Hfresh : lower o ∉ lower <$> Dict.keys options).
      { unfold Dict.keys in *. rewrite !fmap_app in Hnd. csimpl in Hnd.
        apply NoDup_app in Hnd as (_ & Hd & _). intros Hin.
        apply (Hd _ Hin). by left. }
      destruct (reading_option_padded doc s options st lineno o v Hr Ho Hfresh)
        as (st1 & Hstep & Hr1 & Hnew).
      csimpl. rewrite Hstep. simpl.
      destruct (IH doc s (options ++ [(o, strip v)]) st1 (S lineno) Hr1)
        as (st2 & Hrun & Hr2 & Hadded2).
      * by rewrite <- app_assoc.
      * exact Hok.
      * intros k. rewrite keys_snoc, fmap_app, Hnew, elem_of_app, elem_of_union.
        intros [Hk|Hk]; [right; by apply Hadded|left].
        apply list_elem_of_singleton in Hk as ->. by apply elem_of_singleton.
      * exists st2. rewrite <- app_assoc in Hr2, Hadded2. by split.
Qed.

Lemma reading_section_general (doc : document) (st : ConfigParser.reader)
    (lineno : nat) (s : pystr) (options : odict pystr pystr) :
  reading doc st -> s ∉ Dict.keys doc ->
  section_ok s = true ->
  NoDup (lower <$> Dict.keys (stored_options options)) ->
  Forall (fun ov => comment_name ov.1 = true \/ option_ok ov.1 = true) options ->
  exists st',
    ConfigParser.read_lines st lineno (ended <$> section_lines (s, options)) = Ok st'
    /\ reading (doc ++ [(s, stored_options options)]) st'
    /\ forall k, k ∈ lower <$> Dict.keys (stored_options options) ->
                 inr (Some s, k) ∈ ConfigParser.elements_added st'.
Proof.
  intros Hr Hfresh Hs Hnd Hok.
  destruct (reading_blank doc st lineno Hr) as (st1 & Hstep1 & Hr1).
  destruct (reading_header doc st1 (S lineno) s Hr1 Hs Hfresh) as (st2 & Hstep2 & Hr2).
  destruct (reading_options_general options doc s [] st2 (S (S lineno)) Hr2 Hnd Hok)
    as (st3 & Hrun & Hr3 & Hadded); [by intros k ?%elem_of_nil|].
  exists st3. split; [|by split].
  unfold section_lines. csimpl.
  change (ended []) with (ended ([] : pystr)) in Hstep1.
  rewrite Hstep1. simpl. rewrite Hstep2. simpl. exact Hrun.
Qed.

Lemma reading_document_general (rest : document) :
  forall (doc : document) (st : ConfigParser.reader) (lineno : nat),
  reading doc st ->
  NoDup (Dict.keys doc ++ Dict.keys rest) ->
  Forall (fun so =>
            section_ok so.1 = true
            /\ NoDup (lower <$> Dict.keys (stored_options so.2))
            /\ Forall (fun ov => comment_name ov.1 = true \/ option_ok ov.1 = true)
                      so.2) rest ->
  exists st',
    ConfigParser.read_lines st lineno (ended <$> mbind section_lines rest) = Ok st'
    /\ reading (doc ++ stored rest) st'.
Proof.
  induction rest as [|[s options] rest IH]; intros doc st lineno Hr Hnd Hok.
  - exists st. unfold stored. rewrite fmap_nil, app_nil_r. by split.
  - apply Forall_cons in Hok as [(Hs & Hndo & Ho) Hok]. cbn [fst snd] in Hs, Hndo, Ho.
    assert (Hfresh : s ∉ Dict.keys doc).
    { unfold Dict.keys in *. csimpl in Hnd.
      apply NoDup_app in Hnd as (_ & Hd & _). intros Hin.
      apply (Hd _ Hin). by left. }
    destruct (reading_section_general doc st lineno s options Hr Hfresh Hs Hndo Ho)
      as (st1 & Hrun1 & Hr1 & _).
    change (mbind section_lines ((s, options) :: rest))
      with (section_lines (s, options) ++ mbind section_lines rest).
    rewrite fmap_app, read_lines_app, Hrun1. simpl.
    destruct (IH (doc ++ [(s, stored_options options)]) st1
                 (lineno + length (ended <$> section_lines (s, options))) Hr1)
      as (st2 & Hrun2 & Hr2).
    + rewrite keys_snoc, <- app_assoc. exact Hnd.
    + exact Hok.
    + exists st2. split; [exact Hrun2|]. by rewrite <- app_assoc in Hr2.
Qed.

(** What the parser is given when it opens the file written for a document
    whose names and values are each on one line. *)
Lemma lines_written_one_line (doc : document) :
  Forall (fun so =>
            one_line so.1 = true
            /\ Forall (fun ov => one_line ov.1 = true /\ one_line ov.2 = true)
                      so.2) doc ->
  readlines (universal_newlines (write_sections [] doc))
  = ended <$> mbind section_lines doc.
Proof.
  intros Hok. rewrite write_sections_eq. simpl.
  assert (Hlines : Forall (fun line => one_line line = true)
                          (mbind section_lines doc)).
  { induction Hok as [|[s options] doc [Hs Ho] _ IH]; [constructor|].
    change (mbind section_lines ((s, options) :: doc))
      with (section_lines (s, options) ++ mbind section_lines doc).
    apply Forall_app. split; [|exact IH]. simpl in *.
    by apply section_lines_one_line. }
  rewrite universal_newlines_id by (by apply ended_lines_no_CR).
  apply readlines_ended.
  eapply Forall_impl; [exact Hlines|]. intros line Hl.
  by apply one_line_spec in Hl as [? _].
Qed.

(** *** Values with pairs [%%] *)

Lemma first_occurrence (s : pystr) (c : ascii) :
  c ∉ s \/ exists pre tail, s = pre ++ c :: tail /\ c ∉ pre.
Proof.
  induction s as [|x s IH]; [left; apply not_elem_of_nil|].
  destruct (decide (x = c)) as [->|Hx].
  - right. exists [], s. split; [done | apply not_elem_of_nil].
  - destruct IH as [Hs|(pre & tail & -> & Hpre)].
    + left. apply not_elem_of_cons. split; [congruence | exact Hs].
    + right. exists (x :: pre), tail. split; [done|].
      apply not_elem_of_cons. split; [congruence | exact Hpre].
Qed.

Lemma unescape_app_plain (pre s : pystr) :
  "%"%char ∉ pre -> unescape (pre ++ s) = pre ++ unescape s.
Proof.
  induction pre as [|c pre IH]; intros Hpre; [reflexivity|].
  apply not_elem_of_cons in Hpre as [Hc Hpre].
  rewrite <- !app_comm_cons. cbn [unescape].
  rewrite bool_decide_eq_false_2 by congruence. by rewrite IH.
Qed.

Lemma unescape_plain (s : pystr) : "%"%char ∉ s -> unescape s = s.
Proof.
  intros Hs. rewrite <- (app_nil_r s) at 1.
  rewrite (unescape_app_plain s [] Hs). simpl. by rewrite app_nil_r.
Qed.

Lemma escaped_app_plain (pre s : pystr) :
  "%"%char ∉ pre -> escaped (pre ++ s) = escaped s.
Proof.
  induction pre as [|c pre IH]; intros Hpre; [reflexivity|].
  apply not_elem_of_cons in Hpre as [Hc Hpre].
  rewrite <- !app_comm_cons. cbn [escaped].
  rewrite bool_decide_eq_false_2 by congruence. by apply IH.
Qed.

(** On a value whose [%] all come in pairs, the loop of
    [_interpolate_some] collects the value with each pair read as one [%];
    it looks nothing up. *)
Lemma scan_escaped recurse map (n : nat) :
  forall (accum : list pystr) (rest : pystr),
  length rest <= n -> escaped rest = true ->
  exists L, ConfigParser.scan recurse map n accum rest = Ok (accum ++ L)
            /\ concat L = unescape rest.
Proof.
  induction n as [|n IH]; intros accum rest Hlen Hesc.
  - destruct rest; [|simpl in Hlen; lia]. exists []. simpl.
    by rewrite app_nil_r.
  - cbn [ConfigParser.scan]. destruct rest as [|c rest].
    { exists []. simpl. by rewrite app_nil_r. }
    cbn [truthy negb].
    destruct (first_occurrence (c :: rest) "%"%char)
      as [Hno|(pre & tail & Heq & Hpre)].
    + rewrite (find_absent _ _ Hno). exists [c :: rest]. split; [done|].
      rewrite (unescape_plain _ Hno). simpl. by rewrite app_nil_r.
    + rewrite Heq in *. clear Heq.
      rewrite (find_app_first pre tail "%"%char Hpre).
      rewrite (escaped_app_plain _ _ Hpre) in Hesc. cbn [escaped] in Hesc.
      rewrite bool_decide_eq_true_2 in Hesc by reflexivity.
      destruct tail as [|c' tail]; [discriminate|].
      apply andb_true_iff in Hesc as [->%bool_decide_eq_true Hesc].
      cbv zeta. rewrite drop_app_length. cbn [drop take].
      rewrite (bool_decide_eq_true_2 (["%"%char] = str "%")) by reflexivity.
      rewrite (unescape_app_plain _ _ Hpre). cbn [unescape].
      rewrite !(bool_decide_eq_true_2 ("%"%char = "%"%char)) by reflexivity.
      rewrite length_app in Hlen. simpl in Hlen.
      rewrite take_app_length. change (drop 0 tail) with tail.
      destruct (bool_decide (0 < length pre)) eqn:Hp.
      * destruct (IH ((accum ++ [pre]) ++ [str "%"]) tail ltac:(lia) Hesc)
          as (L & -> & HL).
        exists (pre :: str "%" :: L). split; [by rewrite <- !app_assoc|].
        simpl. by rewrite HL.
      * apply bool_decide_eq_false in Hp.
        destruct pre; [|simpl in Hp; lia].
        destruct (IH (accum ++ [str "%"]) tail ltac:(lia) Hesc)
          as (L & -> & HL).
        exists (str "%" :: L). split; [by rewrite <- !app_assoc|].
        simpl. by rewrite HL.
Qed.

Lemma before_get_escaped (v : pystr) (d : odict pystr pystr * odict pystr pystr) :
  escaped v = true -> ConfigParser.before_get v d = Ok (unescape v).
Proof.
  intros Hv. unfold ConfigParser.before_get.
  unfold ConfigParser.MAX_INTERPOLATION_DEPTH.
  cbn [ConfigParser._interpolate_some].
  match goal with
  | |- context [ConfigParser.scan ?recurse d (length v) [] v] =>
      destruct (scan_escaped recurse d (length v) [] v (Nat.le_refl _) Hv)
        as (L & HL & Hcat)
  end.
  rewrite HL. simpl. by rewrite Hcat.
Qed.

(** *** The loops of read_cfg on values with pairs [%%] *)

Lemma keys_fmap_values {V W : Type} (g : V -> W) (d : odict pystr V) :
  Dict.keys ((fun kv => (kv.1, g kv.2)) <$> d) = Dict.keys d.
Proof.
  unfold Dict.keys. rewrite <- list_fmap_compose. by apply list_fmap_ext.
Qed.

(** On a parser without defaults whose option names are in lower case and
    in whose values each [%] belongs to a pair, the loops of [read_cfg]
    rebuild the sections of the parser with each pair read as one [%]. *)
Lemma read_loops_escaped (d : document) :
  NoDup (Dict.keys d) ->
  Forall (fun so =>
            NoDup (Dict.keys so.2)
            /\ Forall (fun ov => lower ov.1 = ov.1 /\ escaped ov.2 = true) so.2) d ->
  let config := {| ConfigParser._sections := d; ConfigParser._defaults := [] |} in
  for_each
    (fun (sections_dict : document) section =>
       options ← ConfigParser.options config section;
       options_dict ←
         for_each
           (fun (options_dict : odict pystr pystr) option =>
              value ← ConfigParser.get config section option;
              mret (Dict.set options_dict option value))
           [] options;
       mret (Dict.set sections_dict section options_dict))
    [] (ConfigParser.sections config)
  = Ok ((fun so : pystr * odict pystr pystr =>
           (so.1, (fun ov : pystr * pystr => (ov.1, unescape ov.2)) <$> so.2))
          <$> d : document).
Proof.
  intros Hnd Hall config.
  assert (Hget_all : forall s options, (s, options) ∈ d ->
            Dict.get d s = Some options
            /\ NoDup (Dict.keys options)
            /\ forall k v, (k, v) ∈ options ->
                  ConfigParser.get config s k = Ok (unescape v)).
  { intros s options Hin.
    pose proof (dict_get_elem _ _ _ Hnd Hin) as Hget.
    rewrite Forall_forall in Hall. destruct (Hall _ Hin) as [Hndo Hopts].
    cbn [fst snd] in Hndo, Hopts.
    split; [exact Hget|]. split; [exact Hndo|]. intros k v Hkv.
    rewrite Forall_forall in Hopts.
    destruct (Hopts _ Hkv) as [Hlow Hpc]. cbn [fst snd] in Hlow, Hpc.
    unfold ConfigParser.get, ConfigParser._unify_values, config.
    cbn [ConfigParser._sections ConfigParser._defaults].
    rewrite Hget. cbn [mbind result_bind].
    unfold ConfigParser.optionxform, ConfigParser.chain_get.
    rewrite Hlow. cbn [fst snd]. rewrite (dict_get_elem _ _ _ Hndo Hkv).
    by apply before_get_escaped. }
  set (values := fmap (M := list) (fun ov : pystr * pystr => (ov.1, unescape ov.2))).
  assert (Hkeys : ConfigParser.sections config
                  = Dict.keys ((fun so => (so.1, values so.2)) <$> d))
    by (symmetry; apply keys_fmap_values).
  rewrite Hkeys.
  refine (for_each_rebuild _ _ _ _ [] _);
    [by rewrite keys_fmap_values | | intros k _; apply not_elem_of_nil].
  intros acc s options' ([s0 options] & [= -> ->] & Hin)%list_elem_of_fmap.
  cbn [fst snd].
  destruct (Hget_all s0 options Hin) as (Hget & Hndo & Hvals).
  subst config. cbn beta. unfold ConfigParser.options.
  cbn [ConfigParser._sections ConfigParser._defaults].
  rewrite Hget, dict_update_nil. cbn [mbind result_bind].
  match goal with
  | |- context [for_each ?body [] (Dict.keys options)] =>
      assert (Hinner : for_each body [] (Dict.keys options) = Ok (values options))
  end.
  { rewrite <- (keys_fmap_values unescape options).
    refine (for_each_rebuild _ _ _ _ [] _);
      [by rewrite keys_fmap_values | | intros k _; apply not_elem_of_nil].
    intros acc' k v' ([k0 v] & [= -> ->] & Hkv)%list_elem_of_fmap.
    cbn [fst snd]. cbn beta. by rewrite (Hvals k0 v Hkv). }
  by rewrite Hinner.
Qed.

Lemma document_read_eq (doc : document) :
  (fun so : pystr * odict pystr pystr =>
     (so.1, (fun ov : pystr * pystr => (ov.1, unescape ov.2)) <$> so.2))
    <$> lowered (stored doc)
  = document_read doc.
Proof.
  unfold document_read, lowered, stored. rewrite <- !list_fmap_compose.
  apply list_fmap_ext. intros _ [s options] _. cbn. f_equal.
  unfold options_read, lowered_options. rewrite <- list_fmap_compose.
  by apply list_fmap_ext.
Qed.

(** What [writable] says. *)
Lemma writable_spec (doc : document) :
  writable doc = true ->
  NoDup (Dict.keys doc)
  /\ Forall (fun so =>
               section_ok so.1 = true
               /\ NoDup (lower <$> Dict.keys (stored_options so.2))
               /\ Forall (fun ov =>
                            one_line ov.1 = true /\ one_line ov.2 = true
                            /\ (comment_name ov.1 = true
                                \/ option_ok ov.1 = true
                                   /\ escaped (strip ov.2) = true)) so.2) doc.
Proof.
  unfold writable. rewrite andb_true_iff, bool_decide_eq_true, forallb_forall.
  intros [Hnd Hall]. split; [exact Hnd|].
  apply Forall_forall. intros so Hin%list_elem_of_In.
  specialize (Hall so Hin). apply andb_true_iff in Hall as [Hs Ho].
  split; [exact Hs|]. unfold options_writable in Ho.
  apply andb_true_iff in Ho as [Hndo%bool_decide_eq_true Ho].
  split; [exact Hndo|]. rewrite forallb_forall in Ho.
  apply Forall_forall. intros ov Hov%list_elem_of_In.
  specialize (Ho ov Hov). unfold option_writable in Ho.
  rewrite !andb_true_iff, orb_true_iff, andb_true_iff in Ho. tauto.
Qed.

(** Reading back what [create_cfg] wrote for a writable document. *)
Lemma read_back_general (fs : gmap pystr pystr) (file : pystr) (doc : document) :
  writable doc = true ->
  read_cfg (create_cfg fs file doc) file = Ok (document_read doc).
Proof.
  intros [Hnd Hok]%writable_spec.
  unfold read_cfg, create_cfg, ConfigParser.read.
  rewrite lookup_insert_eq, (lines_written_one_line doc).
  2:{ eapply Forall_impl; [exact Hok|].
      intros [s options] (Hs & _ & Ho). cbn [fst snd] in *. split.
      - unfold section_ok in Hs. by repeat (apply andb_true_iff in Hs as [Hs ?]).
      - eapply Forall_impl; [exact Ho|]. intros ov (Ho1 & Ho2 & _).
        by split. }
  destruct (reading_document_general doc [] ConfigParser.fresh 1 reading_fresh)
    as (st & Hrun & Hr).
  { exact Hnd. }
  { eapply Forall_impl; [exact Hok|].
    intros [s options] (Hs & Hndo & Ho). cbn [fst snd] in *.
    split; [exact Hs|]. split; [exact Hndo|].
    eapply Forall_impl; [exact Ho|].
    intros ov (_ & _ & [Hc|[Hname _]]); [by left | by right]. }
  rewrite app_nil_l in Hr.
  unfold ConfigParser._read. rewrite Hrun. simpl.
  rewrite (reading_errors _ _ Hr), bool_decide_eq_true_2 by reflexivity.
  simpl. unfold ConfigParser._join_multiline_values.
  rewrite (reading_defaults _ _ Hr).
  rewrite (join_sections_raw (stored doc) _).
  - rewrite <- document_read_eq. apply read_loops_escaped.
    + by rewrite lowered_keys, stored_keys.
    + unfold lowered, stored. rewrite <- list_fmap_compose. apply Forall_fmap.
      eapply Forall_impl; [exact Hok|].
      intros [s options] (_ & Hndo & Hopts). cbn [fst snd compose] in *.
      split; [by rewrite lowered_options_keys|].
      unfold lowered_options. apply Forall_fmap. unfold stored_options.
      apply Forall_fmap. apply Forall_forall.
      intros [o v] [Hc Hin]%list_elem_of_filter. cbn [fst snd compose] in *.
      split; [apply lower_idemp|].
      rewrite Forall_forall in Hopts.
      destruct (Hopts _ Hin) as (_ & _ & [Hc'|[_ Hesc]]); cbn [fst snd] in *;
        [congruence | exact Hesc].
  - unfold stored. apply Forall_fmap. apply Forall_forall.
    intros [s options] _. cbn [fst snd compose]. unfold stored_options.
    apply Forall_fmap. apply Forall_forall. intros [o v] _.
    cbn [fst snd compose]. apply rstrip_strip.
  - exact (reading_sections _ _ Hr).
Qed.

(** X17: what [read_cfg] returns for the file [create_cfg] wrote, for every
    document whose section names are distinct, non-empty, on one line and
    not [DEFAULT], whose option names and values are on one line, and whose
    options either have a name that starts with [#] or [;], or have a name
    in order and a value in which, once stripped, each [%] belongs to a
    pair, the names that are kept being distinct once in lower case: the
    options whose name starts with [#] or [;] are left out, the other names
    come back in lower case, and the values come back without the white
    space at their ends and with each [%%] read as [%]. *)
Theorem create_then_read_general
    (fs : gmap pystr pystr) (file : pystr) (doc : document) :
  writable doc = true ->
  read_cfg (create_cfg fs file doc) file = Ok (document_read doc).
Proof. apply read_back_general. Qed.

Lemma create_then_read_general_witness :
  read_cfg (create_cfg ∅ (str "app.cfg") loose_document) (str "app.cfg")
  = Ok [(str "job", [(str "progress", str "50% done")])].
Proof.
  assert (H : writable loose_document = true) by (vm_compute; reflexivity).
  exact (create_then_read_general ∅ (str "app.cfg") loose_document H).
Defined.

Lemma lower_char_comment (c : ascii) :
  bool_decide (lower_char c = "#"%char) = bool_decide (c = "#"%char)
  /\ bool_decide (lower_char c = ";"%char) = bool_decide (c = ";"%char).
Proof. destruct c as [[] [] [] [] [] [] [] []]; by vm_compute. Qed.

Lemma comment_name_lower (o : pystr) : comment_name (lower o) = comment_name o.
Proof.
  destruct o as [|c o]; [reflexivity|].
  unfold comment_name. simpl.
  destruct (lower_char_comment c) as [-> ->]. reflexivity.
Qed.

(** X18: an option whose name starts with [#] or [;] is written by
    [create_cfg] as a line the parser takes for a comment: no option of
    the document read back has such a name. *)
Theorem comment_options_not_read_back
    (fs : gmap pystr pystr) (file : pystr) (doc d : document) :
  writable doc = true ->
  read_cfg (create_cfg fs file doc) file = Ok d ->
  Forall (fun so => Forall (fun ov => comment_name ov.1 = false) so.2) d.
Proof.
  intros Hw. rewrite (read_back_general fs file doc Hw). intros [= <-].
  unfold document_read. apply Forall_fmap, Forall_forall.
  intros [s options] _. cbn [fst snd compose].
  unfold options_read, stored_options. apply Forall_fmap, Forall_fmap, Forall_forall.
  intros [o v] [Hc _]%list_elem_of_filter. cbn [fst snd compose] in *.
  by rewrite comment_name_lower.
Qed.

Lemma comment_options_not_read_back_witness :
  writable loose_document = true
  /\ (str "#note", str "x") ∈ default [] (Dict.get loose_document (str "job"))
  /\ Forall (fun so => Forall (fun ov => comment_name ov.1 = false) so.2)
            [(str "job", [(str "progress", str "50% done")])].
Proof.
  assert (H : writable loose_document = true) by (vm_compute; reflexivity).
  split; [exact H|]. split; [vm_compute; by right; left|].
  apply (comment_options_not_read_back ∅ (str "app.cfg") loose_document _ H).
  vm_compute. reflexivity.
Defined.

(** *** Writing each [%] twice *)

Lemma escape_cons (c : ascii) (s : pystr) :
  escape (c :: s)
  = (if bool_decide (c = "%"%char) then str "%%" else [c]) ++ escape s.
Proof. reflexivity. Qed.

Lemma escape_app (a b : pystr) : escape (a ++ b) = escape a ++ escape b.
Proof. unfold escape. apply bind_app. Qed.

Lemma escape_rev (s : pystr) : escape (rev s) = rev (escape s).
Proof.
  induction s as [|c s IH]; [reflexivity|].
  simpl rev. rewrite escape_app, IH, !escape_cons, rev_app_distr.
  change (escape []) with (@nil ascii). rewrite app_nil_r.
  by destruct (bool_decide (c = "%"%char)).
Qed.

Lemma lstrip_escape (s : pystr) : lstrip (escape s) = escape (lstrip s).
Proof.
  induction s as [|c s IH]; [reflexivity|].
  rewrite escape_cons. destruct (bool_decide (c = "%"%char)) eqn:Hc.
  - apply bool_decide_eq_true in Hc as ->. reflexivity.
  - cbn [app lstrip]. destruct (isspace c); [exact IH|].
    by rewrite escape_cons, Hc.
Qed.

Lemma rstrip_escape (s : pystr) : rstrip (escape s) = escape (rstrip s).
Proof. unfold rstrip. by rewrite <- escape_rev, lstrip_escape, escape_rev. Qed.

Lemma strip_escape (s : pystr) : strip (escape s) = escape (strip s).
Proof. unfold strip. by rewrite lstrip_escape, rstrip_escape. Qed.

(** Reading undoes the doubling. *)
Lemma unescape_escape (s : pystr) : unescape (escape s) = s.
Proof.
  induction s as [|c s IH]; [reflexivity|].
  rewrite escape_cons. destruct (bool_decide (c = "%"%char)) eqn:Hc.
  - apply bool_decide_eq_true in Hc as ->. cbn [str list_ascii_of_string app unescape].
    rewrite !bool_decide_eq_true_2 by reflexivity. by rewrite IH.
  - cbn [app unescape]. by rewrite Hc, IH.
Qed.

Lemma escaped_escape (s : pystr) : escaped (escape s) = true.
Proof.
  induction s as [|c s IH]; [reflexivity|].
  rewrite escape_cons. destruct (bool_decide (c = "%"%char)) eqn:Hc.
  - cbn [str list_ascii_of_string app escaped].
    by rewrite !bool_decide_eq_true_2 by reflexivity.
  - cbn [app escaped]. by rewrite Hc.
Qed.

Lemma options_read_escape (options : odict pystr pystr) :
  options_read (escape_options options) = lowered_options (stored_options options).
Proof.
  unfold options_read, escape_options, lowered_options.
  induction options as [|[o v] options IH]; [reflexivity|].
  rewrite fmap_cons. cbn [fst snd]. rewrite !stored_options_cons.
  destruct (comment_name o); [exact IH|].
  rewrite !fmap_cons, IH. cbn [fst snd].
  by rewrite strip_escape, unescape_escape.
Qed.

Lemma document_read_escape (doc : document) :
  document_read (escape_values doc) = lowered (stored doc).
Proof.
  unfold document_read, escape_values, lowered, stored.
  rewrite <- !list_fmap_compose. apply list_fmap_ext.
  intros _ [s options] _. unfold compose. cbn [fst snd].
  by rewrite <- options_read_escape.
Qed.

(** X19: when each [%] of the values is written twice, the values come
    back as they were, up to the white space at their ends: the document
    read back is the document given, without the options whose name starts
    with [#] or [;], with its option names in lower case and its values
    stripped. *)
Theorem escape_then_read
    (fs : gmap pystr pystr) (file : pystr) (doc : document) :
  writable (escape_values doc) = true ->
  read_cfg (create_cfg fs file (escape_values doc)) file
  = Ok (lowered (stored doc)).
Proof.
  intros Hw. rewrite (read_back_general fs file _ Hw).
  by rewrite document_read_escape.
Qed.

Lemma escape_then_read_witness :
  read_cfg (create_cfg ∅ (str "app.cfg") (escape_values percent_document))
           (str "app.cfg")
  = Ok percent_document.
Proof.
  assert (H : writable (escape_values percent_document) = true)
    by (vm_compute; reflexivity).
  exact (escape_then_read ∅ (str "app.cfg") percent_document H).
Defined.

(** *** Option names that differ by capitals only *)

Lemma one_line_document_spec (doc : document) :
  one_line_document doc = true ->
  Forall (fun so =>
            one_line so.1 = true
            /\ Forall (fun ov => one_line ov.1 = true /\ one_line ov.2 = true)
                      so.2) doc.
Proof.
  unfold one_line_document. rewrite forallb_forall.
  intros Hall. apply Forall_forall. intros so Hin%list_elem_of_In.
  specialize (Hall so Hin). apply andb_true_iff in Hall as [Hs Ho].
  split; [exact Hs|]. rewrite forallb_forall in Ho.
  apply Forall_forall. intros ov Hov%list_elem_of_In.
  by apply andb_true_iff, Ho.
Qed.

Lemma section_lines_split (before after : document) (s : pystr)
    (options more : odict pystr pystr) (o v : pystr) :
  mbind section_lines (before ++ (s, options ++ (o, v) :: more) :: after)
  = mbind section_lines before
    ++ section_lines (s, options)
    ++ option_line (o, v)
       :: ((option_line <$> more) ++ mbind section_lines after).
Proof.
  rewrite bind_app.
  change (mbind section_lines ((s, options ++ (o, v) :: more) :: after))
    with (section_lines (s, options ++ (o, v) :: more)
          ++ mbind section_lines after).
  unfold section_lines. cbn [fst snd]. rewrite fmap_app, fmap_cons.
  by rewrite <- !app_comm_cons, <- app_assoc.
Qed.

(** The line of an option whose lower-case name the section being read
    already holds. *)
Lemma read_line_duplicate (doc : document) (s : pystr)
    (options : odict pystr pystr) (st : ConfigParser.reader) (lineno : nat)
    (o v : pystr) :
  reading (doc ++ [(s, options)]) st ->
  option_ok o = true ->
  inr (Some s, lower o) ∈ ConfigParser.elements_added st ->
  ConfigParser.read_line st lineno (ended (option_line (o, v)))
  = Raise DuplicateOptionError.
Proof.
  intros [_ _ _ _ _ Hcur] Ho Hin.
  rewrite last_snoc in Hcur. destruct Hcur as (Hcs & Hsn & _). simpl in *.
  rewrite (read_line_option_padded st _ lineno o v Ho Hcs).
  unfold ConfigParser.enter_option.
  rewrite (OPTCRE_match_general o (rstrip v) Ho).
  pose proof (option_ok_spec o Ho) as (_ & _ & _ & Hr & _).
  rewrite Hr, Hsn. unfold ConfigParser.optionxform.
  by rewrite (bool_decide_eq_true_2 _ Hin).
Qed.

(** X20: when, in a section, an option name in order equals, once in
    lower case, the lower-case name of an option written before it in the
    same section, [create_cfg] writes the document and [read_cfg] raises
    DuplicateOptionError on the file, whatever follows that option. *)
Theorem read_cfg_duplicate_option
    (fs : gmap pystr pystr) (file : pystr) (before after : document)
    (s : pystr) (options more : odict pystr pystr) (o v : pystr) :
  writable (before ++ [(s, options)]) = true ->
  option_ok o = true ->
  lower o ∈ lower <$> Dict.keys (stored_options options) ->
  one_line_document (before ++ (s, options ++ (o, v) :: more) :: after) = true ->
  read_cfg (create_cfg fs file
              (before ++ (s, options ++ (o, v) :: more) :: after)) file
  = Raise DuplicateOptionError.
Proof.
  intros [Hnd Hok]%writable_spec Ho Hdup Hlines%one_line_document_spec.
  unfold read_cfg, create_cfg, ConfigParser.read.
  rewrite lookup_insert_eq, (lines_written_one_line _ Hlines).
  rewrite section_lines_split, !fmap_app, fmap_cons.
  unfold ConfigParser._read. rewrite !read_lines_app.
  rewrite keys_snoc in Hnd. apply NoDup_app in Hnd as (Hndb & Hfresh & _).
  apply Forall_app in Hok as [Hokb Hoks].
  apply Forall_cons in Hoks as [(Hs & Hndo & Hopts) _]. cbn [fst snd] in *.
  destruct (reading_document_general before [] ConfigParser.fresh 1 reading_fresh)
    as (st0 & Hrun0 & Hr0).
  { exact Hndb. }
  { eapply Forall_impl; [exact Hokb|].
    intros [s' options'] (Hs' & Hndo' & Ho'). cbn [fst snd] in *.
    split; [exact Hs'|]. split; [exact Hndo'|].
    eapply Forall_impl; [exact Ho'|].
    intros ov (_ & _ & [Hc|[Hname _]]); [by left | by right]. }
  rewrite app_nil_l in Hr0. rewrite Hrun0. cbn [mbind result_bind].
  assert (Hsection : forall lineno, exists st1,
            ConfigParser.read_lines st0 lineno (ended <$> section_lines (s, options))
            = Ok st1
            /\ reading (stored before ++ [(s, stored_options options)]) st1
            /\ forall k, k ∈ lower <$> Dict.keys (stored_options options) ->
                         inr (Some s, k) ∈ ConfigParser.elements_added st1).
  { intros lineno. apply reading_section_general; [exact Hr0 | | exact Hs | exact Hndo |].
    - rewrite stored_keys. intros Hin. apply (Hfresh _ Hin). by left.
    - eapply Forall_impl; [exact Hopts|].
      intros ov (_ & _ & [Hc|[Hname _]]); [by left | by right]. }
  rewrite read_lines_app.
  match goal with
  | |- context [ConfigParser.read_lines st0 ?lineno
                  (ended <$> section_lines (s, options))] =>
      destruct (Hsection lineno) as (st1 & Hrun1 & Hr1 & Hadded)
  end.
  rewrite Hrun1. cbn [mbind result_bind ConfigParser.read_lines].
  by rewrite (read_line_duplicate _ _ _ _ _ o v Hr1 Ho (Hadded _ Hdup)).
Qed.

Lemma read_cfg_duplicate_option_witness :
  read_cfg (create_cfg ∅ (str "app.cfg") clash_document) (str "app.cfg")
  = Raise DuplicateOptionError.
Proof.
  assert (Hw : writable ([] ++ [(str "server", [(str "Host", str "localhost")])])
               = true) by (vm_compute; reflexivity).
  assert (Ho : option_ok (str "host") = true) by reflexivity.
  assert (Hdup : lower (str "host")
                 ∈ lower <$> Dict.keys
                     (stored_options [(str "Host", str "localhost")]))
    by (vm_compute; by left).
  assert (Hl : one_line_document clash_document = true) by reflexivity.
  exact (read_cfg_duplicate_option ∅ (str "app.cfg") []
           [(str "paths", [(str "root", str "/var/www")])]
           (str "server") [(str "Host", str "localhost")]
           [(str "port", str "8080")] (str "host") (str "127.0.0.1")
           Hw Ho Hdup Hl).
Defined.

(** *** A [%] that nothing the interpolation knows follows *)

Lemma parsable_spec (doc : document) :
  parsable doc = true ->
  NoDup (Dict.keys doc)
  /\ Forall (fun so =>
               section_ok so.1 = true
               /\ NoDup (lower <$> Dict.keys (stored_options so.2))
               /\ Forall (fun ov =>
                            one_line ov.1 = true /\ one_line ov.2 = true
                            /\ (comment_name ov.1 = true \/ option_ok ov.1 = true))
                         so.2) doc.
Proof.
  unfold parsable. rewrite andb_true_iff, bool_decide_eq_true, forallb_forall.
  intros [Hnd Hall]. split; [exact Hnd|].
  apply Forall_forall. intros so Hin%list_elem_of_In.
  specialize (Hall so Hin). apply andb_true_iff in Hall as [Hs Ho].
  split; [exact Hs|]. unfold options_parsable in Ho.
  apply andb_true_iff in Ho as [Hndo%bool_decide_eq_true Ho].
  split; [exact Hndo|]. rewrite forallb_forall in Ho.
  apply Forall_forall. intros ov Hov%list_elem_of_In.
  specialize (Ho ov Hov). unfold option_parsable in Ho.
  rewrite !andb_true_iff, orb_true_iff in Ho. tauto.
Qed.

(** The parser after it read the file written for a parsable document. *)
Lemma read_written (fs : gmap pystr pystr) (file : pystr) (doc : document) :
  parsable doc = true ->
  ConfigParser.read (create_cfg fs file doc) file
  = Ok {| ConfigParser._sections := lowered (stored doc);
          ConfigParser._defaults := [] |}.
Proof.
  intros [Hnd Hok]%parsable_spec.
  unfold create_cfg, ConfigParser.read.
  rewrite lookup_insert_eq, (lines_written_one_line doc).
  2:{ eapply Forall_impl; [exact Hok|].
      intros [s options] (Hs & _ & Ho). cbn [fst snd] in *. split.
      - unfold section_ok in Hs. by repeat (apply andb_true_iff in Hs as [Hs ?]).
      - eapply Forall_impl; [exact Ho|]. intros ov (Ho1 & Ho2 & _).
        by split. }
  destruct (reading_document_general doc [] ConfigParser.fresh 1 reading_fresh)
    as (st & Hrun & Hr).
  { exact Hnd. }
  { eapply Forall_impl; [exact Hok|].
    intros [s options] (Hs & Hndo & Ho). cbn [fst snd] in *.
    split; [exact Hs|]. split; [exact Hndo|].
    eapply Forall_impl; [exact Ho|]. by intros ov (_ & _ & Hname). }
  rewrite app_nil_l in Hr.
  unfold ConfigParser._read. rewrite Hrun. simpl.
  rewrite (reading_errors _ _ Hr), bool_decide_eq_true_2 by reflexivity.
  unfold ConfigParser._join_multiline_values.
  rewrite (reading_defaults _ _ Hr).
  rewrite (join_sections_raw (stored doc) _); [reflexivity | |].
  - unfold stored. apply Forall_fmap. apply Forall_forall.
    intros [s options] _. cbn [fst snd compose]. unfold stored_options.
    apply Forall_fmap. apply Forall_forall. intros [o v] _.
    cbn [fst snd compose]. apply rstrip_strip.
  - exact (reading_sections _ _ Hr).
Qed.

Section traverse_facts.
Context {K A B : Type} `{EqDecision K}.

(** A loop that inserts, key after key, what a function makes of the
    entries of a dictionary: the dictionary of the results, or the first
    error. *)
Lemma for_each_traverse (body : odict K B -> K -> result (odict K B))
    (f : A -> result B) (d : odict K A) :
  NoDup (Dict.keys d) ->
  (forall acc k a, (k, a) ∈ d ->
     body acc k = f a ≫= fun b => Ok (Dict.set acc k b)) ->
  forall acc, (forall k, k ∈ Dict.keys d -> k ∉ Dict.keys acc) ->
  for_each body acc (Dict.keys d)
  = traverse f d ≫= fun d' => Ok (acc ++ d').
Proof.
  induction d as [|[k a] d IH]; intros Hnd Hbody acc Hacc.
  - simpl. by rewrite app_nil_r.
  - unfold Dict.keys in Hnd, Hacc. csimpl in *.
    apply NoDup_cons in Hnd as [Hk Hnd].
    rewrite (Hbody acc k a) by (by left).
    destruct (f a) as [b|err]; [|reflexivity]. cbn [mbind result_bind].
    rewrite dict_set_fresh by (apply Hacc; by left).
    rewrite IH.
    + destruct (traverse f d) as [d'|err]; [|reflexivity].
      cbn [mbind result_bind mret result_ret]. by rewrite <- app_assoc.
    + exact Hnd.
    + intros acc' k' a' Hin. apply Hbody. by right.
    + intros k' Hin. unfold Dict.keys. rewrite fmap_app. csimpl.
      apply not_elem_of_app. split; [apply Hacc; by right|].
      intros ->%list_elem_of_singleton. by apply Hk.
Qed.

Lemma traverse_ok (f : A -> result B) (g : A -> B) (d : odict K A) :
  Forall (fun ka => f ka.2 = Ok (g ka.2)) d ->
  traverse f d = Ok ((fun ka => (ka.1, g ka.2)) <$> d).
Proof.
  induction 1 as [|[k a] d Ha _ IH]; [reflexivity|].
  cbn [traverse fst snd] in *. by rewrite Ha, IH.
Qed.

Lemma traverse_raise (f : A -> result B) (g : A -> B) (err : exn)
    (pre rest : odict K A) (k : K) (a : A) :
  Forall (fun ka => f ka.2 = Ok (g ka.2)) pre ->
  f a = Raise err ->
  traverse f (pre ++ (k, a) :: rest) = Raise err.
Proof.
  intros Hpre Ha. induction Hpre as [|[k' a'] pre Ha' _ IH].
  - cbn [app traverse]. by rewrite Ha.
  - rewrite <- app_comm_cons. cbn [traverse fst snd] in *. by rewrite Ha', IH.
Qed.
End traverse_facts.

(** On a parser without defaults whose option names are in lower case, the
    loops of [read_cfg] interpolate the values one after the other, each
    in its section, up to the first error. *)
Lemma read_loops_traverse (d : document) :
  NoDup (Dict.keys d) ->
  Forall (fun so =>
            NoDup (Dict.keys so.2)
            /\ Forall (fun ov => lower ov.1 = ov.1) so.2) d ->
  let config := {| ConfigParser._sections := d; ConfigParser._defaults := [] |} in
  for_each
    (fun (sections_dict : document) section =>
       options ← ConfigParser.options config section;
       options_dict ←
         for_each
           (fun (options_dict : odict pystr pystr) option =>
              value ← ConfigParser.get config section option;
              mret (Dict.set options_dict option value))
           [] options;
       mret (Dict.set sections_dict section options_dict))
    [] (ConfigParser.sections config)
  = traverse
      (fun options : odict pystr pystr =>
         traverse (fun v => ConfigParser.before_get v (options, [])) options)
      d.
Proof.
  intros Hnd Hall config.
  assert (Hget_all : forall s options, (s, options) ∈ d ->
            Dict.get d s = Some options
            /\ NoDup (Dict.keys options)
            /\ forall k v, (k, v) ∈ options ->
                  ConfigParser.get config s k
                  = ConfigParser.before_get v (options, [])).
  { intros s options Hin.
    pose proof (dict_get_elem _ _ _ Hnd Hin) as Hget.
    rewrite Forall_forall in Hall. destruct (Hall _ Hin) as [Hndo Hopts].
    cbn [fst snd] in Hndo, Hopts.
    split; [exact Hget|]. split; [exact Hndo|]. intros k v Hkv.
    rewrite Forall_forall in Hopts.
    pose proof (Hopts _ Hkv) as Hlow. cbn [fst snd] in Hlow.
    unfold ConfigParser.get, ConfigParser._unify_values, config.
    cbn [ConfigParser._sections ConfigParser._defaults].
    rewrite Hget. cbn [mbind result_bind].
    unfold ConfigParser.optionxform, ConfigParser.chain_get.
    rewrite Hlow. cbn [fst snd]. by rewrite (dict_get_elem _ _ _ Hndo Hkv). }
  set (f := fun options : odict pystr pystr =>
              traverse (fun v => ConfigParser.before_get v (options, [])) options).
  etransitivity.
  - refine (for_each_traverse _ f d Hnd _ [] _);
      [|intros k _; apply not_elem_of_nil].
    intros acc s options Hin.
    destruct (Hget_all s options Hin) as (Hget & Hndo & Hvals).
    subst config. cbn beta. unfold ConfigParser.options.
    cbn [ConfigParser._sections ConfigParser._defaults].
    rewrite Hget, dict_update_nil. cbn [mbind result_bind].
    match goal with
    | |- context [for_each ?body [] (Dict.keys options)] =>
        assert (Hinner : for_each body [] (Dict.keys options) = f options)
    end.
    { etransitivity.
      - refine (for_each_traverse _
                  (fun v => ConfigParser.before_get v (options, []))
                  options Hndo _ [] _);
          [|intros k _; apply not_elem_of_nil].
        intros acc' k v Hkv. cbn beta. by rewrite (Hvals k v Hkv).
      - unfold f. by destruct (traverse _ options). }
    rewrite Hinner. by destruct (f options).
  - by destruct (traverse f d).
Qed.

Lemma stray_percent_app_plain (pre s : pystr) :
  "%"%char ∉ pre -> stray_percent (pre ++ s) = stray_percent s.
Proof.
  induction pre as [|c pre IH]; intros Hpre; [reflexivity|].
  apply not_elem_of_cons in Hpre as [Hc Hpre].
  rewrite <- !app_comm_cons. cbn [stray_percent].
  rewrite bool_decide_eq_false_2 by congruence. by apply IH.
Qed.

Lemma stray_percent_plain (s : pystr) : "%"%char ∉ s -> stray_percent s = false.
Proof.
  intros Hs. rewrite <- (app_nil_r s). by rewrite (stray_percent_app_plain s [] Hs).
Qed.

(** On such a value the loop of [_interpolate_some] raises
    InterpolationSyntaxError. *)
Lemma scan_stray recurse map (n : nat) :
  forall (accum : list pystr) (rest : pystr),
  length rest <= n -> stray_percent rest = true ->
  ConfigParser.scan recurse map n accum rest = Raise InterpolationSyntaxError.
Proof.
  induction n as [|n IH]; intros accum rest Hlen Hstray.
  - destruct rest; [discriminate | simpl in Hlen; lia].
  - cbn [ConfigParser.scan]. destruct rest as [|c rest]; [discriminate|].
    cbn [truthy negb].
    destruct (first_occurrence (c :: rest) "%"%char)
      as [Hno|(pre & tail & Heq & Hpre)].
    { by rewrite (stray_percent_plain _ Hno) in Hstray. }
    rewrite Heq in *. clear Heq.
    rewrite (find_app_first pre tail "%"%char Hpre).
    rewrite (stray_percent_app_plain _ _ Hpre) in Hstray.
    cbn [stray_percent] in Hstray.
    rewrite bool_decide_eq_true_2 in Hstray by reflexivity.
    cbv zeta. rewrite drop_app_length.
    destruct tail as [|c' tail]; [reflexivity|].
    cbn [drop take].
    destruct (bool_decide (c' = "%"%char)) eqn:Hc'.
    + apply bool_decide_eq_true in Hc' as ->.
      rewrite (bool_decide_eq_true_2 (["%"%char] = str "%")) by reflexivity.
      change (drop 0 tail) with tail.
      apply IH; [|exact Hstray].
      rewrite length_app in Hlen. simpl in Hlen. lia.
    + apply bool_decide_eq_false in Hc'. apply negb_true_iff in Hstray.
      apply bool_decide_eq_false in Hstray.
      rewrite bool_decide_eq_false_2 by (unfold str; simpl; congruence).
      rewrite bool_decide_eq_false_2 by (unfold str; simpl; congruence).
      reflexivity.
Qed.

Lemma before_get_stray (v : pystr) (d : odict pystr pystr * odict pystr pystr) :
  stray_percent v = true ->
  ConfigParser.before_get v d = Raise InterpolationSyntaxError.
Proof.
  intros Hv. unfold ConfigParser.before_get.
  unfold ConfigParser.MAX_INTERPOLATION_DEPTH.
  cbn [ConfigParser._interpolate_some].
  by rewrite (scan_stray _ _ _ _ _ (Nat.le_refl _) Hv).
Qed.

Lemma stored_options_app (options more : odict pystr pystr) :
  stored_options (options ++ more) = stored_options options ++ stored_options more.
Proof. unfold stored_options. by rewrite filter_app, fmap_app. Qed.

Lemma lowered_stored_split (before after : document) (s : pystr)
    (options more : odict pystr pystr) (o v : pystr) :
  comment_name o = false ->
  lowered (stored (before ++ (s, options ++ (o, v) :: more) :: after))
  = lowered (stored before)
    ++ (s, lowered_options (stored_options options)
           ++ (lower o, strip v) :: lowered_options (stored_options more))
       :: lowered (stored after).
Proof.
  intros Hc. unfold lowered, stored. rewrite !fmap_app, !fmap_cons.
  cbn [fst snd]. rewrite stored_options_app, stored_options_cons, Hc.
  unfold lowered_options. by rewrite fmap_app, fmap_cons.
Qed.

(** X21: in a document whose file the parser reads without error, when
    the stripped value of an option holds a [%] that is followed neither by
    [%] nor by an opening parenthesis (at the end of the value, for
    instance), and every [%] before it, in that value and in the options
    and sections written before, belongs to a pair [%%], [read_cfg] raises
    InterpolationSyntaxError on the file written. *)
Theorem read_cfg_stray_percent
    (fs : gmap pystr pystr) (file : pystr) (before after : document)
    (s : pystr) (options more : odict pystr pystr) (o v : pystr) :
  parsable (before ++ (s, options ++ (o, v) :: more) :: after) = true ->
  writable (before ++ [(s, options)]) = true ->
  comment_name o = false ->
  stray_percent (strip v) = true ->
  read_cfg (create_cfg fs file
              (before ++ (s, options ++ (o, v) :: more) :: after)) file
  = Raise InterpolationSyntaxError.
Proof.
  intros Hp Hw Hc Hstray. unfold read_cfg.
  rewrite (read_written fs file _ Hp). cbn [mbind result_bind].
  apply parsable_spec in Hp as [Hnd Hok].
  rewrite read_loops_traverse.
  - rewrite (lowered_stored_split _ _ _ _ _ _ _ Hc).
    apply writable_spec in Hw as [_ Hw].
    apply Forall_app in Hw as [Hwb Hws].
    apply Forall_cons in Hws as [(_ & _ & Hwo) _]. cbn [fst snd] in Hwo.
    assert (Hescaped : forall options',
              Forall (fun ov =>
                        one_line ov.1 = true /\ one_line ov.2 = true
                        /\ (comment_name ov.1 = true
                            \/ option_ok ov.1 = true
                               /\ escaped (strip ov.2) = true)) options' ->
              forall d,
              Forall (fun ka => ConfigParser.before_get ka.2 d = Ok (unescape ka.2))
                     (lowered_options (stored_options options'))).
    { intros options' Hall d. unfold lowered_options, stored_options.
      apply Forall_fmap, Forall_fmap, Forall_forall.
      intros [o' v'] [Hc' Hin]%list_elem_of_filter. cbn [fst snd compose] in *.
      rewrite Forall_forall in Hall.
      destruct (Hall _ Hin) as (_ & _ & [Hc''|[_ Hesc]]); cbn [fst snd] in *;
        [congruence|].
      by apply before_get_escaped. }
    apply (traverse_raise _
             (fun options : odict pystr pystr =>
                (fun ov : pystr * pystr => (ov.1, unescape ov.2)) <$> options)).
    + unfold lowered, stored. apply Forall_fmap, Forall_fmap.
      eapply Forall_impl; [exact Hwb|].
      intros [s' options'] (_ & _ & Hall). cbn [fst snd compose] in *.
      apply traverse_ok. by apply Hescaped.
    + apply (traverse_raise _ unescape); [by apply Hescaped|].
      by apply before_get_stray.
  - by rewrite lowered_keys, stored_keys.
  - unfold lowered, stored. apply Forall_fmap, Forall_fmap.
    eapply Forall_impl; [exact Hok|].
    intros [s' options'] (_ & Hndo & _). cbn [fst snd compose] in *.
    split; [by rewrite lowered_options_keys|].
    unfold lowered_options. apply Forall_fmap, Forall_forall.
    intros [o' v'] _. cbn [fst snd compose]. apply lower_idemp.
Qed.

Lemma read_cfg_stray_percent_witness :
  read_cfg (create_cfg ∅ (str "app.cfg") percent_document) (str "app.cfg")
  = Raise InterpolationSyntaxError.
Proof.
  assert (Hp : parsable percent_document = true) by (vm_compute; reflexivity).
  assert (Hw : writable ([] ++ [(str "job", [])]) = true)
    by (vm_compute; reflexivity).
  assert (Hc : comment_name (str "progress") = false) by reflexivity.
  assert (Hs : stray_percent (strip (str "50% done")) = true) by reflexivity.
  exact (read_cfg_stray_percent ∅ (str "app.cfg") [] [] (str "job") []
           [(str "rate", str "100%")] (str "progress") (str "50% done")
           Hp Hw Hc Hs).
Defined.

(** *** A value that refers to another option *)

Lemma interpolate_some_S (budget : nat) map (accum : list pystr) (rest : pystr) :
  ConfigParser._interpolate_some (S budget) map accum rest
  = ConfigParser.scan (ConfigParser._interpolate_some budget map) map
      (length rest) accum rest.
Proof. reflexivity. Qed.

(** A value made of text without [%], a reference to an option whose value
    has its [%] in pairs, and text with its [%] in pairs. *)
Lemma before_get_reference (pre name post w : pystr)
    (d : odict pystr pystr * odict pystr pystr) :
  "%"%char ∉ pre -> name ≠ [] -> ")"%char ∉ name -> escaped post = true ->
  ConfigParser.chain_get d (lower name) = Some w -> escaped w = true ->
  ConfigParser.before_get (pre ++ reference name ++ post) d
  = Ok (pre ++ unescape w ++ unescape post).
Proof.
  intros Hpre Hname Hclose Hpost Hget Hw. unfold reference.
  rewrite <- !app_assoc.
  change (str "%(" ++ name ++ str ")s" ++ post)
    with ("%"%char :: "("%char :: name ++ ")"%char :: "s"%char :: post).
  unfold ConfigParser.before_get, ConfigParser.MAX_INTERPOLATION_DEPTH.
  rewrite (interpolate_some_S 9).
  rewrite length_app. simpl length. rewrite Nat.add_succ_r.
  cbn [ConfigParser.scan].
  assert (Ht : truthy (pre ++ "%"%char :: "("%char :: name
                       ++ ")"%char :: "s"%char :: post) = true)
    by (destruct pre; reflexivity).
  rewrite Ht. simpl negb. cbv iota.
  rewrite (find_app_first pre _ "%"%char Hpre).
  cbv zeta. rewrite drop_app_length, take_app_length. cbn [drop take].
  rewrite bool_decide_eq_false_2 by (unfold str; simpl; congruence).
  rewrite bool_decide_eq_true_2 by reflexivity.
  unfold ConfigParser.KEYCRE_match.
  change (startswith ("%"%char :: "("%char :: name
                      ++ ")"%char :: "s"%char :: post) (str "%("))
    with true.
  cbv iota. cbn [drop]. rewrite !drop_0.
  rewrite (find_app_first name _ ")"%char Hclose).
  rewrite (bool_decide_eq_true_2 (0 < length name))
    by (destruct name; [done | simpl; lia]).
  change (name ++ ")"%char :: "s"%char :: post)
    with (name ++ [")"%char] ++ "s"%char :: post).
  rewrite app_assoc.
  rewrite (list_lookup_middle (name ++ [")"%char]) post "s"%char)
    by (rewrite length_app; simpl; lia).
  rewrite bool_decide_eq_true_2 by reflexivity. cbn [andb].
  rewrite <- app_assoc. rewrite take_app_length.
  unfold ConfigParser.optionxform. rewrite Hget.
  assert (Hdrop : drop (length name + 4)
                    ("%"%char :: "("%char :: name
                     ++ [")"%char] ++ "s"%char :: post) = post).
  { replace ("%"%char :: "("%char :: name ++ [")"%char] ++ "s"%char :: post)
      with (("%"%char :: "("%char :: name ++ [")"%char; "s"%char]) ++ post)
      by (simpl; by rewrite <- app_assoc).
    apply drop_app_length'. simpl. rewrite length_app. simpl. lia. }
  rewrite Hdrop. clear Hdrop Ht.
  set (accum := if bool_decide (0 < length pre) then [] ++ [pre] else []).
  assert (Haccum : concat accum = pre).
  { unfold accum. destruct (bool_decide (0 < length pre)) eqn:Hp.
    - simpl. by rewrite app_nil_r.
    - apply bool_decide_eq_false in Hp. destruct pre; [done | simpl in Hp; lia]. }
  assert (Hrest : forall accum' : list pystr,
            exists L, (ConfigParser.scan
                         (ConfigParser._interpolate_some 9 d) d
                         (length pre + S (length (name ++ [")"%char] ++ "s"%char :: post)))
                         accum' post
                       = Ok (accum' ++ L)) /\ concat L = unescape post).
  { intros accum'. apply scan_escaped; [|exact Hpost].
    rewrite !length_app. simpl. lia. }
  destruct (contains w "%"%char) eqn:Hcontains.
  - rewrite (interpolate_some_S 8).
    destruct (scan_escaped (ConfigParser._interpolate_some 8 d) d (length w)
                accum w (Nat.le_refl _) Hw) as (L1 & -> & HL1).
    cbn [mbind result_bind].
    destruct (Hrest (accum ++ L1)) as (L2 & -> & HL2).
    cbn [mbind result_bind]. unfold mret, result_ret.
    by rewrite !concat_app, Haccum, HL1, HL2, <- app_assoc.
  - destruct (Hrest (accum ++ [w])) as (L2 & -> & HL2).
    cbn [mbind result_bind]. unfold mret, result_ret.
    rewrite !concat_app, Haccum, HL2. simpl. rewrite app_nil_r, <- app_assoc.
    rewrite (unescape_plain w); [done|].
    unfold contains in Hcontains. by apply bool_decide_eq_false in Hcontains.
Qed.

Lemma traverse_app {K A B : Type} (f : A -> result B) (d1 d2 : odict K A) :
  traverse f (d1 ++ d2)
  = d1' ← traverse f d1; d2' ← traverse f d2; mret (d1' ++ d2').
Proof.
  induction d1 as [|[k a] d1 IH].
  - simpl. by destruct (traverse f d2).
  - rewrite <- app_comm_cons. cbn [traverse]. rewrite IH.
    destruct (f a) as [b|err]; [|reflexivity]. cbn [mbind result_bind].
    destruct (traverse f d1) as [d1'|err]; [|reflexivity].
    cbn [mbind result_bind].
    by destruct (traverse f d2).
Qed.

Lemma lowered_stored_options_split (options more : odict pystr pystr) (o v : pystr) :
  comment_name o = false ->
  lowered_options (stored_options (options ++ (o, v) :: more))
  = lowered_options (stored_options options)
    ++ (lower o, strip v) :: lowered_options (stored_options more).
Proof.
  intros Hc. rewrite stored_options_app, stored_options_cons, Hc.
  unfold lowered_options. by rewrite fmap_app, fmap_cons.
Qed.

Lemma options_read_eq (options : odict pystr pystr) :
  (fun ov : pystr * pystr => (ov.1, unescape ov.2))
    <$> lowered_options (stored_options options)
  = options_read options.
Proof.
  unfold options_read, lowered_options. rewrite <- list_fmap_compose.
  by apply list_fmap_ext.
Qed.

(** The values stored for writable options are read with each [%%] as one
    [%], whatever the section they are looked up in. *)
Lemma stored_escaped (options : odict pystr pystr)
    (d : odict pystr pystr * odict pystr pystr) :
  Forall (fun ov =>
            one_line ov.1 = true /\ one_line ov.2 = true
            /\ (comment_name ov.1 = true
                \/ option_ok ov.1 = true /\ escaped (strip ov.2) = true))
         options ->
  Forall (fun ka => ConfigParser.before_get ka.2 d = Ok (unescape ka.2))
         (lowered_options (stored_options options)).
Proof.
  intros Hall. unfold lowered_options, stored_options.
  apply Forall_fmap, Forall_fmap, Forall_forall.
  intros [o v] [Hc Hin]%list_elem_of_filter. cbn [fst snd compose] in *.
  rewrite Forall_forall in Hall.
  destruct (Hall _ Hin) as (_ & _ & [Hc'|[_ Hesc]]); cbn [fst snd] in *;
    [congruence|].
  by apply before_get_escaped.
Qed.

Lemma stored_sections_escaped (doc : document) :
  Forall (fun so =>
            section_ok so.1 = true
            /\ NoDup (lower <$> Dict.keys (stored_options so.2))
            /\ Forall (fun ov =>
                         one_line ov.1 = true /\ one_line ov.2 = true
                         /\ (comment_name ov.1 = true
                             \/ option_ok ov.1 = true
                                /\ escaped (strip ov.2) = true)) so.2) doc ->
  traverse
    (fun options : odict pystr pystr =>
       traverse (fun v => ConfigParser.before_get v (options, [])) options)
    (lowered (stored doc))
  = Ok (document_read doc).
Proof.
  intros Hall. rewrite <- document_read_eq.
  apply (traverse_ok _
           (fun options : odict pystr pystr =>
              (fun ov : pystr * pystr => (ov.1, unescape ov.2)) <$> options)).
  unfold lowered, stored. apply Forall_fmap, Forall_fmap.
  eapply Forall_impl; [exact Hall|].
  intros [s options] (_ & _ & Hopts). cbn [fst snd compose] in *.
  apply traverse_ok. by apply stored_escaped.
Qed.

(** X22: values are interpolated when they are read back. In a document
    whose file the parser reads without error and whose other values have
    their [%] in pairs, when the stripped value of an option is some text
    without [%], then [%(name)s], then text with its [%] in pairs, and the
    section holds an option called [name] up to capitals whose stored value
    has its [%] in pairs, the option is read back with that value in the
    place of [%(name)s]. *)
Theorem read_cfg_reference
    (fs : gmap pystr pystr) (file : pystr) (before after : document)
    (s : pystr) (options more : odict pystr pystr)
    (o v pre name post w : pystr) :
  parsable (before ++ (s, options ++ (o, v) :: more) :: after) = true ->
  writable (before ++ (s, options ++ more) :: after) = true ->
  comment_name o = false ->
  strip v = pre ++ reference name ++ post ->
  "%"%char ∉ pre -> name ≠ [] -> ")"%char ∉ name -> escaped post = true ->
  Dict.get (lowered_options (stored_options (options ++ (o, v) :: more)))
           (lower name) = Some w ->
  escaped w = true ->
  read_cfg (create_cfg fs file
              (before ++ (s, options ++ (o, v) :: more) :: after)) file
  = Ok (document_read before
        ++ (s, options_read options
               ++ (lower o, pre ++ unescape w ++ unescape post)
                  :: options_read more)
           :: document_read after).
Proof.
  intros Hp Hw Hc Hv Hpre Hname Hclose Hpost Hget Hesc. unfold read_cfg.
  rewrite (read_written fs file _ Hp). cbn [mbind result_bind].
  apply parsable_spec in Hp as [Hnd Hok].
  rewrite read_loops_traverse.
  - rewrite (lowered_stored_split _ _ _ _ _ _ _ Hc).
    rewrite (lowered_stored_options_split _ _ _ _ Hc) in Hget.
    apply writable_spec in Hw as [_ Hw].
    apply Forall_app in Hw as [Hwb Hws].
    apply Forall_cons in Hws as [(_ & _ & Hwo) Hwa]. cbn [fst snd] in Hwo.
    apply Forall_app in Hwo as [Hwo Hwm].
    rewrite traverse_app, (stored_sections_escaped before Hwb).
    cbn [mbind result_bind traverse].
    rewrite traverse_app.
    rewrite (traverse_ok _ unescape _ (stored_escaped options _ Hwo)).
    cbn [mbind result_bind traverse]. rewrite Hv in Hget |- *.
    rewrite (before_get_reference pre name post w _ Hpre Hname Hclose Hpost)
      by (try exact Hesc; unfold ConfigParser.chain_get; cbn [fst snd];
          by rewrite Hget).
    cbn [mbind result_bind].
    rewrite (traverse_ok _ unescape _ (stored_escaped more _ Hwm)).
    cbn [mbind result_bind]. rewrite (stored_sections_escaped after Hwa).
    cbn [mbind result_bind]. unfold mret, result_ret.
    by rewrite !options_read_eq.
  - by rewrite lowered_keys, stored_keys.
  - unfold lowered, stored. apply Forall_fmap, Forall_fmap.
    eapply Forall_impl; [exact Hok|].
    intros [s' options'] (_ & Hndo & _). cbn [fst snd compose] in *.
    split; [by rewrite lowered_options_keys|].
    unfold lowered_options. apply Forall_fmap, Forall_forall.
    intros [o' v'] _. cbn [fst snd compose]. apply lower_idemp.
Qed.

Lemma read_cfg_reference_witness :
  read_cfg (create_cfg ∅ (str "app.cfg") reference_document) (str "app.cfg")
  = Ok [(str "paths", [(str "root", str "/var/www");
                       (str "logs", str "/var/www/logs 100%")])].
Proof.
  assert (Hp : parsable reference_document = true) by (vm_compute; reflexivity).
  assert (Hw : writable ([] ++ [(str "paths", [(str "Root", str "/var/www")] ++ [])])
               = true) by (vm_compute; reflexivity).
  assert (Hc : comment_name (str "logs") = false) by reflexivity.
  assert (Hv : strip (str "%(ROOT)s/logs 100%%")
               = [] ++ reference (str "ROOT") ++ str "/logs 100%%")
    by reflexivity.
  assert (Hpre : "%"%char ∉ ([] : pystr)) by apply not_elem_of_nil.
  assert (Hname : str "ROOT" ≠ []) by discriminate.
  assert (Hclose : ")"%char ∉ str "ROOT")
    by (apply (bool_decide_eq_false_1 (")"%char ∈ str "ROOT")); reflexivity).
  assert (Hpost : escaped (str "/logs 100%%") = true) by reflexivity.
  assert (Hget : Dict.get
                   (lowered_options
                      (stored_options
                         ([(str "Root", str "/var/www")]
                          ++ (str "logs", str "%(ROOT)s/logs 100%%") :: [])))
                   (lower (str "ROOT")) = Some (str "/var/www"))
    by (vm_compute; reflexivity).
  assert (Hesc : escaped (str "/var/www") = true) by reflexivity.
  exact (read_cfg_reference ∅ (str "app.cfg") [] [] (str "paths")
           [(str "Root", str "/var/www")] [] (str "logs")
           (str "%(ROOT)s/logs 100%%") [] (str "ROOT") (str "/logs 100%%")
           (str "/var/www") Hp Hw Hc Hv Hpre Hname Hclose Hpost Hget Hesc).
Defined.
